(** * The basic image editor: history, filter presets and region retouching

    A shallow embedding of
      - src/components/editor/ImageEditor.tsx (the editor component: its
        state variables, event handlers and the canvas redraw effect),
      - src/lib/filters.ts (the preset table),
      - src/lib/image-processing.ts (rotateSize, getCroppedImg, spotFix,
        removeRedEye),
      - src/lib/imageUtils.ts (removeColorRange),
      - src/utils/imageProcessing.ts (the history of the Editor component),
    followed by the properties of the edit history, of the preset merge and
    of the retouch operators that the specification talks about, and by
    further properties of the same code.

    Conventions.  A JavaScript [number] that holds a pixel index, a slider
    value, a position in the history or a byte is an integer here ([Z]), and
    so is the position of a pointer event.  The centre that a retouch
    operator is given may be any finite number: it is a rational ([Q]), and
    the subtraction and the addition that the operators do on it round to
    binary64 ([Number.round]).  [rotateSize], whose results depend on how a
    sine rounds, computes on the binary64 numbers of the kernel
    ([PrimFloat.float]).  An object with numeric properties is the list of
    its own properties in insertion order, which is what the spread syntax
    and [JSON.stringify] observe.  A typed array is a list updated with
    stdpp's [<[i:=x]>], which like a typed array ignores a write past the
    end.  The component never changes an object or an array of its state in
    place (it builds new ones with [slice] and the spread syntax), so state
    is passed as values; the one store that is written in place is the
    canvas.  Each event is handled to its end before the next one, the two
    asynchronous handlers included. *)

From stdpp Require Import base tactics option list strings numbers.
From stdpp Require pretty.
From Stdlib Require Import ZArith Lia QArith Qround Lqa.
From Stdlib Require PrimFloat FloatOps SpecFloat FloatAxioms.
Import PrimFloat.PrimFloatNotations.

Number Notation PrimFloat.float PrimFloat.parser PrimFloat.printer
  : float_scope.

Local Open Scope string_scope.
Local Open Scope Z_scope.

(** ** JavaScript objects with numeric properties *)

Definition Obj := list (string * Z).

(** [o.k] *)
Fixpoint getProp (k : string) (o : Obj) : option Z :=
  match o with
  | [] => None
  | (k', v) :: o' => if decide (k' = k) then Some v else getProp k o'
  end.

(** [o.k = v]: an existing property keeps its position, a new one is added
    at the end. *)
Fixpoint setProp (k : string) (v : Z) (o : Obj) : Obj :=
  match o with
  | [] => [(k, v)]
  | (k', v') :: o' =>
      if decide (k' = k) then (k', v) :: o' else (k', v') :: setProp k v o'
  end.

(** [{ ...base, ...over }] *)
Definition spread (base over : Obj) : Obj :=
  fold_left (fun acc kv => setProp kv.1 kv.2 acc) over base.

(** ** ImageEditor.tsx: FilterValues and DEFAULT_FILTERS *)

Definition FilterValues := Obj.

Definition DEFAULT_FILTERS : FilterValues :=
  [ ("brightness", 100); ("contrast", 100); ("saturation", 100);
    ("sepia", 0); ("grayscale", 0); ("blur", 0); ("hueRotate", 0) ].

(** ** filters.ts: the preset table *)

Module Filter.
Record t := mk { name : string; class : string; filter : Obj }.
End Filter.

Definition INSTAGRAM_FILTERS : list Filter.t :=
  [ Filter.mk "Normal" "" [];
    Filter.mk "Clarendon" "filter-clarendon"
      [ ("contrast", 120); ("saturate", 125); ("brightness", 110) ];
    Filter.mk "Gingham" "filter-gingham"
      [ ("brightness", 105); ("hueRotate", -10); ("sepia", 0) ];
    Filter.mk "Moon" "filter-moon"
      [ ("grayscale", 100); ("contrast", 110); ("brightness", 110) ];
    Filter.mk "Lark" "filter-lark"
      [ ("contrast", 90); ("brightness", 115); ("saturate", 110) ];
    Filter.mk "Reyes" "filter-reyes"
      [ ("sepia", 22); ("brightness", 110); ("contrast", 85) ];
    Filter.mk "Juno" "filter-juno"
      [ ("contrast", 120); ("brightness", 110); ("saturate", 140);
        ("sepia", 20) ];
    Filter.mk "Slumber" "filter-slumber"
      [ ("brightness", 105); ("saturate", 66); ("sepia", 40) ];
    Filter.mk "Crema" "filter-crema"
      [ ("contrast", 90); ("saturate", 90); ("sepia", 20) ];
    Filter.mk "Ludwig" "filter-ludwig"
      [ ("brightness", 105); ("saturate", 100); ("contrast", 105) ];
    Filter.mk "Aden" "filter-aden"
      [ ("hueRotate", -20); ("contrast", 90); ("brightness", 120);
        ("saturate", 85) ];
    Filter.mk "Perpetua" "filter-perpetua"
      [ ("contrast", 110); ("brightness", 110); ("saturate", 110) ] ].

(** The Clarendon entry, lines 21-29 of filters.ts. *)
Definition Clarendon : Filter.t :=
  Filter.mk "Clarendon" "filter-clarendon"
    [ ("contrast", 120); ("saturate", 125); ("brightness", 110) ].

(** The properties [getFilterString] reads, apart from [saturation], in the
    order in which it reads them. *)
Definition shared_keys : list string :=
  [ "brightness"; "contrast"; "sepia"; "grayscale"; "blur"; "hueRotate" ].

Local Close Scope string_scope.

(** ** Bitmaps: ImageData objects and canvas backing stores

    [data] is the flat RGBA byte array, row-major, four bytes per pixel, as
    in [ImageData.data]; a canvas backing store is kept in the same form. *)

Record Pixel := RGBA { red : Z; green : Z; blue : Z; alpha : Z }.

Record Bitmap := mkBitmap { width : Z; height : Z; data : list Z }.

#[global] Instance Pixel_eq_dec : EqDecision Pixel.
Proof. solve_decision. Defined.

#[global] Instance Bitmap_eq_dec : EqDecision Bitmap.
Proof. solve_decision. Defined.

Definition transparentBlack : Pixel := RGBA 0 0 0 0.

Definition bytes (p : Pixel) : list Z := [red p; green p; blue p; alpha p].

(** [d[i]] for an index inside the array.  Image data holds whole pixels,
    so the loops below never read outside it. *)
Definition byteAt (d : list Z) (i : Z) : Z :=
  if i <? 0 then 0 else default 0 (d !! Z.to_nat i).

(** The pixel whose first byte is at [pos]. *)
Definition pixelOfData (d : list Z) (pos : Z) : Pixel :=
  RGBA (byteAt d pos) (byteAt d (pos + 1)) (byteAt d (pos + 2))
       (byteAt d (pos + 3)).

Definition inBounds (bm : Bitmap) (x y : Z) : bool :=
  (0 <=? x) && (x <? width bm) && (0 <=? y) && (y <? height bm).

(** Reading a canvas pixel: outside the backing store the canvas reads as
    transparent black. *)
Definition pixelAt (bm : Bitmap) (x y : Z) : Pixel :=
  if inBounds bm x y then pixelOfData (data bm) ((y * width bm + x) * 4)
  else transparentBlack.

(** Row-major enumeration of a [w] x [h] grid. *)
Definition pixelGrid (w h : Z) (f : Z -> Z -> Pixel) : list Pixel :=
  y ← seqZ 0 h; x ← seqZ 0 w; [f x y].

Definition buildData (w h : Z) (f : Z -> Z -> Pixel) : list Z :=
  pixelGrid w h f ≫= bytes.

Definition buildBitmap (w h : Z) (f : Z -> Z -> Pixel) : Bitmap :=
  mkBitmap w h (buildData w h f).

(** ** The part of the canvas API the sources call *)

Inductive DOMException := IndexSizeError.

Inductive Outcome := Returned | Threw (e : DOMException).

(** Assigning [canvas.width] or [canvas.height]: the attribute is limited to
    non-negative numbers and falls back to its default otherwise (its upper
    limit is left out). *)
Definition canvasDim (dflt v : Z) : Z :=
  if 0 <=? v then v else dflt.

(** A canvas after [canvas.width = w; canvas.height = h]: cleared. *)
Definition newCanvas (w h : Z) : Bitmap :=
  buildBitmap (canvasDim 300 w) (canvasDim 150 h) (fun _ _ => transparentBlack).

(** [ctx.getImageData(sx, sy, sw, sh)]: throws on an empty rectangle; the
    rectangle may have negative extents; pixels outside the canvas are
    transparent black. *)
Definition getImageData (canvas : Bitmap) (sx sy sw sh : Z) : option Bitmap :=
  if (sw =? 0) || (sh =? 0) then None
  else
    let x0 := Z.min sx (sx + sw) in
    let y0 := Z.min sy (sy + sh) in
    Some (buildBitmap (Z.abs sw) (Z.abs sh)
            (fun col row => pixelAt canvas (x0 + col) (y0 + row))).

(** Rewriting every pixel of a canvas in place. *)
Definition mapPixels (f : Z -> Z -> Pixel -> Pixel) (bm : Bitmap) : Bitmap :=
  buildBitmap (width bm) (height bm) (fun x y => f x y (pixelAt bm x y)).

(** [ctx.putImageData(img, 0, 0)]: a copy, no compositing.  It is exact for
    the pixels that a canvas can hold: the opaque ones, and those that were
    read from a canvas, which is all that getCroppedImg and removeColorRange
    put back unchanged.  A canvas keeps its pixels premultiplied, so of a
    pixel that is put with alpha 0 it keeps no colour, and of one put with
    another alpha below 255 it keeps the colour rounded; the bytes of such
    pixels are kept here as they are put, and nothing below is stated of
    them: the temporary canvas of the retouch operators is only read by
    [drawImage], which leaves the destination alone under alpha 0 and
    hands any other alpha below 255 to the host's blend. *)
Definition putImageData (canvas img : Bitmap) : Bitmap :=
  mapPixels (fun x y old => if inBounds img x y then pixelAt img x y else old)
            canvas.

(** Storing the quotient [n / d] in a [Uint8ClampedArray]: rounded to the
    nearest integer, ties to even, then clamped to a byte. *)
Definition roundHalfEven (n d : Z) : Z :=
  let q := n / d in
  let r := n mod d in
  if 2 * r <? d then q
  else if d <? 2 * r then q + 1
  else if Z.even q then q else q + 1.

Definition toUint8Clamp (n d : Z) : Z :=
  Z.max 0 (Z.min 255 (roundHalfEven n d)).

(** ** Numbers that need not be integers

    A finite binary64 number is a rational.  The result of an addition or
    of a subtraction is the exact result rounded to 53 significant bits,
    ties to even, which is what IEEE 754 prescribes between the subnormal
    range and the overflow threshold (the sum or the difference of a double
    and an integer is subnormal only when it is exact).  NaN and the
    infinities are not modelled: getMousePos produces them only for a
    canvas that is displayed with no width or height. *)

Module Number.

(** The binade of a rational that is not 0: the [e] with
    [2^e <= |q| < 2^(e+1)]. *)
Definition ilog2 (q : Q) : Z :=
  let n := Z.abs (Qnum q) in
  let d := Z.pos (Qden q) in
  let e := Z.log2 n - Z.log2 d in
  if (if 0 <=? e then d * 2 ^ e <=? n else d <=? n * 2 ^ (- e)) then e
  else e - 1.

(** [q * 2^s]. *)
Definition scale (q : Q) (s : Z) : Q :=
  if 0 <=? s then (q * inject_Z (2 ^ s))%Q else (q / inject_Z (2 ^ (- s)))%Q.

(** The integer nearest to [q], ties to even. *)
Definition nearest (q : Q) : Z := roundHalfEven (Qnum q) (Z.pos (Qden q)).

(** Rounding to binary64: the significand is scaled into [2^52, 2^53),
    rounded to an integer and scaled back. *)
Definition round (q : Q) : Q :=
  if Qeq_bool q 0 then 0%Q
  else let s := 52 - ilog2 q in
       Qred (scale (inject_Z (nearest (scale q s))) (- s)).

(** [a + b] and [a - b] on numbers. *)
Definition add (a b : Q) : Q := round (a + b).
Definition sub (a b : Q) : Q := round (a - b).

(** [a > b]. *)
Definition gt (a b : Q) : bool := negb (Qle_bool a b).

(** [Number.isInteger(q)]. *)
Definition isInteger (q : Q) : bool := Qnum q mod Z.pos (Qden q) =? 0.

(** The rational that a finite binary64 number of the kernel is (0 for the
    others), to compare [round] with the arithmetic of the machine. *)
Definition ofFloat (f : PrimFloat.float) : Q :=
  match FloatOps.Prim2SF f with
  | SpecFloat.S754_finite s m e =>
      let v := scale (inject_Z (Z.pos m)) e in
      if s then (- v)%Q else v
  | _ => 0%Q
  end.

(** The conversion of an argument that the canvas API declares [long]:
    the fraction is dropped (the range of [long] is left out, as it is for
    every other integer). *)
Definition toLong (q : Q) : Z := Z.quot (Qnum q) (Z.pos (Qden q)).

End Number.

Module Math.

(** [Math.max(a, b)]. *)
Definition max (a b : Q) : Q := if Qle_bool a b then b else a.

(** [Math.PI]: the binary64 number nearest to π, 3.141592653589793. *)
Definition PI : PrimFloat.float := 0x1.921fb54442d18p+1%float.

(** [Math.abs(x)]. *)
Definition abs : PrimFloat.float -> PrimFloat.float := PrimFloat.abs.

(** [Math.sin] and [Math.cos]: ECMAScript leaves their results to the
    implementation, so they are the engine's. *)
Record Engine := mkEngine {
  sin : PrimFloat.float -> PrimFloat.float;
  cos : PrimFloat.float -> PrimFloat.float
}.

End Math.

(** ** image-processing.ts: getRadianAngle and rotateSize

    On binary64 numbers, with the arithmetic of the machine. *)

Module Size.
Record t := mk { width : PrimFloat.float; height : PrimFloat.float }.
End Size.

(** Lines 31-33. *)
Definition getRadianAngle (degreeValue : PrimFloat.float) : PrimFloat.float :=
  ((degreeValue * Math.PI) / 180)%float.

(** Lines 38-53. *)
Definition rotateSize (engine : Math.Engine)
    (width height rotation : PrimFloat.float) : Size.t :=
  let rotRad := getRadianAngle rotation in
  Size.mk
    (Math.abs (Math.cos engine rotRad * width)
     + Math.abs (Math.sin engine rotRad * height))%float
    (Math.abs (Math.sin engine rotRad * width)
     + Math.abs (Math.cos engine rotRad * height))%float.

(** ** Image sources

    [imageSrc] and the [src] of a history entry are strings: object URLs
    (the uploaded file, the result of background removal) or the PNG data URL
    of a canvas.  A string is an immutable value; what matters of it is which
    URL it is and the image it decodes to. *)

Inductive Src :=
  | ObjectURL (id : N) (img : Bitmap)
  | DataURL (png : Bitmap).

#[global] Instance Src_eq_dec : EqDecision Src.
Proof. solve_decision. Defined.

(** [createImage(url)] followed by reading the pixels. *)
Definition decode (s : Src) : Bitmap :=
  match s with
  | ObjectURL _ img => img
  | DataURL png => png
  end.

(** [canvas.toDataURL()]: PNG is lossless, so the URL is the snapshot. *)
Definition toDataURL (canvas : Bitmap) : Src := DataURL canvas.

Module Flip.
Record t := mk { horizontal : bool; vertical : bool }.
End Flip.

Module PixelCrop.
Record t := mk { x : Z; y : Z; width : Z; height : Z }.
End PixelCrop.

(** A promise that has settled. *)
Inductive Promise (A : Type) :=
  | Resolved (a : A)
  | Rejected (e : DOMException).
Arguments Resolved {A} a.
Arguments Rejected {A} e.

(** ** What the browser decides

    The sources leave five things to the host: how an image is resampled
    when it is drawn through a rotation ([drawTransformed], lines 77-97 of
    getCroppedImg: the working canvas sized to the rotated bounding box with
    the image drawn through translate, rotate, scale, translate), how a
    partially transparent pixel is blended onto the canvas, how a stroked
    line is rasterised, the background-removal model, and what an image
    drawn through a circular clip makes of a canvas pixel that the circle
    covers in part or that the image reaches at a fractional offset
    ([drawClipped]: the anti-aliasing of the rim and the resampling of the
    image; its arguments are the centre and the radius of the arc, the
    image and the offset it is drawn at, the pixel and what it holds). *)

Record Host := mkHost {
  drawTransformed : Bitmap -> Z -> Flip.t -> Bitmap;
  blendPartial : Pixel -> Pixel -> Pixel;
  strokeLine : Bitmap -> Z * Z -> Z * Z -> string -> Z -> Bitmap;
  removeBackground : Src -> option Src;
  drawClipped : Q -> Q -> Z -> Bitmap -> Q -> Q -> Z -> Z -> Pixel -> Pixel
}.

(** The pixel ([px], [py]) is the unit square with that corner.  It lies
    well inside the disc of [ctx.arc(x, y, radius, 0, 2π)] when the whole
    square is within [radius - 1] of the centre, and well outside when the
    whole square is at least [radius + 1] away.  The centre is taken
    anywhere in its own unit square, so both tests are decided on
    integers.  In between, within a pixel of the circle, the coverage of
    the pixel depends on how the browser flattens the arc and anti-aliases
    its edge. *)
Definition wholeInArc (x y : Q) (radius px py : Z) : bool :=
  let farX := Z.max (px + 1 - Qfloor x) (Qceiling x - px) in
  let farY := Z.max (py + 1 - Qfloor y) (Qceiling y - py) in
  (1 <=? radius)
  && (farX * farX + farY * farY <=? (radius - 1) * (radius - 1)).

Definition clearOfArc (x y : Q) (radius px py : Z) : bool :=
  let nearX := Z.max 0 (Z.max (px - Qceiling x) (Qfloor x - (px + 1))) in
  let nearY := Z.max 0 (Z.max (py - Qceiling y) (Qfloor y - (py + 1))) in
  (radius + 1) * (radius + 1) <=? nearX * nearX + nearY * nearY.

Section ImageProcessing.
Context (host : Host).

(** Default compositing ([source-over]): an opaque source pixel replaces
    the destination, a fully transparent one leaves it. *)
Definition sourceOver (s d : Pixel) : Pixel :=
  if alpha s =? 255 then s
  else if alpha s =? 0 then d
  else blendPartial host s d.

(** What [ctx.drawImage(tempCanvas, dx, dy)] makes of the canvas pixel
    ([px], [py]) while the clip is the disc of [ctx.arc(x, y, radius, ...)].
    A pixel well outside the disc is not touched.  A pixel well inside it
    receives the pixel of the image that lies on it, when the image is drawn
    at a whole offset.  Every other pixel is the host's. *)
Definition paintInArc (x y : Q) (radius : Z) (tempCanvas : Bitmap) (dx dy : Q)
    (px py : Z) (old : Pixel) : Pixel :=
  if clearOfArc x y radius px py then old
  else if wholeInArc x y radius px py
          && Number.isInteger dx && Number.isInteger dy then
    let tx := px - Number.toLong dx in
    let ty := py - Number.toLong dy in
    if inBounds tempCanvas tx ty
    then sourceOver (pixelAt tempCanvas tx ty) old
    else old
  else drawClipped host x y radius tempCanvas dx dy px py old.

(** [ctx.save(); ctx.beginPath(); ctx.arc(x, y, radius, 0, Math.PI * 2);
     ctx.clip(); ctx.drawImage(tempCanvas, dx, dy); ctx.restore()].
    [arc] throws on a negative radius, before anything is drawn. *)
Definition drawImageInArc (canvas : Bitmap) (x y : Q) (radius : Z)
    (tempCanvas : Bitmap) (dx dy : Q) : Bitmap * Outcome :=
  if radius <? 0 then (canvas, Threw IndexSizeError)
  else (mapPixels (paintInArc x y radius tempCanvas dx dy) canvas, Returned).

(** image-processing.ts, getCroppedImg.  [ctx2d] tells whether
    [canvas.getContext("2d")] hands out a context. *)
Definition getCroppedImg (ctx2d : bool) (imageSrc : Src)
    (pixelCrop : option PixelCrop.t) (rotation : Z) (flip : Flip.t)
    : Promise (option Src) :=
  let image := decode imageSrc in
  if negb ctx2d then Resolved None
  else
    let canvas := drawTransformed host image rotation flip in
    match pixelCrop with
    | None => Resolved (Some (toDataURL canvas))
    | Some pc =>
        match getImageData canvas (PixelCrop.x pc) (PixelCrop.y pc)
                (PixelCrop.width pc) (PixelCrop.height pc) with
        | None => Rejected IndexSizeError
        | Some data =>
            let canvas' :=
              newCanvas (PixelCrop.width pc) (PixelCrop.height pc) in
            Resolved (Some (toDataURL (putImageData canvas' data)))
        end
    end.

(** [data[pos] = v] on a typed array. *)
Definition writeByte (pos v : Z) (d : list Z) : list Z :=
  if pos <? 0 then d else <[Z.to_nat pos := v]> d.

(** spotFix, lines 210-228: the sums over the 5 x 5 neighbourhood of
    (row [i], column [j]) that lies inside the [w] x [h] region. *)
Definition neighbourSum (copy : list Z) (w h i j : Z) : Z * Z * Z * Z :=
  fold_left
    (fun acc dy =>
       fold_left
         (fun '(r, g, b, count) dx =>
            let ny := i + dy in
            let nx := j + dx in
            if (0 <=? ny) && (ny <? h) && (0 <=? nx) && (nx <? w) then
              let nPos := (ny * w + nx) * 4 in
              (r + byteAt copy nPos, g + byteAt copy (nPos + 1),
               b + byteAt copy (nPos + 2), count + 1)
            else (r, g, b, count))
         (seqZ (-2) 5) acc)
    (seqZ (-2) 5) (0, 0, 0, 0).

(** spotFix, lines 204-236. *)
Definition boxBlur (w h : Z) (data0 : list Z) : list Z :=
  let copy := data0 in
  fold_left
    (fun d i =>
       fold_left
         (fun d j =>
            let pos := (i * w + j) * 4 in
            let '(r, g, b, count) := neighbourSum copy w h i j in
            if count >? 0 then
              writeByte (pos + 2) (toUint8Clamp b count)
                (writeByte (pos + 1) (toUint8Clamp g count)
                   (writeByte pos (toUint8Clamp r count) d))
            else d)
         (seqZ 0 w) d)
    (seqZ 0 h) data0.

(** image-processing.ts, spotFix: the canvas afterwards and how the call
    ended.  [x] and [y] are any finite numbers; [radius] is the brush size
    or twice the brush size, an integer. *)
Definition spotFix (canvas : Bitmap) (x y : Q) (radius : Z)
    : Bitmap * Outcome :=
  let size := radius * 2 in
  let startX := Math.max 0 (Number.sub x (inject_Z radius)) in
  let startY := Math.max 0 (Number.sub y (inject_Z radius)) in
  match getImageData canvas (Number.toLong startX) (Number.toLong startY)
          size size with
  | None => (canvas, Threw IndexSizeError)
  | Some imageData =>
      let w := width imageData in
      let h := height imageData in
      let imageData' := mkBitmap w h (boxBlur w h (data imageData)) in
      let tempCanvas := putImageData (newCanvas w h) imageData' in
      drawImageInArc canvas x y radius tempCanvas startX startY
  end.

(** removeRedEye, lines 286-295: the body of the loop, at index [i]. *)
Definition redEyeStep (d : list Z) (i : Z) : list Z :=
  let r := byteAt d i in
  let g := byteAt d (i + 1) in
  let b := byteAt d (i + 2) in
  if (r >? g + b) && (r >? 50) then
    let avg := toUint8Clamp (g + b) 2 in
    writeByte (i + 2) avg (writeByte (i + 1) avg (writeByte i avg d))
  else d.

(** removeRedEye, lines 285-296: [for (i = 0; i < data.length; i += 4)]. *)
Definition redEyeLoop (data0 : list Z) : list Z :=
  fold_left redEyeStep
    ((fun k => 4 * k) <$> seqZ 0 ((Z.of_nat (length data0) + 3) / 4))
    data0.

(** What the body of that loop makes of the pixel it visits. *)
Definition redEyePixel (p : Pixel) : Pixel :=
  if (red p >? green p + blue p) && (red p >? 50) then
    let avg := toUint8Clamp (green p + blue p) 2 in
    RGBA avg avg avg (alpha p)
  else p.

(** image-processing.ts, removeRedEye. *)
Definition removeRedEye (canvas : Bitmap) (x y : Q) (radius : Z)
    : Bitmap * Outcome :=
  let size := radius * 2 in
  let startX := Math.max 0 (Number.sub x (inject_Z radius)) in
  let startY := Math.max 0 (Number.sub y (inject_Z radius)) in
  if Number.gt (Number.add startX (inject_Z size)) (inject_Z (width canvas))
     || Number.gt (Number.add startY (inject_Z size))
          (inject_Z (height canvas))
  then (canvas, Returned)
  else
    match getImageData canvas (Number.toLong startX) (Number.toLong startY)
            size size with
    | None => (canvas, Threw IndexSizeError)
    | Some imageData =>
        let imageData' :=
          mkBitmap (width imageData) (height imageData)
                   (redEyeLoop (data imageData)) in
        let tempCanvas := putImageData (newCanvas size size) imageData' in
        drawImageInArc canvas x y radius tempCanvas startX startY
    end.

End ImageProcessing.

(** ** ImageEditor.tsx: the component state

    One field per state variable ([useState]) or ref ([useRef]) that the
    history, filter, crop, draw and repair handlers touch.  [canvasRef] is the
    mounted canvas with its pixels, [None] while the crop view replaces it. *)

Module Mode.
Inductive t := crop | adjust | filter | draw | repair | remove_bg | compress.
End Mode.

#[global] Instance Mode_eq_dec : EqDecision Mode.t.
Proof. solve_decision. Defined.

Inductive RepairType := blemish | redeye.

Module HistoryState.
Record t := mk { src : Src; filters : FilterValues }.
End HistoryState.

Record EditorState := mkState {
  imageSrc : Src;
  mode : option Mode.t;
  filters : FilterValues;
  lastAppliedFilters : FilterValues;
  history : list HistoryState.t;
  historyIndex : Z;
  drawColor : string;
  drawSize : Z;
  isDrawing : bool;
  repairType : RepairType;
  rotation : Z;
  flip : Flip.t;
  canvasRef : option Bitmap;
  lastPos : option (Z * Z)
}.

(** The state setters. *)

Definition setImageSrc (v : Src) (s : EditorState) : EditorState :=
  match s with
  | mkState a1 a2 a3 a4 a5 a6 a7 a8 a9 a10 a11 a12 a13 a14 =>
      mkState v a2 a3 a4 a5 a6 a7 a8 a9 a10 a11 a12 a13 a14
  end.

Definition setMode (v : option Mode.t) (s : EditorState) : EditorState :=
  match s with
  | mkState a1 a2 a3 a4 a5 a6 a7 a8 a9 a10 a11 a12 a13 a14 =>
      mkState a1 v a3 a4 a5 a6 a7 a8 a9 a10 a11 a12 a13 a14
  end.

Definition setFilters (v : FilterValues) (s : EditorState) : EditorState :=
  match s with
  | mkState a1 a2 a3 a4 a5 a6 a7 a8 a9 a10 a11 a12 a13 a14 =>
      mkState a1 a2 v a4 a5 a6 a7 a8 a9 a10 a11 a12 a13 a14
  end.

Definition setLastAppliedFilters (v : FilterValues) (s : EditorState)
    : EditorState :=
  match s with
  | mkState a1 a2 a3 a4 a5 a6 a7 a8 a9 a10 a11 a12 a13 a14 =>
      mkState a1 a2 a3 v a5 a6 a7 a8 a9 a10 a11 a12 a13 a14
  end.

Definition setHistory (v : list HistoryState.t) (s : EditorState)
    : EditorState :=
  match s with
  | mkState a1 a2 a3 a4 a5 a6 a7 a8 a9 a10 a11 a12 a13 a14 =>
      mkState a1 a2 a3 a4 v a6 a7 a8 a9 a10 a11 a12 a13 a14
  end.

Definition setHistoryIndex (v : Z) (s : EditorState) : EditorState :=
  match s with
  | mkState a1 a2 a3 a4 a5 a6 a7 a8 a9 a10 a11 a12 a13 a14 =>
      mkState a1 a2 a3 a4 a5 v a7 a8 a9 a10 a11 a12 a13 a14
  end.

Definition setDrawColor (v : string) (s : EditorState) : EditorState :=
  match s with
  | mkState a1 a2 a3 a4 a5 a6 a7 a8 a9 a10 a11 a12 a13 a14 =>
      mkState a1 a2 a3 a4 a5 a6 v a8 a9 a10 a11 a12 a13 a14
  end.

Definition setDrawSize (v : Z) (s : EditorState) : EditorState :=
  match s with
  | mkState a1 a2 a3 a4 a5 a6 a7 a8 a9 a10 a11 a12 a13 a14 =>
      mkState a1 a2 a3 a4 a5 a6 a7 v a9 a10 a11 a12 a13 a14
  end.

Definition setIsDrawing (v : bool) (s : EditorState) : EditorState :=
  match s with
  | mkState a1 a2 a3 a4 a5 a6 a7 a8 a9 a10 a11 a12 a13 a14 =>
      mkState a1 a2 a3 a4 a5 a6 a7 a8 v a10 a11 a12 a13 a14
  end.

Definition setRepairType (v : RepairType) (s : EditorState) : EditorState :=
  match s with
  | mkState a1 a2 a3 a4 a5 a6 a7 a8 a9 a10 a11 a12 a13 a14 =>
      mkState a1 a2 a3 a4 a5 a6 a7 a8 a9 v a11 a12 a13 a14
  end.

Definition setRotation (v : Z) (s : EditorState) : EditorState :=
  match s with
  | mkState a1 a2 a3 a4 a5 a6 a7 a8 a9 a10 a11 a12 a13 a14 =>
      mkState a1 a2 a3 a4 a5 a6 a7 a8 a9 a10 v a12 a13 a14
  end.

Definition setFlip (v : Flip.t) (s : EditorState) : EditorState :=
  match s with
  | mkState a1 a2 a3 a4 a5 a6 a7 a8 a9 a10 a11 a12 a13 a14 =>
      mkState a1 a2 a3 a4 a5 a6 a7 a8 a9 a10 a11 v a13 a14
  end.

Definition setCanvasRef (v : option Bitmap) (s : EditorState) : EditorState :=
  match s with
  | mkState a1 a2 a3 a4 a5 a6 a7 a8 a9 a10 a11 a12 a13 a14 =>
      mkState a1 a2 a3 a4 a5 a6 a7 a8 a9 a10 a11 a12 v a14
  end.

Definition setLastPos (v : option (Z * Z)) (s : EditorState) : EditorState :=
  match s with
  | mkState a1 a2 a3 a4 a5 a6 a7 a8 a9 a10 a11 a12 a13 a14 =>
      mkState a1 a2 a3 a4 a5 a6 a7 a8 a9 a10 a11 a12 a13 v
  end.

(** [useState] initial values, and the canvas as the mount effect leaves it. *)
Definition initialState (initialImage : Src) : EditorState :=
  {| imageSrc := initialImage;
     mode := None;
     filters := DEFAULT_FILTERS;
     lastAppliedFilters := DEFAULT_FILTERS;
     history := [HistoryState.mk initialImage DEFAULT_FILTERS];
     historyIndex := 0;
     drawColor := "#ffffff"%string;
     drawSize := 5;
     isDrawing := false;
     repairType := blemish;
     rotation := 0;
     flip := Flip.mk false false;
     canvasRef := Some (decode initialImage);
     lastPos := None |}.

(** [a[i]] for an array and a number. *)
Definition at_index {A} (l : list A) (i : Z) : option A :=
  if i <? 0 then None else l !! Z.to_nat i.

(** [a.slice(0, e)] *)
Definition slice0 {A} (e : Z) (l : list A) : list A :=
  let len := Z.of_nat (length l) in
  take (Z.to_nat (if e <? 0 then Z.max (len + e) 0 else Z.min e len)) l.

(** Line 310. [JSON.stringify] writes the properties in insertion order, so
    two of these objects have the same text exactly when they are the same
    list. *)
Definition hasChanges (s : EditorState) : bool :=
  bool_decide (filters s <> lastAppliedFilters s).

Section Handlers.
Context (host : Host).

(** Lines 197-204. *)
Definition addToHistory (newSrc : Src) (newFilters : FilterValues)
    (s : EditorState) : EditorState :=
  let newHistory :=
    slice0 (historyIndex s + 1) (history s)
    ++ [HistoryState.mk newSrc newFilters] in
  setFilters newFilters
    (setImageSrc newSrc
       (setHistoryIndex (Z.of_nat (length newHistory) - 1)
          (setHistory newHistory s))).

(** Lines 206-214.  [None]: reading [state.src] of an undefined entry
    raises a TypeError. *)
Definition handleUndo (s : EditorState) : option EditorState :=
  if historyIndex s >? 0 then
    match at_index (history s) (historyIndex s - 1) with
    | Some state =>
        Some (setLastAppliedFilters (HistoryState.filters state)
                (setFilters (HistoryState.filters state)
                   (setImageSrc (HistoryState.src state)
                      (setHistoryIndex (historyIndex s - 1) s))))
    | None => None
    end
  else Some s.

(** Lines 216-224. *)
Definition handleRedo (s : EditorState) : option EditorState :=
  if historyIndex s <? Z.of_nat (length (history s)) - 1 then
    match at_index (history s) (historyIndex s + 1) with
    | Some state =>
        Some (setLastAppliedFilters (HistoryState.filters state)
                (setFilters (HistoryState.filters state)
                   (setImageSrc (HistoryState.src state)
                      (setHistoryIndex (historyIndex s + 1) s))))
    | None => None
    end
  else Some s.

(** Lines 245-265.  [None]: the repair operator threw.  [pos] is what
    getMousePos returns, for a pointer on the pixel grid. *)
Definition startInteraction (pos : Z * Z) (s : EditorState)
    : option EditorState :=
  match mode s with
  | None | Some Mode.crop | Some Mode.adjust | Some Mode.filter => Some s
  | Some m =>
      let s1 := setLastPos (Some pos) (setIsDrawing true s) in
      if decide (m = Mode.repair) then
        match canvasRef s with
        | Some canvas =>
            let '(canvas', outcome) :=
              match repairType s with
              | redeye =>
                  removeRedEye host canvas (inject_Z pos.1) (inject_Z pos.2)
                    (drawSize s)
              | blemish =>
                  spotFix host canvas (inject_Z pos.1) (inject_Z pos.2)
                    (drawSize s * 2)
              end in
            match outcome with
            | Returned => Some (setCanvasRef (Some canvas') s1)
            | Threw _ => None
            end
        | None => Some s1
        end
      else Some s1
  end.

(** Lines 267-286. *)
Definition moveInteraction (pos : Z * Z) (s : EditorState) : EditorState :=
  match isDrawing s, lastPos s, canvasRef s with
  | true, Some last, Some canvas =>
      if decide (mode s = Some Mode.draw) then
        setLastPos (Some pos)
          (setCanvasRef
             (Some (strokeLine host canvas last pos (drawColor s)
                      (drawSize s)))
             s)
      else s
  | _, _, _ => s
  end.

(** Lines 288-296. *)
Definition endInteraction (s : EditorState) : EditorState :=
  let s1 :=
    if isDrawing s then
      match canvasRef s with
      | Some canvas => addToHistory (toDataURL canvas) (filters s) s
      | None => s
      end
    else s in
  setLastPos None (setIsDrawing false s1).

(** Lines 300-303. *)
Definition applyFilters (s : EditorState) : EditorState :=
  addToHistory (imageSrc s) (filters s)
    (setLastAppliedFilters (filters s) s).

(** Lines 305-308 (no element of the page calls it). *)
Definition applyPreset (f : Filter.t) (s : EditorState) : EditorState :=
  setFilters (spread (filters s) (Filter.filter f)) s.

(** Line 744, the [onClick] of a filter preview. *)
Definition filterPreviewOnClick (f : Filter.t) (s : EditorState)
    : EditorState :=
  setFilters (spread (lastAppliedFilters s) (Filter.filter f)) s.

(** Lines 698-733, the [onChange] of a slider:
    [setFilters({...filters, key: v})]. *)
Definition filterSliderOnChange (key : string) (v : Z) (s : EditorState)
    : EditorState :=
  setFilters (spread (filters s) [(key, v)]) s.

(** Lines 375-402.  [finalCrop] is the completed crop rectangle scaled to
    natural pixels (lines 380-388), as the integers [getImageData]
    receives; the image element exists only in the crop view. *)
Definition performCrop (ctx2d : bool) (finalCrop : option PixelCrop.t)
    (s : EditorState) : EditorState :=
  if decide (mode s = Some Mode.crop) then
    match getCroppedImg host ctx2d (imageSrc s) finalCrop (rotation s)
            (flip s) with
    | Resolved (Some cropped) =>
        setMode None
          (setFlip (Flip.mk false false)
             (setRotation 0 (addToHistory cropped (filters s) s)))
    | Resolved None => s
    | Rejected _ => s
    end
  else s.

(** Lines 404-418, taken as one step. *)
Definition handleRemoveBg (s : EditorState) : EditorState :=
  match removeBackground host (imageSrc s) with
  | Some newSrc => setMode None (addToHistory newSrc (filters s) s)
  | None => s
  end.

(** Lines 146-158: after a render the canvas is redrawn from [imageSrc]
    when [imageSrc] or [mode] changed; in the crop view there is no
    canvas.  The image load is taken as immediate. *)
Definition render (prev next : EditorState) : EditorState :=
  if decide (mode next = Some Mode.crop) then setCanvasRef None next
  else if decide (imageSrc next = imageSrc prev /\ mode next = mode prev)
       then next
       else setCanvasRef (Some (decode (imageSrc next))) next.

(** What the user can do. *)
Inductive Event :=
  | ToolButton (m : Mode.t)
  | CloseTool
  | Undo
  | Redo
  | PointerDown (pos : Z * Z)
  | PointerMove (pos : Z * Z)
  | PointerUp
  | Apply
  | FilterPreview (f : Filter.t)
  | FilterSlider (key : string) (v : Z)
  | BrushSize (v : Z)
  | BrushColor (c : string)
  | Repair (t : RepairType)
  | Rotate (delta : Z)
  | FlipH
  | FlipV
  | ApplyCrop (ctx2d : bool) (finalCrop : option PixelCrop.t)
  | RemoveBackground.

(** The handler an event reaches; the state stays as it is when the element
    is disabled or not on the page in the current mode, and a slider only
    gives values of its range.  [None]: the handler raised an exception. *)
Definition handle (e : Event) (s : EditorState) : option EditorState :=
  let canvasShown :=
    bool_decide (mode s <> Some Mode.crop /\ mode s <> Some Mode.compress) in
  match e with
  | ToolButton m => Some (setMode (Some m) s)
  | CloseTool => Some (setMode None s)
  | Undo => if historyIndex s =? 0 then Some s else handleUndo s
  | Redo =>
      if historyIndex s =? Z.of_nat (length (history s)) - 1 then Some s
      else handleRedo s
  | PointerDown pos => if canvasShown then startInteraction pos s else Some s
  | PointerMove pos =>
      if canvasShown then Some (moveInteraction pos s) else Some s
  | PointerUp => if canvasShown then Some (endInteraction s) else Some s
  | Apply =>
      if bool_decide (mode s = Some Mode.adjust \/ mode s = Some Mode.filter)
         && hasChanges s
      then Some (applyFilters s) else Some s
  | FilterPreview f =>
      if decide (mode s = Some Mode.filter)
      then Some (filterPreviewOnClick f s) else Some s
  | FilterSlider key v =>
      if decide (mode s = Some Mode.adjust)
      then Some (filterSliderOnChange key v s) else Some s
  | BrushSize v =>
      if bool_decide (mode s = Some Mode.draw /\ 1 <= v <= 50
                      \/ mode s = Some Mode.repair /\ 5 <= v <= 50)
      then Some (setDrawSize v s) else Some s
  | BrushColor c =>
      if decide (mode s = Some Mode.draw)
      then Some (setDrawColor c s) else Some s
  | Repair t =>
      if decide (mode s = Some Mode.repair)
      then Some (setRepairType t s) else Some s
  | Rotate delta =>
      if decide (mode s = Some Mode.crop)
      then Some (setRotation (rotation s + delta) s) else Some s
  | FlipH =>
      if decide (mode s = Some Mode.crop)
      then Some (setFlip (Flip.mk (negb (Flip.horizontal (flip s)))
                                  (Flip.vertical (flip s))) s)
      else Some s
  | FlipV =>
      if decide (mode s = Some Mode.crop)
      then Some (setFlip (Flip.mk (Flip.horizontal (flip s))
                                  (negb (Flip.vertical (flip s)))) s)
      else Some s
  | ApplyCrop ctx2d finalCrop => Some (performCrop ctx2d finalCrop s)
  | RemoveBackground =>
      if decide (mode s = Some Mode.remove_bg)
      then Some (handleRemoveBg s) else Some s
  end.

(** One event: the handler, then the render with its effect. *)
Definition step (s : EditorState) (e : Event) : option EditorState :=
  render s <$> handle e s.

Fixpoint run (s : EditorState) (es : list Event) : option EditorState :=
  match es with
  | [] => Some s
  | e :: es' => step s e ≫= fun s' => run s' es'
  end.

End Handlers.

(** ** Well-formed states and concrete inputs *)

(** The index points into the history. *)
Definition wfHistory (s : EditorState) : Prop :=
  0 <= historyIndex s < Z.of_nat (length (history s)).

(** Moreover the entry it points to is the image being shown, and the brush
    has a size. *)
Definition wfState (s : EditorState) : Prop :=
  wfHistory s
  /\ HistoryState.src <$> at_index (history s) (historyIndex s)
     = Some (imageSrc s)
  /\ 0 < drawSize s.

(** The pixels whose centre lies in the disc: a clip without
    anti-aliasing, which is how the host below treats the rim. *)
Definition centreInDisc (x y radius px py : Z) : bool :=
  (2 * px + 1 - 2 * x) * (2 * px + 1 - 2 * x)
  + (2 * py + 1 - 2 * y) * (2 * py + 1 - 2 * y)
  <=? (2 * radius) * (2 * radius).

(** A host to evaluate concrete cases with: it is used at rotation 0 without
    flips, where drawing through the transform copies the image, and on
    opaque pixels; its pen paints the end point of a segment white; its clip
    has a hard edge and it draws at the whole part of an offset. *)
Definition plainHost : Host :=
  mkHost (fun image _ _ => image)
         (fun s _ => s)
         (fun canvas _ pos _ _ =>
            mapPixels (fun px py old =>
                         if decide ((px, py) = pos) then RGBA 255 255 255 255
                         else old)
                      canvas)
         (fun _ => None)
         (fun x y radius tempCanvas dx dy px py old =>
            let tx := px - Qfloor dx in
            let ty := py - Qfloor dy in
            if centreInDisc (Qfloor x) (Qfloor y) radius px py
               && inBounds tempCanvas tx ty
            then
              let s := pixelAt tempCanvas tx ty in
              if alpha s =? 0 then old else s
            else old).

(** The entry of a table of (argument, result) pairs; nan stands for an
    argument that the table does not have. *)
Fixpoint lookupAngle (table : list (PrimFloat.float * PrimFloat.float))
    (a : PrimFloat.float) : PrimFloat.float :=
  match table with
  | [] => PrimFloat.nan
  | entry :: rest =>
      if PrimFloat.Leibniz.eqb entry.1 a then entry.2 else lookupAngle rest a
  end.

(** Sines and cosines exact at 0, as ECMAScript prescribes for +0. *)
Definition exactAtZero (engine : Math.Engine) : Prop :=
  Math.sin engine 0 = 0%float /\ Math.cos engine 0 = 1%float.

(** Sines and cosines that, at the radians of 45, 90, 180 and 360 degrees,
    are the binary64 numbers nearest to the sine and the cosine of the
    argument (which is not π/4, π/2, π or 2π but the double next to it):
    0.7071067811865475 and 0.7071067811865476; 1 and
    6.123233995736766e-17; 1.2246467991473532e-16 and -1;
    -2.4492935982947064e-16 and 1.  These are the results of fdlibm, which
    V8 uses. *)
Definition nearestAtSamples (engine : Math.Engine) : Prop :=
  Math.sin engine 0x1.921fb54442d18p-1 = 0x1.6a09e667f3bccp-1%float
  /\ Math.cos engine 0x1.921fb54442d18p-1 = 0x1.6a09e667f3bcdp-1%float
  /\ Math.sin engine 0x1.921fb54442d18p+0 = 1%float
  /\ Math.cos engine 0x1.921fb54442d18p+0 = 0x1.1a62633145c07p-54%float
  /\ Math.sin engine 0x1.921fb54442d18p+1 = 0x1.1a62633145c07p-53%float
  /\ Math.cos engine 0x1.921fb54442d18p+1 = (-1)%float
  /\ Math.sin engine 0x1.921fb54442d18p+2 = (-0x1.1a62633145c07p-52)%float
  /\ Math.cos engine 0x1.921fb54442d18p+2 = 1%float.

(** An engine to evaluate concrete cases with: it has these values and no
    others. *)
Definition sampleEngine : Math.Engine :=
  Math.mkEngine
    (lookupAngle
       [(0, 0); (0x1.921fb54442d18p-1, 0x1.6a09e667f3bccp-1);
        (0x1.921fb54442d18p+0, 1);
        (0x1.921fb54442d18p+1, 0x1.1a62633145c07p-53);
        (0x1.921fb54442d18p+2, -0x1.1a62633145c07p-52)]%float)
    (lookupAngle
       [(0, 1); (0x1.921fb54442d18p-1, 0x1.6a09e667f3bcdp-1);
        (0x1.921fb54442d18p+0, 0x1.1a62633145c07p-54);
        (0x1.921fb54442d18p+1, -1);
        (0x1.921fb54442d18p+2, 1)]%float).

Definition solid (w h : Z) (p : Pixel) : Bitmap :=
  buildBitmap w h (fun _ _ => p).

Definition redPixel : Pixel := RGBA 200 10 10 255.
Definition greenPixel : Pixel := RGBA 10 200 10 255.
Definition greyPixel : Pixel := RGBA 100 100 100 255.

(** An upload and a later raster. *)
Definition upload : Src := ObjectURL 1 (solid 2 2 greyPixel).
Definition rasterA : Src := DataURL (solid 2 2 redPixel).

(** A session whose brightness slider was moved to 120 and not applied. *)
Definition brightened : EditorState :=
  setFilters (setProp "brightness" 120 DEFAULT_FILTERS) (initialState upload).

(** The same with the sepia slider at 30 as well. *)
Definition brightenedSepia : EditorState :=
  setFilters (setProp "sepia" 30 (filters brightened)) brightened.

(** A session with two entries and a slider moved since the last commit:
    something is pending before the undo. *)
Definition pendingAfterCommit : EditorState :=
  setFilters (setProp "contrast" 80 DEFAULT_FILTERS)
    (addToHistory rasterA DEFAULT_FILTERS (initialState upload)).

(** A 12 x 12 grey raster with a red-eye pixel at (5, 5) and a green pixel
    at (6, 6). *)
Definition eyes : Bitmap :=
  buildBitmap 12 12
    (fun x y =>
       if decide ((x, y) = (5, 5)) then redPixel
       else if decide ((x, y) = (6, 6)) then greenPixel
       else greyPixel).

(** A session in draw mode with the pen down on a 2 x 2 grey canvas. *)
Definition penDown : EditorState :=
  setLastPos (Some (0, 0))
    (setIsDrawing true (setMode (Some Mode.draw) (initialState upload))).

(** What one handler does to the history and to the image shown: nothing,
    a move of the index to a neighbouring entry, or one commit of an image
    together with the adjustments that are live. *)
Inductive HistoryEffect (s s' : EditorState) : Prop :=
  | Kept :
      history s' = history s -> historyIndex s' = historyIndex s ->
      imageSrc s' = imageSrc s ->
      HistoryEffect s s'
  | Moved (st : HistoryState.t) :
      history s' = history s ->
      0 <= historyIndex s' ->
      historyIndex s' = historyIndex s - 1
      \/ historyIndex s' = historyIndex s + 1 ->
      at_index (history s) (historyIndex s') = Some st ->
      imageSrc s' = HistoryState.src st ->
      HistoryEffect s s'
  | Committed (newSrc : Src) :
      history s'
      = slice0 (historyIndex s + 1) (history s)
        ++ [HistoryState.mk newSrc (filters s)] ->
      historyIndex s' = Z.of_nat (length (history s')) - 1 ->
      imageSrc s' = newSrc ->
      HistoryEffect s s'.

(** The pen or the repair tool is down on a mounted canvas, and since the
    state [s1] neither the history nor the image nor the adjustments have
    changed. *)
Definition strokeInProgress (s1 s : EditorState) : Prop :=
  history s = history s1 /\ historyIndex s = historyIndex s1
  /\ imageSrc s = imageSrc s1 /\ filters s = filters s1
  /\ mode s = mode s1 /\ isDrawing s = true /\ is_Some (canvasRef s).

Definition drawOrRepair (s : EditorState) : Prop :=
  mode s = Some Mode.draw \/ mode s = Some Mode.repair.

Ltac crush_state :=
  repeat match goal with
         | s : EditorState |- _ => destruct s
         end;
  simpl in *.

Ltac pair_eq := repeat (apply (f_equal2 pair)); try reflexivity; try lia.

(** ** More of the sources

    The loop bodies of spotFix under names of their own, removeColorRange of
    imageUtils.ts, getFilterString of ImageEditor.tsx with the predicates on
    editor states that the later properties use, and the Editor component of
    utils/imageProcessing.ts. *)

(** Image data as the canvas hands it out: whole pixels, four bytes each. *)
Definition wfBitmap (bm : Bitmap) : Prop :=
  0 <= width bm /\ 0 <= height bm
  /\ Z.of_nat (length (data bm)) = 4 * (width bm * height bm).

(** spotFix, lines 217-227: the body of the inner neighbour loop, at the
    offsets [dy] and [dx] from row [i] and column [j]. *)
Definition neighbourStep (copy : list Z) (w h i j dy : Z)
    : Z * Z * Z * Z -> Z -> Z * Z * Z * Z :=
  fun '(r, g, b, count) dx =>
    let ny := i + dy in
    let nx := j + dx in
    if (0 <=? ny) && (ny <? h) && (0 <=? nx) && (nx <? w) then
      let nPos := (ny * w + nx) * 4 in
      (r + byteAt copy nPos, g + byteAt copy (nPos + 1),
       b + byteAt copy (nPos + 2), count + 1)
    else (r, g, b, count).

(** spotFix, lines 208-234: the body of the loop over the columns, at row
    [i] and column [j]. *)
Definition blurStep (copy : list Z) (w h i : Z) (d : list Z) (j : Z)
    : list Z :=
  let pos := (i * w + j) * 4 in
  let '(r, g, b, count) := neighbourSum copy w h i j in
  if count >? 0 then
    writeByte (pos + 2) (toUint8Clamp b count)
      (writeByte (pos + 1) (toUint8Clamp g count)
         (writeByte pos (toUint8Clamp r count) d))
  else d.

(** What that body makes of the pixel it visits. *)
Definition blurPixel (copy : list Z) (w h i j : Z) (p : Pixel) : Pixel :=
  let '(r, g, b, count) := neighbourSum copy w h i j in
  if count >? 0 then
    RGBA (toUint8Clamp r count) (toUint8Clamp g count) (toUint8Clamp b count)
         (alpha p)
  else p.

(** The positions that one row of the 5 x 5 window around row [i], column
    [j] contributes to the blur, as (column, row): those that lie in the
    [w] x [h] square. *)
Definition rowNeighbours (w h i j dy : Z) (dxs : list Z) : list (Z * Z) :=
  dx ← dxs;
  if (0 <=? i + dy) && (i + dy <? h) && (0 <=? j + dx) && (j + dx <? w)
  then [(j + dx, i + dy)]
  else [].

(** The positions that the blur of row [i], column [j] averages. *)
Definition neighbours (w h i j : Z) : list (Z * Z) :=
  dy ← seqZ (-2) 5; rowNeighbours w h i j dy (seqZ (-2) 5).

(** The sum of one channel of the region [F] over a list of positions. *)
Definition channelSum (c : Pixel -> Z) (F : Z -> Z -> Pixel)
    (l : list (Z * Z)) : Z :=
  foldr (fun n acc => c (F n.1 n.2) + acc) 0 l.

(** The sums of the loop with the pixels at [l] added. *)
Definition plusSums (F : Z -> Z -> Pixel) (acc : Z * Z * Z * Z)
    (l : list (Z * Z)) : Z * Z * Z * Z :=
  let '(r, g, b, count) := acc in
  (r + channelSum red F l, g + channelSum green F l,
   b + channelSum blue F l, count + Z.of_nat (length l)).

(** Each colour byte of [p] lies between that of [lo] and that of [hi]. *)
Definition within (lo hi p : Pixel) : Prop :=
  red lo <= red p <= red hi /\ green lo <= green p <= green hi
  /\ blue lo <= blue p <= blue hi.

(** The same for the sums over [count] pixels. *)
Definition sumsWithin (lo hi : Pixel) (acc : Z * Z * Z * Z) : Prop :=
  let '(r, g, b, count) := acc in
  0 <= count
  /\ count * red lo <= r <= count * red hi
  /\ count * green lo <= g <= count * green hi
  /\ count * blue lo <= b <= count * blue hi.

(** *** imageUtils.ts: removeColorRange *)

Module TargetColor.
Record t := mk { r : Z; g : Z; b : Z }.
End TargetColor.

(** Lines 171-183: the body of the loop, at index [i].  The bytes, the
    target colour and the tolerance are integers, so the sum [n] of the
    squares is an integer; with the root correctly rounded, as IEEE 754 has
    it, [Math.sqrt(n) < tolerance] holds exactly when the integer part of the
    root of [n] is below the tolerance. *)
Definition removeColorStep (targetColor : TargetColor.t) (tolerance : Z)
    (d : list Z) (i : Z) : list Z :=
  let r := byteAt d i in
  let g := byteAt d (i + 1) in
  let b := byteAt d (i + 2) in
  let dist :=
    Z.sqrt ((r - TargetColor.r targetColor) ^ 2
            + (g - TargetColor.g targetColor) ^ 2
            + (b - TargetColor.b targetColor) ^ 2) in
  if dist <? tolerance then writeByte (i + 3) 0 d else d.

(** Lines 170-184: [for (let i = 0; i < data.length; i += 4)]. *)
Definition removeColorLoop (targetColor : TargetColor.t) (tolerance : Z)
    (data0 : list Z) : list Z :=
  fold_left (removeColorStep targetColor tolerance)
    ((fun k => 4 * k) <$> seqZ 0 ((Z.of_nat (length data0) + 3) / 4))
    data0.

(** What the body of that loop makes of the pixel it visits. *)
Definition removeColorPixel (targetColor : TargetColor.t) (tolerance : Z)
    (p : Pixel) : Pixel :=
  let dist :=
    Z.sqrt ((red p - TargetColor.r targetColor) ^ 2
            + (green p - TargetColor.g targetColor) ^ 2
            + (blue p - TargetColor.b targetColor) ^ 2) in
  if dist <? tolerance then RGBA (red p) (green p) (blue p) 0 else p.

(** Lines 159-187, on a canvas that hands out its drawing context: the
    canvas afterwards and how the call ended. *)
Definition removeColorRange (canvas : Bitmap) (targetColor : TargetColor.t)
    (tolerance : Z) : Bitmap * Outcome :=
  match getImageData canvas 0 0 (width canvas) (height canvas) with
  | None => (canvas, Threw IndexSizeError)
  | Some imgData =>
      let imgData' :=
        mkBitmap (width imgData) (height imgData)
                 (removeColorLoop targetColor tolerance (data imgData)) in
      (putImageData canvas imgData', Returned)
  end.

(** The squared distance of a pixel's colour from the target colour. *)
Definition distance2 (targetColor : TargetColor.t) (p : Pixel) : Z :=
  (red p - TargetColor.r targetColor) ^ 2
  + (green p - TargetColor.g targetColor) ^ 2
  + (blue p - TargetColor.b targetColor) ^ 2.

(** *** ImageEditor.tsx: getFilterString *)

(** [`${x}`] for a property that holds an integer or is missing. *)
Definition numberToString (x : option Z) : string :=
  match x with
  | Some n => pretty.pretty n
  | None => "undefined"%string
  end.

(** Lines 193-195. *)
Definition getFilterString (currentFilters : FilterValues) : string :=
  ("brightness(" +:+ numberToString (getProp "brightness" currentFilters)
   +:+ "%) contrast(" +:+ numberToString (getProp "contrast" currentFilters)
   +:+ "%) saturate(" +:+ numberToString (getProp "saturation" currentFilters)
   +:+ "%) sepia(" +:+ numberToString (getProp "sepia" currentFilters)
   +:+ "%) grayscale(" +:+ numberToString (getProp "grayscale" currentFilters)
   +:+ "%) blur(" +:+ numberToString (getProp "blur" currentFilters)
   +:+ "px) hue-rotate("
   +:+ numberToString (getProp "hueRotate" currentFilters)
   +:+ "deg)")%string.

(** The object without its property [k]. *)
Fixpoint deleteProp (k : string) (o : Obj) : Obj :=
  match o with
  | [] => []
  | (k', v) :: o' =>
      if decide (k' = k) then deleteProp k o' else (k', v) :: deleteProp k o'
  end.

(** The properties [getFilterString] reads. *)
Definition filterKeys : list string :=
  [ "brightness"; "contrast"; "saturation"; "sepia"; "grayscale"; "blur";
    "hueRotate" ]%string.

(** Each of them is there, a number. *)
Definition complete (o : Obj) : Prop :=
  Forall (fun k => is_Some (getProp k o)) filterKeys.

(** The adjustments of the state and of every history entry are complete. *)
Definition filtersComplete (s : EditorState) : Prop :=
  complete (filters s) /\ complete (lastAppliedFilters s)
  /\ Forall (fun e => complete (HistoryState.filters e)) (history s).

(** *** ImageEditor.tsx: the canvas and the image *)

(** The canvas and the image agree: in the crop view there is no canvas,
    otherwise there is one, and unless a stroke is in progress it holds the
    pixels of the image shown. *)
Definition canvasInSync (s : EditorState) : Prop :=
  match canvasRef s with
  | None => mode s = Some Mode.crop
  | Some c =>
      mode s <> Some Mode.crop
      /\ (isDrawing s = false -> c = decode (imageSrc s))
  end.

(** The events that can add a history entry. *)
Definition commits (e : Event) : bool :=
  match e with
  | PointerUp | Apply | ApplyCrop _ _ | RemoveBackground => true
  | _ => false
  end.

(** The events that can move to another entry. *)
Definition navigates (e : Event) : bool :=
  match e with
  | Undo | Redo => true
  | _ => false
  end.

(** A session with two entries and a slider moved since the last commit,
    with the canvas as the editor shows it. *)
Definition pendingSynced : EditorState :=
  setCanvasRef (Some (decode rasterA)) pendingAfterCommit.

(** The canvas after the pen, down at [last], has gone through the
    positions [ps]: one stroked segment for each move, from where the pen
    was to where it is. *)
Fixpoint polyline (host : Host) (color : string) (size : Z) (canvas : Bitmap)
    (last : Z * Z) (ps : list (Z * Z)) : Bitmap :=
  match ps with
  | [] => canvas
  | p :: ps' =>
      polyline host color size (strokeLine host canvas last p color size) p ps'
  end.

(** What the press of the repair tool at [pos] makes of the canvas. *)
Definition repaired (host : Host) (s : EditorState) (pos : Z * Z)
    (canvas : Bitmap) : Bitmap :=
  match repairType s with
  | redeye =>
      (removeRedEye host canvas (inject_Z pos.1) (inject_Z pos.2)
         (drawSize s)).1
  | blemish =>
      (spotFix host canvas (inject_Z pos.1) (inject_Z pos.2)
         (drawSize s * 2)).1
  end.

(** A session in the crop view, the image turned by a quarter. *)
Definition cropping : EditorState :=
  setRotation 90
    (setCanvasRef None (setMode (Some Mode.crop) (initialState upload))).

(** *** utils/imageProcessing.ts: the Editor component

    The history of this component holds image sources only; the adjustments
    are one live value, and [lines] are the strokes not yet baked, of a type
    the component leaves open.  [canvasRef] is the canvas the [Canvas] child
    mounts, with what that child has drawn on it. *)

Module Editor.

Inductive EditorMode := crop | adjust | filter | markup | retouch | erase.

Record Adjustments := mkAdjustments {
  brightness : Z;
  contrast : Z;
  saturation : Z;
  exposure : Z;
  blur : Z;
  hue : Z;
  sepia : Z
}.

(** Lines 164-172. *)
Definition defaultAdjustments : Adjustments :=
  mkAdjustments 100 100 100 0 0 0 0.

Record State (Line : Type) := mkState {
  activeTab : EditorMode;
  history : list Src;
  historyIndex : Z;
  adjustments : Adjustments;
  isDrawing : bool;
  drawingColor : string;
  drawingWidth : Z;
  lines : list Line;
  canvasRef : option Bitmap
}.
Arguments mkState {Line} _ _ _ _ _ _ _ _ _.
Arguments activeTab {Line} _.
Arguments history {Line} _.
Arguments historyIndex {Line} _.
Arguments adjustments {Line} _.
Arguments isDrawing {Line} _.
Arguments drawingColor {Line} _.
Arguments drawingWidth {Line} _.
Arguments lines {Line} _.
Arguments canvasRef {Line} _.

Definition setHistory {Line} (v : list Src) (s : State Line) : State Line :=
  match s with
  | mkState a1 a2 a3 a4 a5 a6 a7 a8 a9 => mkState a1 v a3 a4 a5 a6 a7 a8 a9
  end.

Definition setHistoryIndex {Line} (v : Z) (s : State Line) : State Line :=
  match s with
  | mkState a1 a2 a3 a4 a5 a6 a7 a8 a9 => mkState a1 a2 v a4 a5 a6 a7 a8 a9
  end.

Definition setAdjustments {Line} (v : Adjustments) (s : State Line)
    : State Line :=
  match s with
  | mkState a1 a2 a3 a4 a5 a6 a7 a8 a9 => mkState a1 a2 a3 v a5 a6 a7 a8 a9
  end.

Definition setLines {Line} (v : list Line) (s : State Line) : State Line :=
  match s with
  | mkState a1 a2 a3 a4 a5 a6 a7 a8 a9 => mkState a1 a2 a3 a4 a5 a6 a7 v a9
  end.

(** Lines 175-192: the [useState] initial values. *)
Definition initialState {Line} (imageSrc : Src) (canvas : option Bitmap)
    : State Line :=
  mkState crop [imageSrc] 0 defaultAdjustments false "#ef4444"%string 5 []
          canvas.

(** Line 181: [history[historyIndex]]. *)
Definition currentImageSrc {Line} (s : State Line) : option Src :=
  at_index (history s) (historyIndex s).

(** Lines 194-199. *)
Definition addToHistory {Line} (newImageSrc : Src) (s : State Line)
    : State Line :=
  let newHistory := slice0 (historyIndex s + 1) (history s) ++ [newImageSrc] in
  setHistoryIndex (Z.of_nat (length newHistory) - 1) (setHistory newHistory s).

(** Lines 201-203. *)
Definition handleUndo {Line} (s : State Line) : State Line :=
  if historyIndex s >? 0 then setHistoryIndex (historyIndex s - 1) s else s.

(** Lines 205-207. *)
Definition handleRedo {Line} (s : State Line) : State Line :=
  if historyIndex s <? Z.of_nat (length (history s)) - 1
  then setHistoryIndex (historyIndex s + 1) s else s.

(** Lines 214-222. *)
Definition commitChanges {Line} (s : State Line) : State Line :=
  match canvasRef s with
  | None => s
  | Some canvas =>
      let dataUrl := toDataURL canvas in
      setLines [] (setAdjustments defaultAdjustments (addToHistory dataUrl s))
  end.

(** The index points into the history. *)
Definition wf {Line} (s : State Line) : Prop :=
  0 <= historyIndex s < Z.of_nat (length (history s)).

End Editor.

(** * Properties *)

(** ** Properties of the object model *)

Lemma getProp_setProp (k k' : string) (v : Z) (o : Obj) :
  getProp k (setProp k' v o) = if decide (k' = k) then Some v else getProp k o.
Proof.
  induction o as [|[k0 v0] o IH]; simpl.
  - reflexivity.
  - destruct (decide (k0 = k')) as [->|Hne]; simpl.
    + destruct (decide (k' = k)); reflexivity.
    + rewrite IH. destruct (decide (k0 = k)) as [->|]; [|reflexivity].
      destruct (decide (k' = k)); [congruence|reflexivity].
Qed.

Lemma getProp_app (k : string) (o1 o2 : Obj) :
  getProp k (o1 ++ o2)
  = match getProp k o1 with Some v => Some v | None => getProp k o2 end.
Proof.
  induction o1 as [|[k0 v0] o1 IH]; simpl; [reflexivity|].
  destruct (decide (k0 = k)); [reflexivity|apply IH].
Qed.

(** In [{ ...base, ...over }] a property comes from [over] when [over] has
    it (its last occurrence, should the list repeat a key) and from [base]
    otherwise. *)
Lemma getProp_spread (k : string) (base over : Obj) :
  getProp k (spread base over)
  = match getProp k (reverse over) with
    | Some v => Some v
    | None => getProp k base
    end.
Proof.
  unfold spread. revert base.
  induction over as [|[k0 v0] over IH]; intros base; simpl; [reflexivity|].
  rewrite IH, reverse_cons, getProp_app, getProp_setProp. simpl.
  destruct (getProp k (reverse over)); [reflexivity|].
  destruct (decide (k0 = k)); reflexivity.
Qed.

(** ** Properties of the history *)

Lemma slice0_take {A} (l : list A) (e : Z) :
  0 <= e -> slice0 e l = take (Z.to_nat e) l.
Proof.
  intros He. unfold slice0.
  destruct (e <? 0) eqn:E; [lia|].
  destruct (Z.le_gt_cases e (Z.of_nat (length l))).
  - rewrite Z.min_l by lia. reflexivity.
  - rewrite Z.min_r by lia. rewrite Nat2Z.id.
    rewrite !take_ge by lia. reflexivity.
Qed.

Lemma at_index_lookup {A} (l : list A) (i : Z) :
  0 <= i -> at_index l i = l !! Z.to_nat i.
Proof.
  intros Hi. unfold at_index. destruct (Z.ltb_spec i 0); [lia|reflexivity].
Qed.

Lemma at_index_is_Some {A} (l : list A) (i : Z) :
  0 <= i < Z.of_nat (length l) -> is_Some (at_index l i).
Proof.
  intros Hi. rewrite at_index_lookup by lia.
  apply lookup_lt_is_Some. lia.
Qed.

(** The last element of an array, at index [length - 1]. *)
Lemma at_index_last {A} (l : list A) (a : A) :
  at_index (l ++ [a]) (Z.of_nat (length (l ++ [a])) - 1) = Some a.
Proof.
  rewrite length_app. simpl.
  rewrite at_index_lookup by lia.
  replace (Z.to_nat (Z.of_nat (length l + 1) - 1)) with (length l + 0)%nat
    by lia.
  rewrite lookup_app_r by lia.
  replace (length l + 0 - length l)%nat with 0%nat by lia. reflexivity.
Qed.

Lemma addToHistory_history (newSrc : Src) (newFilters : FilterValues)
    (s : EditorState) :
  history (addToHistory newSrc newFilters s)
  = slice0 (historyIndex s + 1) (history s)
    ++ [HistoryState.mk newSrc newFilters].
Proof. destruct s; reflexivity. Qed.

Lemma addToHistory_index (newSrc : Src) (newFilters : FilterValues)
    (s : EditorState) :
  historyIndex (addToHistory newSrc newFilters s)
  = Z.of_nat (length (history (addToHistory newSrc newFilters s))) - 1.
Proof. destruct s; reflexivity. Qed.

Lemma addToHistory_current (newSrc : Src) (newFilters : FilterValues)
    (s : EditorState) :
  at_index (history (addToHistory newSrc newFilters s))
           (historyIndex (addToHistory newSrc newFilters s))
  = Some (HistoryState.mk newSrc newFilters).
Proof.
  rewrite addToHistory_index, addToHistory_history. apply at_index_last.
Qed.

Lemma filters_filterPreviewOnClick (f : Filter.t) (s : EditorState) :
  filters (filterPreviewOnClick f s)
  = spread (lastAppliedFilters s) (Filter.filter f).
Proof. destruct s; reflexivity. Qed.

(** [applyPreset], which nothing calls, would merge onto the live values. *)
Lemma filters_applyPreset (f : Filter.t) (s : EditorState) :
  filters (applyPreset f s) = spread (filters s) (Filter.filter f).
Proof. destruct s; reflexivity. Qed.

(** ** Properties of bitmaps *)

Lemma lookup_bind_chunks {A B} (g : A -> list B) (n : nat) (l : list A)
    (i j : nat) :
  (forall a, length (g a) = n) -> (j < n)%nat ->
  (l ≫= g) !! (i * n + j)%nat = l !! i ≫= fun a => g a !! j.
Proof.
  intros Hlen Hj. revert i.
  induction l as [|a l IH]; intros i; [reflexivity|].
  rewrite bind_cons. destruct i as [|i]; simpl.
  - apply lookup_app_l. rewrite Hlen. exact Hj.
  - rewrite lookup_app_r by (rewrite Hlen; lia).
    rewrite Hlen, <- IH. f_equal. lia.
Qed.

Lemma length_bind_chunks {A B} (g : A -> list B) (n : nat) (l : list A) :
  (forall a, length (g a) = n) -> length (l ≫= g) = (length l * n)%nat.
Proof.
  intros Hlen. induction l as [|a l IH]; [reflexivity|].
  rewrite bind_cons, length_app, Hlen, IH. simpl. lia.
Qed.

Lemma bind_singleton_fmap {A B} (g : A -> B) (l : list A) :
  l ≫= (fun x => [g x]) = g <$> l.
Proof.
  induction l as [|a l IH]; [reflexivity|].
  rewrite bind_cons, IH. reflexivity.
Qed.

Lemma fmap_bind_inside {A B C} (f : B -> C) (g : A -> list B) (l : list A) :
  f <$> (l ≫= g) = l ≫= fun x => f <$> g x.
Proof.
  induction l as [|a l IH]; [reflexivity|].
  rewrite !bind_cons, fmap_app, IH. reflexivity.
Qed.

Lemma pixelGrid_rows (w h : Z) (f : Z -> Z -> Pixel) :
  pixelGrid w h f = seqZ 0 h ≫= fun y => (fun x => f x y) <$> seqZ 0 w.
Proof.
  unfold pixelGrid. apply list_bind_ext; [|reflexivity].
  intros y. apply bind_singleton_fmap.
Qed.

Lemma pixelGrid_fmap (g : Pixel -> Pixel) (w h : Z) (f : Z -> Z -> Pixel) :
  g <$> pixelGrid w h f = pixelGrid w h (fun x y => g (f x y)).
Proof.
  rewrite !pixelGrid_rows, fmap_bind_inside.
  apply list_bind_ext; [|reflexivity].
  intros y. rewrite <- list_fmap_compose. reflexivity.
Qed.

Lemma lookup_pixelGrid (w h : Z) (f : Z -> Z -> Pixel) (x y : Z) :
  0 <= x < w -> 0 <= y < h ->
  pixelGrid w h f !! (Z.to_nat y * Z.to_nat w + Z.to_nat x)%nat
  = Some (f x y).
Proof.
  intros Hx Hy. rewrite pixelGrid_rows.
  rewrite (lookup_bind_chunks _ (Z.to_nat w)).
  - rewrite lookup_seqZ_lt; [|lia]. simpl.
    rewrite list_lookup_fmap, lookup_seqZ_lt; [|lia]. simpl.
    rewrite !Z2Nat.id by lia. reflexivity.
  - intros a. rewrite length_fmap, length_seqZ. reflexivity.
  - lia.
Qed.

Lemma bytes_length (p : Pixel) : length (bytes p) = 4%nat.
Proof. reflexivity. Qed.

Lemma pixelOfData_bind (ps : list Pixel) (k : nat) (p : Pixel) :
  ps !! k = Some p ->
  pixelOfData (ps ≫= bytes) (Z.of_nat k * 4) = p.
Proof.
  intros Hk.
  assert (Hb : forall c : Z, 0 <= c < 4 ->
            byteAt (ps ≫= bytes) (Z.of_nat k * 4 + c)
            = default 0 (bytes p !! Z.to_nat c)).
  { intros c Hc. unfold byteAt.
    destruct (Z.ltb_spec (Z.of_nat k * 4 + c) 0); [lia|].
    replace (Z.to_nat (Z.of_nat k * 4 + c)) with (k * 4 + Z.to_nat c)%nat
      by lia.
    rewrite (lookup_bind_chunks bytes 4) by (auto using bytes_length || lia).
    rewrite Hk. reflexivity. }
  unfold pixelOfData.
  rewrite <- (Z.add_0_r (Z.of_nat k * 4)) at 1.
  rewrite !Hb by lia. destruct p; reflexivity.
Qed.

Lemma inBounds_true (bm : Bitmap) (x y : Z) :
  inBounds bm x y = true <-> 0 <= x < width bm /\ 0 <= y < height bm.
Proof. unfold inBounds. rewrite !andb_true_iff. lia. Qed.

(** Reading back a pixel of a bitmap built from a function. *)
Lemma pixelAt_buildBitmap (w h : Z) (f : Z -> Z -> Pixel) (x y : Z) :
  0 <= x < w -> 0 <= y < h -> pixelAt (buildBitmap w h f) x y = f x y.
Proof.
  intros Hx Hy. unfold pixelAt.
  destruct (inBounds (buildBitmap w h f) x y) eqn:E.
  - simpl. unfold buildData.
    replace (y * w + x) with (Z.of_nat (Z.to_nat y * Z.to_nat w + Z.to_nat x))
      by (rewrite Nat2Z.inj_add, Nat2Z.inj_mul, !Z2Nat.id by lia; reflexivity).
    apply pixelOfData_bind, lookup_pixelGrid; assumption.
  - apply not_true_iff_false in E. exfalso. apply E.
    apply inBounds_true. simpl. lia.
Qed.

Lemma pixelAt_mapPixels (f : Z -> Z -> Pixel -> Pixel) (bm : Bitmap) (x y : Z) :
  inBounds bm x y = true ->
  pixelAt (mapPixels f bm) x y = f x y (pixelAt bm x y).
Proof.
  intros H. apply inBounds_true in H. unfold mapPixels.
  rewrite pixelAt_buildBitmap by lia. reflexivity.
Qed.

Lemma byteAt_app_r (pre l : list Z) (c : Z) :
  0 <= c -> byteAt (pre ++ l) (Z.of_nat (length pre) + c) = byteAt l c.
Proof.
  intros Hc. unfold byteAt.
  destruct (Z.ltb_spec (Z.of_nat (length pre) + c) 0); [lia|].
  destruct (Z.ltb_spec c 0); [lia|].
  rewrite lookup_app_r by lia. do 2 f_equal. lia.
Qed.

Lemma writeByte_app_r (pre l : list Z) (c v : Z) :
  0 <= c ->
  writeByte (Z.of_nat (length pre) + c) v (pre ++ l) = pre ++ writeByte c v l.
Proof.
  intros Hc. unfold writeByte.
  destruct (Z.ltb_spec (Z.of_nat (length pre) + c) 0); [lia|].
  destruct (Z.ltb_spec c 0); [lia|].
  rewrite insert_app_r_alt by lia. do 2 f_equal. lia.
Qed.

Lemma byteAt_app_r0 (pre l : list Z) :
  byteAt (pre ++ l) (Z.of_nat (length pre)) = byteAt l 0.
Proof.
  rewrite <- (Z.add_0_r (Z.of_nat (length pre))). apply byteAt_app_r. lia.
Qed.

Lemma writeByte_app_r0 (pre l : list Z) (v : Z) :
  writeByte (Z.of_nat (length pre)) v (pre ++ l) = pre ++ writeByte 0 v l.
Proof.
  rewrite <- (Z.add_0_r (Z.of_nat (length pre))). apply writeByte_app_r. lia.
Qed.

(** The body of the loop rewrites the pixel at its index and nothing else. *)
Lemma redEyeStep_pixel (pre rest : list Z) (p : Pixel) :
  redEyeStep (pre ++ bytes p ++ rest) (Z.of_nat (length pre))
  = pre ++ bytes (redEyePixel p) ++ rest.
Proof.
  unfold redEyeStep.
  rewrite byteAt_app_r0, !byteAt_app_r by lia.
  destruct p as [r g b a]. unfold redEyePixel. simpl.
  change (byteAt (r :: g :: b :: a :: rest) 0) with r.
  change (byteAt (r :: g :: b :: a :: rest) 1) with g.
  change (byteAt (r :: g :: b :: a :: rest) 2) with b.
  destruct ((r >? g + b) && (r >? 50)); [|reflexivity].
  rewrite writeByte_app_r0, !writeByte_app_r by lia. reflexivity.
Qed.

Lemma redEye_fold (ps : list Pixel) (pre : list Z) (m : Z) :
  Z.of_nat (length pre) = 4 * m ->
  fold_left redEyeStep ((fun k => 4 * k) <$> seqZ m (Z.of_nat (length ps)))
            (pre ++ (ps ≫= bytes))
  = pre ++ ((redEyePixel <$> ps) ≫= bytes).
Proof.
  revert pre m. induction ps as [|p ps IH]; intros pre m Hpre.
  - reflexivity.
  - rewrite seqZ_cons by (simpl; lia).
    rewrite fmap_cons, bind_cons.
    change (fold_left redEyeStep (?a :: ?l) ?d)
      with (fold_left redEyeStep l (redEyeStep d a)).
    rewrite <- Hpre, redEyeStep_pixel.
    replace (Z.pred (Z.of_nat (length (p :: ps)))) with (Z.of_nat (length ps))
      by (simpl; lia).
    rewrite fmap_cons, bind_cons.
    rewrite (app_assoc pre), (app_assoc pre).
    apply IH. rewrite length_app, Nat2Z.inj_add, Hpre. simpl. lia.
Qed.

(** The loop of removeRedEye maps [redEyePixel] over the pixels. *)
Lemma redEyeLoop_pixels (ps : list Pixel) :
  redEyeLoop (ps ≫= bytes) = (redEyePixel <$> ps) ≫= bytes.
Proof.
  unfold redEyeLoop.
  rewrite (length_bind_chunks bytes 4) by apply bytes_length.
  replace ((Z.of_nat (length ps * 4) + 3) / 4) with (Z.of_nat (length ps)).
  - apply (redEye_fold ps [] 0). reflexivity.
  - rewrite Nat2Z.inj_mul. symmetry.
    rewrite Z.add_comm, Z.div_add by lia. reflexivity.
Qed.

Lemma redEyeLoop_buildData (w h : Z) (f : Z -> Z -> Pixel) :
  redEyeLoop (buildData w h f)
  = buildData w h (fun x y => redEyePixel (f x y)).
Proof.
  unfold buildData. rewrite redEyeLoop_pixels, pixelGrid_fmap. reflexivity.
Qed.

(** ** Properties of the canvas operations *)

Lemma canvasDim_nonneg (dflt v : Z) : 0 <= v -> canvasDim dflt v = v.
Proof.
  intros H. unfold canvasDim. destruct (Z.leb_spec 0 v); [reflexivity|lia].
Qed.

Lemma getImageData_positive (canvas : Bitmap) (sx sy sw sh : Z) :
  0 < sw -> 0 < sh ->
  getImageData canvas sx sy sw sh
  = Some (buildBitmap sw sh
            (fun col row => pixelAt canvas (sx + col) (sy + row))).
Proof.
  intros Hw Hh. unfold getImageData.
  destruct (Z.eqb_spec sw 0); [lia|]. destruct (Z.eqb_spec sh 0); [lia|].
  simpl. rewrite !Z.min_l, !Z.abs_eq by lia. reflexivity.
Qed.

(** Pasting image data onto a fresh canvas of its size gives its pixels. *)
Lemma pixelAt_putImageData_fresh (w h : Z) (f : Z -> Z -> Pixel) (x y : Z) :
  0 <= x < w -> 0 <= y < h ->
  pixelAt (putImageData (newCanvas w h) (buildBitmap w h f)) x y = f x y.
Proof.
  intros Hx Hy. unfold putImageData, newCanvas.
  rewrite !canvasDim_nonneg by lia.
  rewrite pixelAt_mapPixels by (apply inBounds_true; simpl; lia).
  replace (inBounds (buildBitmap w h f) x y) with true
    by (symmetry; apply inBounds_true; simpl; lia).
  apply pixelAt_buildBitmap; assumption.
Qed.

Lemma inBounds_putImageData_fresh (w h : Z) (img : Bitmap) (x y : Z) :
  0 <= w -> 0 <= h ->
  inBounds (putImageData (newCanvas w h) img) x y
  = bool_decide (0 <= x < w /\ 0 <= y < h).
Proof.
  intros Hw Hh. unfold putImageData, newCanvas, mapPixels, inBounds. simpl.
  rewrite !canvasDim_nonneg by lia.
  case_bool_decide as Hd.
  - rewrite !andb_true_iff, !Z.leb_le, !Z.ltb_lt. lia.
  - apply not_true_iff_false. rewrite !andb_true_iff, !Z.leb_le, !Z.ltb_lt. lia.
Qed.

(** ** Properties of the rounding *)

Lemma nearest_le (a : Q) (N : Z) :
  (a <= inject_Z N)%Q -> Number.nearest a <= N.
Proof.
  unfold Qle, Number.nearest, roundHalfEven. simpl.
  destruct a as [n d]. simpl. intros H.
  pose proof (Z.div_mod n (Z.pos d) ltac:(lia)) as Hdm.
  pose proof (Z.mod_pos_bound n (Z.pos d) ltac:(lia)) as Hm.
  assert (Hq : n / Z.pos d <= N) by (apply Z.div_le_upper_bound; lia).
  assert (Hup : 0 < n mod Z.pos d -> n / Z.pos d + 1 <= N) by nia.
  destruct (Z.ltb_spec (2 * (n mod Z.pos d)) (Z.pos d)); [lia|].
  destruct (Z.ltb_spec (Z.pos d) (2 * (n mod Z.pos d))); [lia|].
  destruct (Z.even (n / Z.pos d)); lia.
Qed.

Lemma nearest_ge (a : Q) (N : Z) :
  (inject_Z N <= a)%Q -> N <= Number.nearest a.
Proof.
  unfold Qle, Number.nearest, roundHalfEven. simpl.
  destruct a as [n d]. simpl. intros H.
  pose proof (Z.div_mod n (Z.pos d) ltac:(lia)) as Hdm.
  pose proof (Z.mod_pos_bound n (Z.pos d) ltac:(lia)) as Hm.
  assert (Hq : N <= n / Z.pos d) by (apply Z.div_le_lower_bound; lia).
  destruct (Z.ltb_spec (2 * (n mod Z.pos d)) (Z.pos d)); [lia|].
  destruct (Z.ltb_spec (Z.pos d) (2 * (n mod Z.pos d))); [lia|].
  destruct (Z.even (n / Z.pos d)); lia.
Qed.


Lemma inject_Z_pos (z : Z) : 0 < z -> (0 < inject_Z z)%Q.
Proof. intros H. change 0%Q with (inject_Z 0). rewrite <- Zlt_Qlt. exact H. Qed.

Lemma pow2_gt0 (s : Z) : 0 <= s -> 0 < 2 ^ s.
Proof. intros H. apply Z.pow_pos_nonneg; lia. Qed.

(** What [ilog2] computes: the binade of a rational that is not 0. *)
Lemma ilog2_spec (q : Q) :
  Qnum q <> 0 ->
  let n := Z.abs (Qnum q) in
  let d := Z.pos (Qden q) in
  let e := Number.ilog2 q in
  (0 <= e -> d * 2 ^ e <= n < d * 2 ^ (e + 1))
  /\ (e < 0 -> d <= n * 2 ^ (- e) /\ n * 2 ^ (- e - 1) < d).
Proof.
  intros Hq n d e.
  assert (Hn : 0 < n) by (unfold n; lia).
  assert (Hd : 0 < d) by (unfold d; lia).
  pose proof (Z.log2_spec n Hn) as [Hn1 Hn2].
  pose proof (Z.log2_spec d Hd) as [Hd1 Hd2].
  pose proof (Z.log2_nonneg n) as Hln. pose proof (Z.log2_nonneg d) as Hld.
  set (ln := Z.log2 n) in *. set (ld := Z.log2 d) in *.
  rewrite <- Z.add_1_r in Hn2, Hd2.
  unfold e, Number.ilog2. fold n d ln ld.
  assert (Hadd : forall a b, 0 <= a -> 0 <= b -> 2 ^ (a + b) = 2 ^ a * 2 ^ b)
    by (intros; apply Z.pow_add_r; assumption).
  destruct (Z.leb_spec 0 (ln - ld)) as [HL|HL].
  - (* ld <= ln *)
    pose proof (Hadd ld (ln - ld) Hld HL) as E1.
    replace (ld + (ln - ld)) with ln in E1 by lia.
    pose proof (pow2_gt0 ld Hld). pose proof (pow2_gt0 (ln - ld) HL).
    destruct (Z.leb_spec (d * 2 ^ (ln - ld)) n) as [Ht|Ht].
    + split; [|lia]. intros _. split; [exact Ht|].
      pose proof (Hadd (ln - ld) 1 HL ltac:(lia)) as E2.
      pose proof (Hadd ln 1 Hln ltac:(lia)) as E3.
      change (2 ^ 1) with 2 in *. nia.
    + split.
      * intros He. replace (ln - ld - 1 + 1) with (ln - ld) by lia.
        split; [|exact Ht].
        pose proof (Hadd (ln - ld - 1) 1 He ltac:(lia)) as E2.
        replace (ln - ld - 1 + 1) with (ln - ld) in E2 by lia.
        pose proof (Hadd ld 1 Hld ltac:(lia)) as E3.
        change (2 ^ 1) with 2 in *.
        pose proof (pow2_gt0 (ln - ld - 1) He). nia.
      * intros He. assert (ln = ld) as El by lia.
        replace (- (ln - ld - 1) - 1) with 0 by lia.
        replace (- (ln - ld - 1)) with 1 by lia.
        replace (ln - ld) with 0 in Ht by lia.
        change (2 ^ 1) with 2. change (2 ^ 0) with 1 in *.
        pose proof (Hadd ld 1 Hld ltac:(lia)) as E3.
        change (2 ^ 1) with 2 in *. rewrite El in *. lia.
  - (* ln < ld *)
    pose proof (Hadd ln (ld - ln) Hln ltac:(lia)) as E1.
    replace (ln + (ld - ln)) with ld in E1 by lia.
    replace (- (ln - ld)) with (ld - ln) by lia.
    pose proof (pow2_gt0 ln Hln). pose proof (pow2_gt0 (ld - ln) ltac:(lia)).
    destruct (Z.leb_spec d (n * 2 ^ (ld - ln))) as [Ht|Ht].
    + split; [lia|]. intros _.
      replace (- (ln - ld) - 1) with (ld - ln - 1) by lia.
      replace (- (ln - ld)) with (ld - ln) by lia.
      split; [exact Ht|].
      pose proof (Hadd (ld - ln - 1) 1 ltac:(lia) ltac:(lia)) as E2.
      replace (ld - ln - 1 + 1) with (ld - ln) in E2 by lia.
      pose proof (Hadd ln 1 Hln ltac:(lia)) as E3.
      change (2 ^ 1) with 2 in *.
      pose proof (pow2_gt0 (ld - ln - 1) ltac:(lia)). nia.
    + split; [lia|]. intros _.
      replace (- (ln - ld - 1) - 1) with (ld - ln) by lia.
      replace (- (ln - ld - 1)) with (ld - ln + 1) by lia.
      split; [|exact Ht].
      pose proof (Hadd (ld - ln) 1 ltac:(lia) ltac:(lia)) as E2.
      pose proof (Hadd ld 1 Hld ltac:(lia)) as E3.
      change (2 ^ 1) with 2 in *. nia.
Qed.

Lemma Qnum_nonzero (q : Q) : Qeq_bool q 0 = false -> Qnum q <> 0.
Proof.
  intros E H. apply Qeq_bool_neq in E. apply E.
  unfold Qeq. simpl. rewrite H. reflexivity.
Qed.

(** A rational against a power of two, through its numerator. *)
Lemma Qle_pow_l (q : Q) (k : Z) :
  Z.pos (Qden q) * k <= Qnum q -> (inject_Z k <= q)%Q.
Proof. unfold Qle. simpl. lia. Qed.

Lemma Qle_pow_r (q : Q) (k : Z) :
  Qnum q <= Z.pos (Qden q) * k -> (q <= inject_Z k)%Q.
Proof. unfold Qle. simpl. lia. Qed.

Lemma scale_up (q : Q) (s : Z) :
  0 <= s -> (Number.scale q s == q * inject_Z (2 ^ s))%Q.
Proof. intros H. unfold Number.scale. destruct (Z.leb_spec 0 s); [reflexivity|lia]. Qed.

Lemma scale_down (q : Q) (s : Z) :
  s < 0 -> (Number.scale q s == q / inject_Z (2 ^ (- s)))%Q.
Proof. intros H. unfold Number.scale. destruct (Z.leb_spec 0 s); [lia|reflexivity]. Qed.

Lemma round_le_int (q : Q) (z : Z) :
  Z.abs z <= 2 ^ 53 -> (q <= inject_Z z)%Q -> (Number.round q <= inject_Z z)%Q.
Proof.
  intros Hz Hq. unfold Number.round.
  destruct (Qeq_bool q 0) eqn:E0.
  { apply Qeq_bool_iff in E0. rewrite E0 in Hq. exact Hq. }
  apply Qnum_nonzero in E0.
  destruct (ilog2_spec q E0) as [Hp Hn].
  set (e := Number.ilog2 q) in *. cbv zeta. rewrite Qred_correct.
  set (m := Number.nearest (Number.scale q (52 - e))).
  destruct (Z.leb_spec 0 (52 - e)) as [Hs|Hs].
  - (* the unit in the last place is at most 1 *)
    pose proof (pow2_gt0 (52 - e) Hs) as HP.
    assert (Hm : m <= z * 2 ^ (52 - e)).
    { apply nearest_le. rewrite scale_up by assumption.
      rewrite inject_Z_mult. apply Qmult_le_compat_r; [exact Hq|].
      apply Qlt_le_weak, inject_Z_pos, HP. }
    destruct (Z.eq_dec (52 - e) 0) as [E|E].
    + rewrite E in *. change (- 0) with 0. rewrite scale_up by lia.
      change (2 ^ 0) with 1 in *. rewrite Qmult_1_r. rewrite <- Zle_Qle. lia.
    + rewrite scale_down by lia. rewrite Z.opp_involutive.
      apply Qle_shift_div_r; [apply inject_Z_pos, HP|].
      rewrite <- inject_Z_mult, <- Zle_Qle. exact Hm.
  - (* |q| is at least 2^53 *)
    rewrite scale_up by lia. rewrite <- inject_Z_mult, <- Zle_Qle.
    replace (- (52 - e)) with (e - 52) by lia.
    destruct Hp as [Hlo Hhi]; [lia|].
    assert (HP : 0 < 2 ^ (e - 52)) by (apply pow2_gt0; lia).
    assert (He : 2 ^ e = 2 ^ 52 * 2 ^ (e - 52)).
    { rewrite <- Z.pow_add_r by lia. f_equal. lia. }
    assert (H53 : 2 ^ 53 <= 2 ^ e) by (apply Z.pow_le_mono_r; lia).
    assert (Hd : 0 < Z.pos (Qden q)) by lia.
    unfold Qle in Hq. simpl in Hq.
    destruct (Z.lt_total (Qnum q) 0) as [Hneg|[?|Hpos]]; [|lia|].
    + assert (Hm : m <= - 2 ^ 52).
      { apply nearest_le. rewrite scale_down by lia.
        replace (- (52 - e)) with (e - 52) by lia.
        apply Qle_shift_div_r; [apply inject_Z_pos, HP|].
        rewrite <- inject_Z_mult. apply Qle_pow_r.
        rewrite Z.abs_neq in Hlo by lia. nia. }
      nia.
    + rewrite Z.abs_eq in Hlo, Hhi by lia.
      assert (z = 2 ^ 53) by nia. subst z.
      assert (Ee : e = 53).
      { destruct (Z.eq_dec e 53) as [?|Hne]; [assumption|exfalso].
        assert (2 ^ 54 <= 2 ^ e) by (apply Z.pow_le_mono_r; lia).
        change (2 ^ 54) with (2 * 2 ^ 53) in *. nia. }
      assert (Hm : m <= 2 ^ 52).
      { apply nearest_le. rewrite scale_down by lia.
        replace (- (52 - e)) with (e - 52) by lia.
        apply Qle_shift_div_r; [apply inject_Z_pos, HP|].
        rewrite <- inject_Z_mult. apply Qle_pow_r.
        rewrite Ee. change (2 ^ (53 - 52)) with 2.
        change (2 ^ 52 * 2) with (2 ^ 53). nia. }
      rewrite Ee. change (2 ^ (53 - 52)) with 2. change (2 ^ 53) with (2 ^ 52 * 2).
      lia.
Qed.

Lemma round_ge_int (q : Q) (z : Z) :
  Z.abs z <= 2 ^ 53 -> (inject_Z z <= q)%Q -> (inject_Z z <= Number.round q)%Q.
Proof.
  intros Hz Hq. unfold Number.round.
  destruct (Qeq_bool q 0) eqn:E0.
  { apply Qeq_bool_iff in E0. rewrite E0 in Hq. exact Hq. }
  apply Qnum_nonzero in E0.
  destruct (ilog2_spec q E0) as [Hp Hn].
  set (e := Number.ilog2 q) in *. cbv zeta. rewrite Qred_correct.
  set (m := Number.nearest (Number.scale q (52 - e))).
  destruct (Z.leb_spec 0 (52 - e)) as [Hs|Hs].
  - pose proof (pow2_gt0 (52 - e) Hs) as HP.
    assert (Hm : z * 2 ^ (52 - e) <= m).
    { apply nearest_ge. rewrite scale_up by assumption.
      rewrite inject_Z_mult. apply Qmult_le_compat_r; [exact Hq|].
      apply Qlt_le_weak, inject_Z_pos, HP. }
    destruct (Z.eq_dec (52 - e) 0) as [E|E].
    + rewrite E in *. change (- 0) with 0. rewrite scale_up by lia.
      change (2 ^ 0) with 1 in *. rewrite Qmult_1_r. rewrite <- Zle_Qle. lia.
    + rewrite scale_down by lia. rewrite Z.opp_involutive.
      apply Qle_shift_div_l; [apply inject_Z_pos, HP|].
      rewrite <- inject_Z_mult, <- Zle_Qle. exact Hm.
  - rewrite scale_up by lia. rewrite <- inject_Z_mult, <- Zle_Qle.
    replace (- (52 - e)) with (e - 52) by lia.
    destruct Hp as [Hlo Hhi]; [lia|].
    assert (HP : 0 < 2 ^ (e - 52)) by (apply pow2_gt0; lia).
    assert (He : 2 ^ e = 2 ^ 52 * 2 ^ (e - 52)).
    { rewrite <- Z.pow_add_r by lia. f_equal. lia. }
    assert (H53 : 2 ^ 53 <= 2 ^ e) by (apply Z.pow_le_mono_r; lia).
    assert (Hd : 0 < Z.pos (Qden q)) by lia.
    unfold Qle in Hq. simpl in Hq.
    destruct (Z.lt_total (Qnum q) 0) as [Hneg|[?|Hpos]]; [|lia|].
    + rewrite Z.abs_neq in Hlo, Hhi by lia.
      assert (z = - 2 ^ 53) by nia. subst z.
      assert (Ee : e = 53).
      { destruct (Z.eq_dec e 53) as [?|Hne]; [assumption|exfalso].
        assert (2 ^ 54 <= 2 ^ e) by (apply Z.pow_le_mono_r; lia).
        change (2 ^ 54) with (2 * 2 ^ 53) in *. nia. }
      assert (Hm : - 2 ^ 52 <= m).
      { apply nearest_ge. rewrite scale_down by lia.
        replace (- (52 - e)) with (e - 52) by lia.
        apply Qle_shift_div_l; [apply inject_Z_pos, HP|].
        rewrite <- inject_Z_mult. apply Qle_pow_l.
        rewrite Ee. change (2 ^ (53 - 52)) with 2.
        change (2 ^ 53) with (2 ^ 52 * 2) in *. nia. }
      rewrite Ee. change (2 ^ (53 - 52)) with 2. change (2 ^ 53) with (2 ^ 52 * 2).
      lia.
    + assert (Hm : 2 ^ 52 <= m).
      { apply nearest_ge. rewrite scale_down by lia.
        replace (- (52 - e)) with (e - 52) by lia.
        apply Qle_shift_div_l; [apply inject_Z_pos, HP|].
        rewrite <- inject_Z_mult. apply Qle_pow_l.
        rewrite Z.abs_eq in Hlo by lia. nia. }
      nia.
Qed.

(** An integer of at most 53 bits is a double. *)
Lemma round_int (z : Z) :
  Z.abs z <= 2 ^ 53 -> (Number.round (inject_Z z) == inject_Z z)%Q.
Proof.
  intros Hz. apply Qle_antisym.
  - apply round_le_int; [exact Hz|apply Qle_refl].
  - apply round_ge_int; [exact Hz|apply Qle_refl].
Qed.

(** On these samples, among them a tie (6 + 2^-49 plus 10) and a halfway
    case that rounds up, [Number.add] and [Number.sub] give what the
    addition and the subtraction of the machine give. *)
Lemma round_agrees_with_binary64 :
  Forall (fun ab : PrimFloat.float * PrimFloat.float =>
            Qred (Number.ofFloat (ab.1 + ab.2))
            = Number.add (Number.ofFloat ab.1) (Number.ofFloat ab.2)
            /\ Qred (Number.ofFloat (ab.1 - ab.2))
               = Number.sub (Number.ofFloat ab.1) (Number.ofFloat ab.2))
    [(0x1.999999999999ap+2, 5); (0x1.999999999999ap-4, 0x1.999999999999ap-3);
     (0x1.8000000000001p+2, 10); (0x1.8000000000003p+2, 10);
     (0x1.6000000000001p+3, 5); (0x1.fffffffffffffp+52, 1);
     (0x1p+53, 1); (0x1p+53, 3); (0x1p-1074, 15); (-0x1.8p+1, 7);
     (0x1.4p+2, 0x1.4p+2); (0x1.0000000000001p+0, 0x1p+60)]%float.
Proof. repeat (apply Forall_cons_2; [split; reflexivity|]). apply Forall_nil_2. Qed.

(** ** Properties of binary64 arithmetic *)

Lemma Prim2SF_one :
  FloatOps.Prim2SF 1
  = SpecFloat.S754_finite false 4503599627370496 (-52).
Proof. reflexivity. Qed.

Lemma Prim2SF_zero : FloatOps.Prim2SF 0 = SpecFloat.S754_zero false.
Proof. reflexivity. Qed.

(** Shifting out 52 zero bits is exact. *)
Lemma shr_52 (m : positive) (e : Z) :
  SpecFloat.shr
    (SpecFloat.shr_record_of_loc
       (Z.pos (4503599627370496 * m)) SpecFloat.loc_Exact) e 52
  = ({| SpecFloat.shr_m := Z.pos m; SpecFloat.shr_r := false;
        SpecFloat.shr_s := false |}, e + 52).
Proof. reflexivity. Qed.

Lemma digits_shift_52 (m : positive) :
  Z.pos (SpecFloat.digits2_pos (4503599627370496 * m))
  = Z.pos (SpecFloat.digits2_pos m) + 52.
Proof.
  change (4503599627370496 * m)%positive
    with (Pos.iter xO m 52%positive).
  simpl. rewrite !Pos2Z.inj_succ. lia.
Qed.

(** Multiplying by 1 changes nothing. *)
Lemma SFmul_one_l (x : SpecFloat.spec_float) :
  SpecFloat.valid_binary FloatOps.prec FloatOps.emax x = true ->
  FloatAxioms.SF64mul (SpecFloat.S754_finite false 4503599627370496 (-52)) x
  = x.
Proof.
  destruct x as [s| s| |s m e]; try reflexivity.
  unfold SpecFloat.valid_binary, SpecFloat.bounded,
    SpecFloat.canonical_mantissa.
  intros H. apply andb_true_iff in H as [Hc Hb].
  apply Z.eqb_eq in Hc. 
  unfold FloatAxioms.SF64mul, SpecFloat.SFmul.
  unfold SpecFloat.binary_round_aux.
  unfold SpecFloat.shr_fexp at 1. unfold SpecFloat.Zdigits2.
  rewrite digits_shift_52.
  replace (Z.pos (SpecFloat.digits2_pos m) + 52 + (-52 + e))
    with (Z.pos (SpecFloat.digits2_pos m) + e) by lia.
  rewrite Hc. replace (e - (-52 + e)) with 52 by lia.
  rewrite shr_52. cbv beta iota. simpl SpecFloat.shr_m.
  simpl SpecFloat.loc_of_shr_record. simpl SpecFloat.round_nearest_even.
  replace (-52 + e + 52) with e by lia.
  unfold SpecFloat.shr_fexp. unfold SpecFloat.Zdigits2. rewrite Hc.
  rewrite Z.sub_diag. simpl. rewrite Hb. reflexivity.
Qed.

Lemma mul_one_l (w : PrimFloat.float) : (1 * w)%float = w.
Proof.
  apply FloatAxioms.Prim2SF_inj.
  rewrite FloatAxioms.mul_spec, Prim2SF_one.
  apply SFmul_one_l, FloatAxioms.Prim2SF_valid.
Qed.

(** A finite double is a zero or a finite binary number. *)
Lemma is_finite_SF (x : PrimFloat.float) :
  PrimFloat.is_finite x = true ->
  (exists s, FloatOps.Prim2SF x = SpecFloat.S754_zero s)
  \/ (exists s m e, FloatOps.Prim2SF x = SpecFloat.S754_finite s m e).
Proof.
  unfold PrimFloat.is_finite, PrimFloat.is_nan, PrimFloat.is_infinity.
  rewrite !FloatAxioms.eqb_spec, FloatAxioms.abs_spec.
  change (FloatOps.Prim2SF PrimFloat.infinity)
    with (SpecFloat.S754_infinity false).
  destruct (FloatOps.Prim2SF x) as [s| s| |s m e].
  - intros _. left. eauto.
  - destruct s; discriminate.
  - discriminate.
  - intros _. right. eauto.
Qed.

(** 0 times a finite double is a zero, whose absolute value is +0. *)
Lemma abs_mul_zero_l (h : PrimFloat.float) :
  PrimFloat.is_finite h = true -> Math.abs (0 * h)%float = 0%float.
Proof.
  intros Hf. apply FloatAxioms.Prim2SF_inj. unfold Math.abs.
  rewrite FloatAxioms.abs_spec, FloatAxioms.mul_spec, Prim2SF_zero.
  destruct (is_finite_SF h Hf) as [[s ->]|(s & m & e & ->)]; reflexivity.
Qed.

(** Adding +0 to an absolute value changes nothing. *)
Lemma abs_add_zero_r (a : PrimFloat.float) :
  (Math.abs a + 0)%float = Math.abs a.
Proof.
  apply FloatAxioms.Prim2SF_inj. unfold Math.abs.
  rewrite FloatAxioms.add_spec, FloatAxioms.abs_spec, Prim2SF_zero.
  destruct (FloatOps.Prim2SF a) as [s| s| |s m e]; reflexivity.
Qed.

Lemma abs_add_zero_l (a : PrimFloat.float) :
  (0 + Math.abs a)%float = Math.abs a.
Proof.
  apply FloatAxioms.Prim2SF_inj. unfold Math.abs.
  rewrite FloatAxioms.add_spec, FloatAxioms.abs_spec, Prim2SF_zero.
  destruct (FloatOps.Prim2SF a) as [s| s| |s m e]; reflexivity.
Qed.

Lemma getRadianAngle_zero : getRadianAngle 0 = 0%float.
Proof. reflexivity. Qed.

(** At 0 degrees rotateSize returns the absolute values of what it is
    given. *)
Lemma rotateSize_zero (engine : Math.Engine) (w h : PrimFloat.float) :
  Math.sin engine 0 = 0%float -> Math.cos engine 0 = 1%float ->
  PrimFloat.is_finite w = true -> PrimFloat.is_finite h = true ->
  rotateSize engine w h 0 = Size.mk (Math.abs w) (Math.abs h).
Proof.
  intros Hs Hc Hw Hh. unfold rotateSize. rewrite getRadianAngle_zero, Hs, Hc.
  rewrite !mul_one_l, !abs_mul_zero_l by assumption.
  rewrite abs_add_zero_r, abs_add_zero_l. reflexivity.
Qed.

(** ** The square that a retouch operator reads *)

Lemma max0_nonneg (q : Q) : (0 <= Math.max 0 q)%Q.
Proof.
  unfold Math.max. destruct (Qle_bool 0 q) eqn:E.
  - apply Qle_bool_iff. exact E.
  - apply Qle_refl.
Qed.

Lemma max0_ge (q z : Q) : (z <= q)%Q -> (z <= Math.max 0 q)%Q.
Proof.
  intros H. unfold Math.max. destruct (Qle_bool 0 q) eqn:E; [exact H|].
  apply Qle_trans with q; [exact H|].
  apply Qlt_le_weak, Qnot_le_lt. intros H0.
  apply Qle_bool_iff in H0. congruence.
Qed.

Lemma max0_le (q z : Q) : (q <= z)%Q -> (0 <= z)%Q -> (Math.max 0 q <= z)%Q.
Proof.
  intros H H0. unfold Math.max. destruct (Qle_bool 0 q); assumption.
Qed.

Lemma toLong_nonneg (q : Q) : (0 <= q)%Q -> Number.toLong q = Qfloor q.
Proof.
  destruct q as [n d]. unfold Qle, Number.toLong, Qfloor. simpl. intros H.
  apply Z.quot_div_nonneg; lia.
Qed.

Lemma isInteger_floor (q : Q) :
  Number.isInteger q = true -> (q == inject_Z (Qfloor q))%Q.
Proof.
  destruct q as [n d]. unfold Number.isInteger, Qeq, Qfloor. simpl.
  intros H. apply Z.eqb_eq in H.
  pose proof (Z.div_mod n (Z.pos d) ltac:(lia)). lia.
Qed.

Lemma isInteger_inject_Z (z : Z) : Number.isInteger (inject_Z z) = true.
Proof. unfold Number.isInteger. simpl. rewrite Z.mod_1_r. reflexivity. Qed.

Lemma Qfloor_ge (q : Q) (z : Z) : (inject_Z z <= q)%Q -> z <= Qfloor q.
Proof.
  intros H. rewrite <- (Qfloor_Z z). apply Qfloor_resp_le. exact H.
Qed.

Lemma Qfloor_le_int (q : Q) (z : Z) : (q <= inject_Z z)%Q -> Qfloor q <= z.
Proof.
  intros H. rewrite <- (Qfloor_Z z). apply Qfloor_resp_le. exact H.
Qed.

Lemma inject_Z_minus (a b : Z) :
  (inject_Z a - inject_Z b == inject_Z (a - b))%Q.
Proof. unfold Z.sub. rewrite inject_Z_plus, inject_Z_opp. reflexivity. Qed.

(** [Math.max(0, c - radius)] lies on the same side of an integer of at
    most 53 bits as the exact difference does. *)
Lemma corner_le (c : Q) (radius z : Z) :
  0 <= z <= 2 ^ 53 -> (c - inject_Z radius <= inject_Z z)%Q ->
  (Math.max 0 (Number.sub c (inject_Z radius)) <= inject_Z z)%Q.
Proof.
  intros Hz H. apply max0_le.
  - apply round_le_int; [lia|exact H].
  - change 0%Q with (inject_Z 0). rewrite <- Zle_Qle. lia.
Qed.

Lemma corner_ge (c : Q) (radius z : Z) :
  Z.abs z <= 2 ^ 53 -> (inject_Z z <= c - inject_Z radius)%Q ->
  (inject_Z z <= Math.max 0 (Number.sub c (inject_Z radius)))%Q.
Proof.
  intros Hz H. apply max0_ge. apply round_ge_int; assumption.
Qed.

(** At an integer the corner is the integer one. *)
Lemma corner_inject_Z (c radius : Z) :
  Z.abs (c - radius) <= 2 ^ 53 ->
  (Math.max 0 (Number.sub (inject_Z c) (inject_Z radius))
   == inject_Z (Z.max 0 (c - radius)))%Q.
Proof.
  intros Hb.
  assert (E : (Number.sub (inject_Z c) (inject_Z radius)
               == inject_Z (c - radius))%Q).
  { pose proof (inject_Z_minus c radius) as Ed.
    unfold Number.sub. apply Qle_antisym.
    - apply round_le_int; [exact Hb|]. rewrite Ed. apply Qle_refl.
    - apply round_ge_int; [exact Hb|]. rewrite Ed. apply Qle_refl. }
  apply Qle_antisym.
  - apply max0_le.
    + rewrite E, <- Zle_Qle. lia.
    + change 0%Q with (inject_Z 0). rewrite <- Zle_Qle. lia.
  - destruct (Z.max_spec 0 (c - radius)) as [[_ ->]|[_ ->]].
    + apply max0_ge. rewrite E. apply Qle_refl.
    + apply max0_nonneg.
Qed.

Lemma isInteger_Qeq (q : Q) (z : Z) :
  (q == inject_Z z)%Q -> Number.isInteger q = true.
Proof.
  destruct q as [n d]. unfold Qeq, Number.isInteger. simpl. intros H.
  apply Z.eqb_eq. rewrite Z.mul_1_r in H. subst n.
  apply Z.mod_mul. lia.
Qed.

(** The corner is whole at a centre on the pixel grid, *)
Lemma corner_whole_on_grid (c radius : Z) :
  Z.abs (c - radius) <= 2 ^ 53 ->
  Number.isInteger (Math.max 0 (Number.sub (inject_Z c) (inject_Z radius)))
  = true.
Proof.
  intros Hb. eapply isInteger_Qeq. apply corner_inject_Z. exact Hb.
Qed.

(** and at any centre within the radius of the left or the top edge, where
    it is 0. *)
Lemma corner_whole_near_edge (c : Q) (radius : Z) :
  (c <= inject_Z radius)%Q ->
  (Math.max 0 (Number.sub c (inject_Z radius)) == 0)%Q
  /\ Number.isInteger (Math.max 0 (Number.sub c (inject_Z radius))) = true.
Proof.
  intros H.
  assert (E : (Math.max 0 (Number.sub c (inject_Z radius)) == 0)%Q).
  { apply Qle_antisym; [|apply max0_nonneg].
    change 0%Q with (inject_Z 0). apply corner_le; [lia|].
    change (inject_Z 0) with 0%Q. lra. }
  split; [exact E|]. apply (isInteger_Qeq _ 0). exact E.
Qed.

(** ** The clip *)

Lemma wholeInArc_near (x y : Q) (radius px py : Z) :
  wholeInArc x y radius px py = true ->
  1 <= radius
  /\ Qceiling x - (radius - 1) <= px /\ px + 1 <= Qfloor x + (radius - 1)
  /\ Qceiling y - (radius - 1) <= py /\ py + 1 <= Qfloor y + (radius - 1).
Proof.
  unfold wholeInArc. cbv zeta. intros H.
  apply andb_true_iff in H as [Hr H].
  apply Z.leb_le in Hr. apply Z.leb_le in H.
  set (a := Z.max (px + 1 - Qfloor x) (Qceiling x - px)) in *.
  set (b := Z.max (py + 1 - Qfloor y) (Qceiling y - py)) in *.
  assert (Ha : a * a <= (radius - 1) * (radius - 1)) by nia.
  assert (Hb : b * b <= (radius - 1) * (radius - 1)) by nia.
  assert (a <= radius - 1) by nia.
  assert (b <= radius - 1) by nia.
  unfold a, b in *. lia.
Qed.

(** A pixel well inside the disc lies in the square that is read. *)
Lemma wholeInArc_in_square (x y : Q) (radius px py : Z) :
  wholeInArc x y radius px py = true ->
  0 <= px <= 2 ^ 53 -> 0 <= py <= 2 ^ 53 ->
  let startX := Math.max 0 (Number.sub x (inject_Z radius)) in
  let startY := Math.max 0 (Number.sub y (inject_Z radius)) in
  Qfloor startX <= px < Qfloor startX + radius * 2
  /\ Qfloor startY <= py < Qfloor startY + radius * 2.
Proof.
  intros H Hpx Hpy startX startY.
  apply wholeInArc_near in H as (Hr & Hx1 & Hx2 & Hy1 & Hy2).
  assert (side : forall (c : Q) (p : Z),
            0 <= p <= 2 ^ 53 ->
            Qceiling c - (radius - 1) <= p -> p + 1 <= Qfloor c + (radius - 1) ->
            Qfloor (Math.max 0 (Number.sub c (inject_Z radius))) <= p
            < Qfloor (Math.max 0 (Number.sub c (inject_Z radius))) + radius * 2).
  { intros c p Hp H1 H2.
    pose proof (Qle_ceiling c) as Hc. pose proof (Qfloor_le c) as Hf.
    split.
    - apply Qfloor_le_int. apply corner_le; [lia|].
      apply Qle_trans with (inject_Z (Qceiling c) - inject_Z radius)%Q.
      + lra.
      + rewrite inject_Z_minus, <- Zle_Qle. lia.
    - destruct (Z.le_gt_cases (p + 1 - radius * 2) 0) as [Hn|Hn].
      + pose proof (Qfloor_ge _ 0 (max0_nonneg (Number.sub c (inject_Z radius)))).
        lia.
      + assert (p + 1 - radius * 2
                <= Qfloor (Math.max 0 (Number.sub c (inject_Z radius)))); [|lia].
        apply Qfloor_ge. apply corner_ge; [lia|].
        apply Qle_trans with (inject_Z (Qfloor c) - inject_Z radius)%Q.
        * rewrite inject_Z_minus, <- Zle_Qle. lia.
        * lra. }
  split; apply side; assumption.
Qed.

Section Operators.
Context (host : Host).

Lemma sourceOver_opaque (s d : Pixel) :
  alpha s = 255 -> sourceOver host s d = s.
Proof. intros H. unfold sourceOver. rewrite H. reflexivity. Qed.

Lemma paintInArc_clear (x y : Q) (radius : Z) (temp : Bitmap) (dx dy : Q)
    (px py : Z) (old : Pixel) :
  clearOfArc x y radius px py = true ->
  paintInArc host x y radius temp dx dy px py old = old.
Proof. intros H. unfold paintInArc. rewrite H. reflexivity. Qed.

(** A pixel is not both well inside and well outside. *)
Lemma wholeInArc_not_clear (x y : Q) (radius px py : Z) :
  wholeInArc x y radius px py = true -> clearOfArc x y radius px py = false.
Proof.
  unfold wholeInArc, clearOfArc. cbv zeta. intros H.
  apply andb_true_iff in H as [Hr H].
  apply Z.leb_le in Hr. apply Z.leb_le in H. apply Z.leb_gt.
  assert (Qfloor x <= Qceiling x).
  { apply Qfloor_le_int. apply Qle_ceiling. }
  assert (Qfloor y <= Qceiling y).
  { apply Qfloor_le_int. apply Qle_ceiling. }
  set (fx := Z.max (px + 1 - Qfloor x) (Qceiling x - px)) in *.
  set (fy := Z.max (py + 1 - Qfloor y) (Qceiling y - py)) in *.
  set (a := Z.max 0 (Z.max (px - Qceiling x) (Qfloor x - (px + 1)))).
  set (b := Z.max 0 (Z.max (py - Qceiling y) (Qfloor y - (py + 1)))).
  assert (0 <= a <= fx) by (unfold a, fx; lia).
  assert (0 <= b <= fy) by (unfold b, fy; lia).
  assert (a * a <= fx * fx) by nia.
  assert (b * b <= fy * fy) by nia.
  nia.
Qed.

(** Well inside the disc, at a whole offset, the pixel of the image that
    lies on the canvas pixel is composited onto it. *)
Lemma paintInArc_whole (x y : Q) (radius : Z) (temp : Bitmap) (dx dy : Q)
    (px py : Z) (old : Pixel) :
  wholeInArc x y radius px py = true ->
  Number.isInteger dx = true -> Number.isInteger dy = true ->
  (0 <= dx)%Q -> (0 <= dy)%Q ->
  inBounds temp (px - Qfloor dx) (py - Qfloor dy) = true ->
  paintInArc host x y radius temp dx dy px py old
  = sourceOver host (pixelAt temp (px - Qfloor dx) (py - Qfloor dy)) old.
Proof.
  intros Hw Hdx Hdy Hx0 Hy0 Hin. unfold paintInArc.
  rewrite (wholeInArc_not_clear _ _ _ _ _ Hw), Hw, Hdx, Hdy. simpl andb.
  cbv iota zeta. rewrite !toLong_nonneg by assumption. rewrite Hin.
  reflexivity.
Qed.

(** Either operator leaves the canvas alone or repaints it through the
    clip. *)
Lemma drawImageInArc_shape (canvas : Bitmap) (x y : Q) (radius : Z)
    (temp : Bitmap) (dx dy : Q) :
  (drawImageInArc host canvas x y radius temp dx dy).1 = canvas
  \/ (drawImageInArc host canvas x y radius temp dx dy).1
     = mapPixels (paintInArc host x y radius temp dx dy) canvas.
Proof.
  unfold drawImageInArc. destruct (radius <? 0); [left|right]; reflexivity.
Qed.


Lemma removeRedEye_shape (canvas : Bitmap) (x y : Q) (radius : Z) :
  (removeRedEye host canvas x y radius).1 = canvas
  \/ exists temp dx dy,
       (removeRedEye host canvas x y radius).1
       = mapPixels (paintInArc host x y radius temp dx dy) canvas.
Proof.
  unfold removeRedEye.
  destruct (_ || _); [left; reflexivity|].
  destruct (getImageData canvas _ _ _ _) as [imageData|]; [|left; reflexivity].
  destruct (drawImageInArc_shape canvas x y radius
              (putImageData (newCanvas (radius * 2) (radius * 2))
                 (mkBitmap (width imageData) (height imageData)
                    (redEyeLoop (data imageData))))
              (Math.max 0 (Number.sub x (inject_Z radius)))
              (Math.max 0 (Number.sub y (inject_Z radius)))) as [H|H].
  - left. exact H.
  - right. eauto.
Qed.



(** The test of removeRedEye, lines 271-275, lets the operator go on when
    the square fits. *)
Lemma guard_passes (start : Q) (size extent : Z) :
  extent <= 2 ^ 53 -> 0 <= size -> (0 <= start)%Q ->
  (start + inject_Z size <= inject_Z extent)%Q ->
  Number.gt (Number.add start (inject_Z size)) (inject_Z extent) = false.
Proof.
  intros Hb Hs H0 H. unfold Number.gt, Number.add.
  apply negb_false_iff, Qle_bool_iff. apply round_le_int; [|exact H].
  assert (0 <= extent); [|lia].
  rewrite Zle_Qle. change (inject_Z 0) with 0%Q.
  assert (0 <= inject_Z size)%Q.
  { change 0%Q with (inject_Z 0). rewrite <- Zle_Qle. exact Hs. }
  lra.
Qed.

(** When its square fits, removeRedEye repaints the canvas, through the
    clip, from a copy of the square with [redEyePixel] applied. *)
Lemma removeRedEye_runs (canvas : Bitmap) (x y : Q) (radius : Z) :
  let startX := Math.max 0 (Number.sub x (inject_Z radius)) in
  let startY := Math.max 0 (Number.sub y (inject_Z radius)) in
  0 < radius ->
  width canvas <= 2 ^ 53 -> height canvas <= 2 ^ 53 ->
  (startX + inject_Z (radius * 2) <= inject_Z (width canvas))%Q ->
  (startY + inject_Z (radius * 2) <= inject_Z (height canvas))%Q ->
  removeRedEye host canvas x y radius
  = (mapPixels
       (paintInArc host x y radius
          (putImageData (newCanvas (radius * 2) (radius * 2))
             (buildBitmap (radius * 2) (radius * 2)
                (fun col row =>
                   redEyePixel
                     (pixelAt canvas (Qfloor startX + col)
                              (Qfloor startY + row)))))
          startX startY)
       canvas,
     Returned).
Proof.
  intros startX startY Hr Hw Hh Hx Hy. unfold removeRedEye.
  fold startX startY.
  pose proof (max0_nonneg (Number.sub x (inject_Z radius))) as Hx0.
  pose proof (max0_nonneg (Number.sub y (inject_Z radius))) as Hy0.
  fold startX in Hx0. fold startY in Hy0.
  rewrite !guard_passes by (assumption || lia).
  simpl orb. cbv iota.
  rewrite !toLong_nonneg by assumption.
  rewrite getImageData_positive by lia. cbv beta iota.
  unfold drawImageInArc. destruct (Z.ltb_spec radius 0); [lia|].
  simpl width. simpl height. simpl data.
  rewrite redEyeLoop_buildData. reflexivity.
Qed.

End Operators.

Lemma toUint8Clamp_average (g b : Z) :
  0 <= g <= 255 -> 0 <= b <= 255 ->
  (g + b) / 2 <= toUint8Clamp (g + b) 2 <= (g + b + 1) / 2
  /\ (Z.even (g + b) = true -> 2 * toUint8Clamp (g + b) 2 = g + b).
Proof.
  intros Hg Hb. unfold toUint8Clamp, roundHalfEven.
  pose proof (Z.div_mod (g + b) 2 ltac:(lia)) as Hdm.
  pose proof (Z.mod_pos_bound (g + b) 2 ltac:(lia)) as Hm.
  assert (Hq : 0 <= (g + b) / 2 <= 255)
    by (split; [apply Z.div_pos|apply Z.div_le_upper_bound]; lia).
  assert (He : Z.even (g + b) = true -> (g + b) mod 2 = 0).
  { intros He. rewrite Zmod_even, He. reflexivity. }
  assert (Hup : (g + b + 1) / 2 = (g + b) / 2 + (g + b) mod 2).
  { symmetry. apply Z.div_unique with (r := 1 - (g + b) mod 2); lia. }
  destruct (Z.ltb_spec (2 * ((g + b) mod 2)) 2).
  - split; [lia|]. intros H'. lia.
  - destruct (Z.ltb_spec 2 (2 * ((g + b) mod 2))); [lia|].
    assert (Hodd : (g + b) mod 2 = 1) by lia.
    split.
    + destruct (Z.even ((g + b) / 2)); lia.
    + intros H'. apply He in H'. lia.
Qed.

(** ** Bitmaps built from functions *)

Lemma bind_ext_in {A B} (f g : A -> list B) (l : list A) :
  (forall a, a ∈ l -> f a = g a) -> l ≫= f = l ≫= g.
Proof.
  induction l as [|a l IH]; intros H; [reflexivity|].
  rewrite !bind_cons, H, IH; [reflexivity| |left].
  intros b Hb. apply H. right. exact Hb.
Qed.

Lemma fmap_ext_in {A B} (f g : A -> B) (l : list A) :
  (forall a, a ∈ l -> f a = g a) -> f <$> l = g <$> l.
Proof.
  induction l as [|a l IH]; intros H; [reflexivity|].
  rewrite !fmap_cons, H, IH; [reflexivity| |left].
  intros b Hb. apply H. right. exact Hb.
Qed.

Lemma pixelGrid_ext (w h : Z) (f g : Z -> Z -> Pixel) :
  (forall x y, 0 <= x < w -> 0 <= y < h -> f x y = g x y) ->
  pixelGrid w h f = pixelGrid w h g.
Proof.
  intros H. rewrite !pixelGrid_rows. apply bind_ext_in.
  intros y Hy. apply elem_of_seqZ in Hy. apply fmap_ext_in.
  intros x Hx. apply elem_of_seqZ in Hx. apply H; lia.
Qed.

Lemma buildBitmap_ext (w h : Z) (f g : Z -> Z -> Pixel) :
  (forall x y, 0 <= x < w -> 0 <= y < h -> f x y = g x y) ->
  buildBitmap w h f = buildBitmap w h g.
Proof.
  intros H. unfold buildBitmap, buildData. rewrite (pixelGrid_ext w h f g H).
  reflexivity.
Qed.

Lemma length_pixelGrid (w h : Z) (f : Z -> Z -> Pixel) :
  length (pixelGrid w h f) = (Z.to_nat h * Z.to_nat w)%nat.
Proof.
  rewrite pixelGrid_rows.
  rewrite (length_bind_chunks _ (Z.to_nat w)).
  - rewrite length_seqZ. reflexivity.
  - intros y. rewrite length_fmap, length_seqZ. reflexivity.
Qed.

Lemma length_buildData (w h : Z) (f : Z -> Z -> Pixel) :
  length (buildData w h f) = (Z.to_nat h * Z.to_nat w * 4)%nat.
Proof.
  unfold buildData. rewrite (length_bind_chunks bytes 4) by apply bytes_length.
  rewrite length_pixelGrid. reflexivity.
Qed.

Lemma wfBitmap_buildBitmap (w h : Z) (f : Z -> Z -> Pixel) :
  0 <= w -> 0 <= h -> wfBitmap (buildBitmap w h f).
Proof.
  intros Hw Hh. unfold wfBitmap. simpl. rewrite length_buildData.
  split; [exact Hw|]. split; [exact Hh|]. nia.
Qed.

(** A byte of a bitmap built from a function. *)
Lemma lookup_buildData (w h : Z) (f : Z -> Z -> Pixel) (x y c : Z) :
  0 <= x < w -> 0 <= y < h -> 0 <= c < 4 ->
  buildData w h f !! Z.to_nat ((y * w + x) * 4 + c)
  = bytes (f x y) !! Z.to_nat c.
Proof.
  intros Hx Hy Hc. unfold buildData.
  replace (Z.to_nat ((y * w + x) * 4 + c))
    with ((Z.to_nat y * Z.to_nat w + Z.to_nat x) * 4 + Z.to_nat c)%nat by nia.
  rewrite (lookup_bind_chunks bytes 4) by (auto using bytes_length || lia).
  rewrite lookup_pixelGrid by assumption. reflexivity.
Qed.

(** Image data that holds whole pixels is the bitmap of its pixels. *)
Lemma buildBitmap_pixelAt (bm : Bitmap) :
  wfBitmap bm -> buildBitmap (width bm) (height bm) (pixelAt bm) = bm.
Proof.
  destruct bm as [w h d]. unfold wfBitmap. simpl. intros (Hw & Hh & Hlen).
  unfold buildBitmap. f_equal.
  apply (list_eq_same_length _ _ (length d)); [reflexivity| |].
  { rewrite length_buildData. nia. }
  intros i b1 b2 Hi H1 H2.
  assert (Hwpos : 0 < w) by nia.
  set (q := Z.of_nat i / 4). set (c := Z.of_nat i mod 4).
  set (y := q / w). set (x := q mod w).
  assert (Hqc : Z.of_nat i = q * 4 + c)
    by (unfold q, c; pose proof (Z.div_mod (Z.of_nat i) 4); lia).
  assert (Hc : 0 <= c < 4) by (apply Z.mod_pos_bound; lia).
  assert (Hyx : q = y * w + x)
    by (unfold y, x; pose proof (Z.div_mod q w); lia).
  assert (Hx : 0 <= x < w) by (apply Z.mod_pos_bound; lia).
  assert (Hq : 0 <= q < w * h) by lia.
  assert (Hy : 0 <= y < h).
  { split; [apply Z.div_pos; lia|]. apply Z.div_lt_upper_bound; lia. }
  replace i with (Z.to_nat ((y * w + x) * 4 + c)) in H1, H2 by lia.
  rewrite lookup_buildData in H1 by assumption.
  unfold pixelAt in H1.
  replace (inBounds (mkBitmap w h d) x y) with true in H1
    by (symmetry; apply inBounds_true; simpl; lia).
  simpl in H1. unfold pixelOfData, bytes in H1. simpl in H1.
  assert (Hb : forall k, 0 <= k < 4 ->
            byteAt d ((y * w + x) * 4 + k)
            = default 0 (d !! Z.to_nat ((y * w + x) * 4 + k))).
  { intros k Hk. unfold byteAt.
    destruct (Z.ltb_spec ((y * w + x) * 4 + k) 0); [lia|reflexivity]. }
  assert (c = 0 \/ c = 1 \/ c = 2 \/ c = 3) as [Hc0|[Hc0|[Hc0|Hc0]]] by lia;
    rewrite Hc0 in *; simpl in H1; simplify_eq.
  - rewrite <- (Z.add_0_r ((y * w + x) * 4)) at 1. rewrite Hb by lia.
    rewrite H2. reflexivity.
  - rewrite Hb by lia. rewrite H2. reflexivity.
  - rewrite Hb by lia. rewrite H2. reflexivity.
  - rewrite Hb by lia. rewrite H2. reflexivity.
Qed.

Lemma putImageData_fresh (w h : Z) (f : Z -> Z -> Pixel) :
  0 <= w -> 0 <= h ->
  putImageData (newCanvas w h) (buildBitmap w h f) = buildBitmap w h f.
Proof.
  intros Hw Hh. unfold putImageData, mapPixels, newCanvas. simpl.
  rewrite !canvasDim_nonneg by assumption.
  apply buildBitmap_ext. intros x y Hx Hy.
  replace (inBounds (buildBitmap w h f) x y) with true
    by (symmetry; apply inBounds_true; simpl; lia).
  apply pixelAt_buildBitmap; assumption.
Qed.

(** What getCroppedImg returns for a rectangle of positive size. *)
Lemma getCroppedImg_rect (host : Host) (imageSrc : Src) (pc : PixelCrop.t)
    (rotation : Z) (flip : Flip.t) :
  0 < PixelCrop.width pc -> 0 < PixelCrop.height pc ->
  getCroppedImg host true imageSrc (Some pc) rotation flip
  = Resolved
      (Some (toDataURL
               (buildBitmap (PixelCrop.width pc) (PixelCrop.height pc)
                  (fun col row =>
                     pixelAt (drawTransformed host (decode imageSrc) rotation
                                flip)
                       (PixelCrop.x pc + col) (PixelCrop.y pc + row))))).
Proof.
  intros Hw Hh. unfold getCroppedImg. simpl negb. cbv iota.
  rewrite getImageData_positive by assumption.
  rewrite putImageData_fresh by lia. reflexivity.
Qed.

(** ** The red-eye operator *)

Lemma toUint8Clamp_range (n d : Z) : 0 <= toUint8Clamp n d <= 255.
Proof. unfold toUint8Clamp. lia. Qed.

(** A corrected pixel is grey, so it does not qualify again. *)
Lemma redEyePixel_idempotent (p : Pixel) :
  redEyePixel (redEyePixel p) = redEyePixel p.
Proof.
  unfold redEyePixel at 2 3.
  destruct ((red p >? green p + blue p) && (red p >? 50)) eqn:E.
  - unfold redEyePixel. simpl.
    pose proof (toUint8Clamp_range (green p + blue p) 2) as Hr.
    destruct (Z.gtb_spec (toUint8Clamp (green p + blue p) 2)
                (toUint8Clamp (green p + blue p) 2
                 + toUint8Clamp (green p + blue p) 2)); [lia|reflexivity].
  - unfold redEyePixel. rewrite E. reflexivity.
Qed.

Lemma redEyePixel_alpha (p : Pixel) : alpha (redEyePixel p) = alpha p.
Proof. unfold redEyePixel. destruct (_ && _); reflexivity. Qed.

Section RedEye.
Context (host : Host).

Lemma removeRedEye_dims (canvas : Bitmap) (x y : Q) (radius : Z) :
  width (removeRedEye host canvas x y radius).1 = width canvas
  /\ height (removeRedEye host canvas x y radius).1 = height canvas.
Proof.
  destruct (removeRedEye_shape host canvas x y radius)
    as [-> | (t & dx & dy & ->)]; split; reflexivity.
Qed.

(** Well outside the disc removeRedEye leaves a pixel as it was. *)
Lemma removeRedEye_clear (canvas : Bitmap) (x y : Q) (radius px py : Z) :
  inBounds canvas px py = true -> clearOfArc x y radius px py = true ->
  pixelAt (removeRedEye host canvas x y radius).1 px py = pixelAt canvas px py.
Proof.
  intros Hin Hc.
  destruct (removeRedEye_shape host canvas x y radius)
    as [-> | (t & dx & dy & ->)]; [reflexivity|].
  rewrite pixelAt_mapPixels by assumption. apply paintInArc_clear. exact Hc.
Qed.

(** Well inside the disc, when the square fits and its corner is whole, the
    pixel receives its own correction. *)
Lemma removeRedEye_whole (canvas : Bitmap) (x y : Q) (radius px py : Z) :
  let startX := Math.max 0 (Number.sub x (inject_Z radius)) in
  let startY := Math.max 0 (Number.sub y (inject_Z radius)) in
  0 < radius ->
  width canvas <= 2 ^ 53 -> height canvas <= 2 ^ 53 ->
  (startX + inject_Z (radius * 2) <= inject_Z (width canvas))%Q ->
  (startY + inject_Z (radius * 2) <= inject_Z (height canvas))%Q ->
  Number.isInteger startX = true -> Number.isInteger startY = true ->
  inBounds canvas px py = true ->
  wholeInArc x y radius px py = true ->
  pixelAt (removeRedEye host canvas x y radius).1 px py
  = sourceOver host (redEyePixel (pixelAt canvas px py)) (pixelAt canvas px py).
Proof.
  intros startX startY Hr Hw Hh Hx Hy Hix Hiy Hin Hd.
  rewrite removeRedEye_runs by assumption.
  simpl fst. rewrite pixelAt_mapPixels by assumption.
  fold startX startY.
  apply inBounds_true in Hin as Hb.
  destruct (wholeInArc_in_square x y radius px py Hd) as [Hsx Hsy];
    [lia|lia|]. fold startX in Hsx. fold startY in Hsy.
  rewrite paintInArc_whole; try assumption;
    try apply max0_nonneg.
  - rewrite pixelAt_putImageData_fresh by lia.
    replace (Qfloor startX + (px - Qfloor startX)) with px by lia.
    replace (Qfloor startY + (py - Qfloor startY)) with py by lia.
    reflexivity.
  - rewrite inBounds_putImageData_fresh by lia.
    apply bool_decide_eq_true_2. lia.
Qed.

End RedEye.

(** ** The blur of spotFix *)

Lemma neighbourSum_steps (copy : list Z) (w h i j : Z) :
  neighbourSum copy w h i j
  = fold_left
      (fun acc dy => fold_left (neighbourStep copy w h i j dy) (seqZ (-2) 5) acc)
      (seqZ (-2) 5) (0, 0, 0, 0).
Proof. reflexivity. Qed.

Lemma boxBlur_steps (w h : Z) (data0 : list Z) :
  boxBlur w h data0
  = fold_left (fun d i => fold_left (blurStep data0 w h i) (seqZ 0 w) d)
      (seqZ 0 h) data0.
Proof. reflexivity. Qed.

Lemma blurStep_pixel (copy : list Z) (w h i j : Z) (pre rest : list Z)
    (p : Pixel) :
  Z.of_nat (length pre) = (i * w + j) * 4 ->
  blurStep copy w h i (pre ++ bytes p ++ rest) j
  = pre ++ bytes (blurPixel copy w h i j p) ++ rest.
Proof.
  intros Hpre. unfold blurStep, blurPixel. rewrite <- Hpre.
  destruct (neighbourSum copy w h i j) as [[[r g] b] count].
  destruct (count >? 0); [|reflexivity].
  rewrite writeByte_app_r0, !writeByte_app_r by lia.
  destruct p; reflexivity.
Qed.

Lemma blur_row (copy : list Z) (w h i : Z) (F : Z -> Pixel) (n : nat) :
  forall (m : Z) (pre rest : list Z),
    Z.of_nat (length pre) = (i * w + m) * 4 ->
    fold_left (blurStep copy w h i) (seqZ m (Z.of_nat n))
      (pre ++ ((F <$> seqZ m (Z.of_nat n)) ≫= bytes) ++ rest)
    = pre ++ (((fun x => blurPixel copy w h i x (F x))
                 <$> seqZ m (Z.of_nat n)) ≫= bytes) ++ rest.
Proof.
  induction n as [|n IH]; intros m pre rest Hpre.
  - reflexivity.
  - rewrite seqZ_cons by lia.
    replace (Z.pred (Z.of_nat (S n))) with (Z.of_nat n) by lia.
    rewrite !fmap_cons, !bind_cons.
    change (fold_left ?f (?a :: ?l) ?d) with (fold_left f l (f d a)).
    rewrite <- !app_assoc. rewrite blurStep_pixel by exact Hpre.
    rewrite !(app_assoc pre (bytes (blurPixel copy w h i m (F m)))).
    apply IH. rewrite length_app, Nat2Z.inj_add, Hpre. simpl. lia.
Qed.

Lemma blur_row_Z (copy : list Z) (w h i : Z) (F : Z -> Pixel) (n m : Z)
    (pre rest : list Z) :
  0 <= n -> Z.of_nat (length pre) = (i * w + m) * 4 ->
  fold_left (blurStep copy w h i) (seqZ m n)
    (pre ++ ((F <$> seqZ m n) ≫= bytes) ++ rest)
  = pre ++ (((fun x => blurPixel copy w h i x (F x)) <$> seqZ m n) ≫= bytes)
        ++ rest.
Proof.
  intros Hn Hpre. rewrite <- (Z2Nat.id n Hn). apply blur_row. exact Hpre.
Qed.

Lemma blur_rows (copy : list Z) (w h : Z) (F : Z -> Z -> Pixel) (k : nat) :
  0 <= w ->
  forall (i0 : Z) (pre : list Z),
    Z.of_nat (length pre) = i0 * w * 4 ->
    fold_left (fun d i => fold_left (blurStep copy w h i) (seqZ 0 w) d)
      (seqZ i0 (Z.of_nat k))
      (pre ++ ((seqZ i0 (Z.of_nat k)
                  ≫= fun y => (fun x => F x y) <$> seqZ 0 w) ≫= bytes))
    = pre ++ ((seqZ i0 (Z.of_nat k)
                 ≫= fun y => (fun x => blurPixel copy w h y x (F x y))
                               <$> seqZ 0 w) ≫= bytes).
Proof.
  intros Hw. induction k as [|k IH]; intros i0 pre Hpre.
  - reflexivity.
  - rewrite (seqZ_cons i0) by lia.
    replace (Z.pred (Z.of_nat (S k))) with (Z.of_nat k) by lia.
    rewrite !bind_cons, !bind_app.
    change (fold_left ?f (?a :: ?l) ?d) with (fold_left f l (f d a)).
    cbv beta.
    rewrite (blur_row_Z copy w h i0 (fun x => F x i0) w 0 pre) by lia.
    rewrite !(app_assoc pre). apply IH.
    rewrite length_app, Nat2Z.inj_add, Hpre.
    rewrite (length_bind_chunks bytes 4) by apply bytes_length.
    rewrite length_fmap, length_seqZ. lia.
Qed.

(** The blur maps [blurPixel] over the pixels of the region, each computed
    from the region as it was. *)
Lemma boxBlur_buildData (w h : Z) (F : Z -> Z -> Pixel) :
  0 <= w -> 0 <= h ->
  boxBlur w h (buildData w h F)
  = buildData w h
      (fun x y => blurPixel (buildData w h F) w h y x (F x y)).
Proof.
  intros Hw Hh. rewrite boxBlur_steps.
  unfold buildData at 2 3. rewrite !pixelGrid_rows.
  pose proof (blur_rows (buildData w h F) w h F (Z.to_nat h) Hw 0 []
                ltac:(reflexivity)) as H.
  rewrite (Z2Nat.id h Hh) in H. exact H.
Qed.

Lemma pixelOfData_buildData (w h : Z) (F : Z -> Z -> Pixel) (x y : Z) :
  0 <= x < w -> 0 <= y < h ->
  pixelOfData (buildData w h F) ((y * w + x) * 4) = F x y.
Proof.
  intros Hx Hy. pose proof (pixelAt_buildBitmap w h F x y Hx Hy) as H.
  unfold pixelAt in H.
  replace (inBounds (buildBitmap w h F) x y) with true in H
    by (symmetry; apply inBounds_true; simpl; lia).
  exact H.
Qed.

Section Neighbours.
Context (w h : Z) (F : Z -> Z -> Pixel) (i j : Z) (lo hi : Pixel).
Context (HF : forall x y, 0 <= x < w -> 0 <= y < h -> within lo hi (F x y)).

Lemma neighbourStep_within (dy dx : Z) (acc : Z * Z * Z * Z) :
  sumsWithin lo hi acc ->
  sumsWithin lo hi (neighbourStep (buildData w h F) w h i j dy acc dx).
Proof.
  destruct acc as [[[r g] b] count]. unfold sumsWithin, neighbourStep.
  intros (Hc & Hr & Hg & Hb).
  destruct ((0 <=? i + dy) && (i + dy <? h) && (0 <=? j + dx)
            && (j + dx <? w)) eqn:E; [|auto].
  rewrite !andb_true_iff, !Z.leb_le, !Z.ltb_lt in E.
  pose proof (pixelOfData_buildData w h F (j + dx) (i + dy)
                ltac:(lia) ltac:(lia)) as Hp.
  destruct (HF (j + dx) (i + dy) ltac:(lia) ltac:(lia)) as (Wr & Wg & Wb).
  rewrite <- Hp in Wr, Wg, Wb. unfold pixelOfData in Wr, Wg, Wb.
  simpl in Wr, Wg, Wb. lia.
Qed.

Lemma neighbourStep_count (dy dx : Z) (acc : Z * Z * Z * Z) :
  acc.2 <= (neighbourStep (buildData w h F) w h i j dy acc dx).2.
Proof.
  destruct acc as [[[r g] b] count]. unfold neighbourStep.
  destruct (_ && _); simpl; lia.
Qed.

Lemma neighbourStep_centre (acc : Z * Z * Z * Z) :
  0 <= i < h -> 0 <= j < w ->
  (neighbourStep (buildData w h F) w h i j 0 acc 0).2 = acc.2 + 1.
Proof.
  intros Hi Hj. destruct acc as [[[r g] b] count]. unfold neighbourStep.
  rewrite !Z.add_0_r.
  destruct (Z.leb_spec 0 i); [|lia]. destruct (Z.ltb_spec i h); [|lia].
  destruct (Z.leb_spec 0 j); [|lia]. destruct (Z.ltb_spec j w); [|lia].
  reflexivity.
Qed.

Lemma neighbourRow_within (dy : Z) (dxs : list Z) (acc : Z * Z * Z * Z) :
  sumsWithin lo hi acc ->
  sumsWithin lo hi
    (fold_left (neighbourStep (buildData w h F) w h i j dy) dxs acc).
Proof.
  revert acc. induction dxs as [|dx dxs IH]; intros acc H; [exact H|].
  simpl. apply IH, neighbourStep_within, H.
Qed.

Lemma neighbourRow_count (dy : Z) (dxs : list Z) (acc : Z * Z * Z * Z) :
  acc.2 <= (fold_left (neighbourStep (buildData w h F) w h i j dy) dxs acc).2.
Proof.
  revert acc. induction dxs as [|dx dxs IH]; intros acc; [reflexivity|].
  simpl. etrans; [apply (neighbourStep_count dy dx)|apply IH].
Qed.

Lemma neighbourRow_centre (dxs : list Z) (acc : Z * Z * Z * Z) :
  0 <= i < h -> 0 <= j < w -> 0 ∈ dxs ->
  acc.2 + 1
  <= (fold_left (neighbourStep (buildData w h F) w h i j 0) dxs acc).2.
Proof.
  intros Hi Hj. revert acc. induction dxs as [|dx dxs IH]; intros acc Hin.
  - inversion Hin.
  - simpl. apply elem_of_cons in Hin as [<-|Hin].
    + etrans; [|apply neighbourRow_count].
      rewrite neighbourStep_centre by assumption. reflexivity.
    + etrans; [|apply IH; exact Hin].
      pose proof (neighbourStep_count 0 dx acc). lia.
Qed.

Lemma neighbourRows_within (dys dxs : list Z) (acc : Z * Z * Z * Z) :
  sumsWithin lo hi acc ->
  sumsWithin lo hi
    (fold_left
       (fun acc dy =>
          fold_left (neighbourStep (buildData w h F) w h i j dy) dxs acc)
       dys acc).
Proof.
  revert acc. induction dys as [|dy dys IH]; intros acc H; [exact H|].
  simpl. apply IH, neighbourRow_within, H.
Qed.

Lemma neighbourRows_count (dys dxs : list Z) (acc : Z * Z * Z * Z) :
  acc.2
  <= (fold_left
        (fun acc dy =>
           fold_left (neighbourStep (buildData w h F) w h i j dy) dxs acc)
        dys acc).2.
Proof.
  revert acc. induction dys as [|dy dys IH]; intros acc; [reflexivity|].
  simpl. etrans; [apply (neighbourRow_count dy dxs)|apply IH].
Qed.

Lemma neighbourRows_centre (dys dxs : list Z) (acc : Z * Z * Z * Z) :
  0 <= i < h -> 0 <= j < w -> 0 ∈ dys -> 0 ∈ dxs ->
  acc.2 + 1
  <= (fold_left
        (fun acc dy =>
           fold_left (neighbourStep (buildData w h F) w h i j dy) dxs acc)
        dys acc).2.
Proof.
  intros Hi Hj Hys Hxs. revert acc Hys.
  induction dys as [|dy dys IH]; intros acc Hys.
  - inversion Hys.
  - simpl. apply elem_of_cons in Hys as [<-|Hys].
    + etrans; [|apply neighbourRows_count].
      apply neighbourRow_centre; assumption.
    + etrans; [|apply IH; exact Hys].
      pose proof (neighbourRow_count dy dxs acc). lia.
Qed.

(** The sums of a pixel of the region: at least the pixel itself is
    counted, and each sum lies between count times the bounds. *)
Lemma neighbourSum_within :
  0 <= i < h -> 0 <= j < w ->
  sumsWithin lo hi (neighbourSum (buildData w h F) w h i j)
  /\ 1 <= (neighbourSum (buildData w h F) w h i j).2.
Proof.
  intros Hi Hj. rewrite neighbourSum_steps. split.
  - apply neighbourRows_within. unfold sumsWithin. lia.
  - assert (H0 : 0 ∈ seqZ (-2) 5) by (apply elem_of_seqZ; lia).
    apply (neighbourRows_centre (seqZ (-2) 5) (seqZ (-2) 5) (0, 0, 0, 0));
      assumption.
Qed.

End Neighbours.

Lemma toUint8Clamp_between (n d lo hi : Z) :
  0 < d -> d * lo <= n <= d * hi -> 0 <= lo -> hi <= 255 ->
  lo <= toUint8Clamp n d <= hi.
Proof.
  intros Hd Hn Hlo Hhi. unfold toUint8Clamp, roundHalfEven.
  pose proof (Z.div_mod n d ltac:(lia)) as Hdm.
  pose proof (Z.mod_pos_bound n d Hd) as Hm.
  assert (Hq : lo <= n / d) by (apply Z.div_le_lower_bound; lia).
  assert (Hq' : n / d <= hi) by (apply Z.div_le_upper_bound; lia).
  assert (Hup : 0 < n mod d -> n / d + 1 <= hi) by nia.
  destruct (Z.ltb_spec (2 * (n mod d)) d); [lia|].
  destruct (Z.ltb_spec d (2 * (n mod d))); [lia|].
  destruct (Z.even (n / d)); lia.
Qed.

(** A blurred pixel keeps its alpha, and each of its colour bytes lies
    between the bounds of the region's bytes. *)
Lemma blurPixel_within (w h : Z) (F : Z -> Z -> Pixel) (i j : Z)
    (lo hi p : Pixel) :
  (forall x y, 0 <= x < w -> 0 <= y < h -> within lo hi (F x y)) ->
  0 <= i < h -> 0 <= j < w ->
  0 <= red lo -> 0 <= green lo -> 0 <= blue lo ->
  red hi <= 255 -> green hi <= 255 -> blue hi <= 255 ->
  within lo hi (blurPixel (buildData w h F) w h i j p)
  /\ alpha (blurPixel (buildData w h F) w h i j p) = alpha p.
Proof.
  intros HF Hi Hj Hr0 Hg0 Hb0 Hr1 Hg1 Hb1.
  destruct (neighbourSum_within w h F i j lo hi HF Hi Hj) as [Hs Hc].
  unfold blurPixel.
  destruct (neighbourSum (buildData w h F) w h i j) as [[[r g] b] count].
  simpl in Hc. destruct Hs as (_ & Hr & Hg & Hb).
  destruct (Z.gtb_spec count 0); [|lia].
  unfold within. simpl.
  split; [|reflexivity].
  split; [apply toUint8Clamp_between; lia|].
  split; apply toUint8Clamp_between; lia.
Qed.

(** ** The blur as a mean *)

Section Means.
Context (w h : Z) (F : Z -> Z -> Pixel) (i j : Z).

Lemma channelSum_app (c : Pixel -> Z) (l1 l2 : list (Z * Z)) :
  channelSum c F (l1 ++ l2) = channelSum c F l1 + channelSum c F l2.
Proof.
  unfold channelSum. induction l1 as [|n l1 IH]; simpl; [reflexivity|].
  rewrite IH. lia.
Qed.

Lemma plusSums_app (acc : Z * Z * Z * Z) (l1 l2 : list (Z * Z)) :
  plusSums F (plusSums F acc l1) l2 = plusSums F acc (l1 ++ l2).
Proof.
  destruct acc as [[[r g] b] count]. unfold plusSums.
  rewrite !channelSum_app, length_app, Nat2Z.inj_add.
  pair_eq.
Qed.

Lemma neighbourRow_sums (dy : Z) (dxs : list Z) (acc : Z * Z * Z * Z) :
  fold_left (neighbourStep (buildData w h F) w h i j dy) dxs acc
  = plusSums F acc (rowNeighbours w h i j dy dxs).
Proof.
  revert acc. induction dxs as [|dx dxs IH]; intros acc.
  - destruct acc as [[[r g] b] count]. unfold plusSums, channelSum. simpl.
    pair_eq.
  - simpl fold_left. rewrite IH.
    change (rowNeighbours w h i j dy (dx :: dxs))
      with ((if (0 <=? i + dy) && (i + dy <? h) && (0 <=? j + dx)
                && (j + dx <? w)
             then [(j + dx, i + dy)] else [])
            ++ rowNeighbours w h i j dy dxs).
    rewrite <- plusSums_app. f_equal.
    destruct acc as [[[r g] b] count]. unfold neighbourStep.
    destruct ((0 <=? i + dy) && (i + dy <? h) && (0 <=? j + dx)
              && (j + dx <? w)) eqn:E.
    + rewrite !andb_true_iff, !Z.leb_le, !Z.ltb_lt in E.
      pose proof (pixelOfData_buildData w h F (j + dx) (i + dy)
                    ltac:(lia) ltac:(lia)) as Hp.
      unfold plusSums, channelSum. simpl. rewrite <- Hp.
      unfold pixelOfData. simpl. pair_eq.
    + unfold plusSums, channelSum. simpl. pair_eq.
Qed.

Lemma neighbourRows_sums (dys dxs : list Z) (acc : Z * Z * Z * Z) :
  fold_left
    (fun acc dy =>
       fold_left (neighbourStep (buildData w h F) w h i j dy) dxs acc)
    dys acc
  = plusSums F acc (dy ← dys; rowNeighbours w h i j dy dxs).
Proof.
  revert acc. induction dys as [|dy dys IH]; intros acc.
  - destruct acc as [[[r g] b] count]. unfold plusSums, channelSum. simpl.
    pair_eq.
  - simpl fold_left. rewrite IH, neighbourRow_sums, plusSums_app.
    reflexivity.
Qed.

(** The sums that the loops of spotFix accumulate are the sums over the
    neighbours. *)
Lemma neighbourSum_sums :
  neighbourSum (buildData w h F) w h i j
  = (channelSum red F (neighbours w h i j),
     channelSum green F (neighbours w h i j),
     channelSum blue F (neighbours w h i j),
     Z.of_nat (length (neighbours w h i j))).
Proof.
  rewrite neighbourSum_steps, neighbourRows_sums. reflexivity.
Qed.

Lemma rowNeighbours_length (dy : Z) (dxs : list Z) :
  (length (rowNeighbours w h i j dy dxs) <= length dxs)%nat.
Proof.
  induction dxs as [|dx dxs IH]; [reflexivity|].
  change (rowNeighbours w h i j dy (dx :: dxs))
    with ((if (0 <=? i + dy) && (i + dy <? h) && (0 <=? j + dx)
              && (j + dx <? w)
           then [(j + dx, i + dy)] else [])
          ++ rowNeighbours w h i j dy dxs).
  rewrite length_app. destruct (_ && _); simpl; lia.
Qed.

Lemma rowsNeighbours_length (dys dxs : list Z) :
  (length (dy ← dys; rowNeighbours w h i j dy dxs) <= length dys * length dxs)%nat.
Proof.
  induction dys as [|dy dys IH]; [reflexivity|].
  change (dy0 ← dy :: dys; rowNeighbours w h i j dy0 dxs)
    with (rowNeighbours w h i j dy dxs ++ (dy0 ← dys; rowNeighbours w h i j dy0 dxs)).
  rewrite length_app. pose proof (rowNeighbours_length dy dxs). simpl. lia.
Qed.

(** A pixel of the square is among its own neighbours, and there are at
    most 25 of them. *)
Lemma neighbours_count :
  0 <= i < h -> 0 <= j < w ->
  1 <= Z.of_nat (length (neighbours w h i j)) <= 25.
Proof.
  intros Hi Hj. split.
  - assert (H0 : 0 ∈ seqZ (-2) 5) by (apply elem_of_seqZ; lia).
    pose proof (neighbourRows_centre w h F i j (seqZ (-2) 5) (seqZ (-2) 5)
                  (0, 0, 0, 0) Hi Hj H0 H0) as Hc.
    rewrite neighbourRows_sums in Hc. simpl in Hc. exact Hc.
  - pose proof (rowsNeighbours_length (seqZ (-2) 5) (seqZ (-2) 5)) as Hl.
    change (length (seqZ (-2) 5)) with 5%nat in Hl.
    change (dy ← seqZ (-2) 5; rowNeighbours w h i j dy (seqZ (-2) 5))
      with (neighbours w h i j) in Hl.
    lia.
Qed.

(** What the loop body makes of a pixel of the square: each colour byte is
    the mean of that byte over the neighbours, rounded half to even. *)
Lemma blurPixel_mean (p : Pixel) :
  0 <= i < h -> 0 <= j < w ->
  let nb := neighbours w h i j in
  let n := Z.of_nat (length nb) in
  blurPixel (buildData w h F) w h i j p
  = RGBA (toUint8Clamp (channelSum red F nb) n)
         (toUint8Clamp (channelSum green F nb) n)
         (toUint8Clamp (channelSum blue F nb) n) (alpha p).
Proof.
  intros Hi Hj nb n. unfold blurPixel. rewrite neighbourSum_sums.
  fold nb n. pose proof (neighbours_count Hi Hj) as Hn. fold nb n in Hn.
  destruct (Z.gtb_spec n 0); [reflexivity|lia].
Qed.

End Means.

Section SpotFix.
Context (host : Host).

(** With a positive radius spotFix repaints the canvas, through the clip,
    from a copy of its square with every pixel blurred.  The square is not
    clipped to the canvas: what it takes from outside reads as transparent
    black. *)
Lemma spotFix_runs (canvas : Bitmap) (x y : Q) (radius : Z) :
  0 < radius ->
  let startX := Math.max 0 (Number.sub x (inject_Z radius)) in
  let startY := Math.max 0 (Number.sub y (inject_Z radius)) in
  let region := fun col row =>
    pixelAt canvas (Qfloor startX + col) (Qfloor startY + row) in
  spotFix host canvas x y radius
  = (mapPixels
       (paintInArc host x y radius
          (buildBitmap (radius * 2) (radius * 2)
             (fun col row =>
                blurPixel (buildData (radius * 2) (radius * 2) region)
                  (radius * 2) (radius * 2) row col (region col row)))
          startX startY)
       canvas,
     Returned).
Proof.
  intros Hr startX startY region. unfold spotFix. fold startX startY.
  rewrite !toLong_nonneg by apply max0_nonneg.
  rewrite getImageData_positive by lia. cbv beta iota zeta.
  simpl width. simpl height. simpl data.
  unfold drawImageInArc. destruct (Z.ltb_spec radius 0); [lia|].
  fold region. rewrite boxBlur_buildData by lia.
  change (mkBitmap (radius * 2) (radius * 2) (buildData ?a ?b ?f))
    with (buildBitmap a b f).
  rewrite putImageData_fresh by lia. reflexivity.
Qed.



(** Well inside the disc, when the corner of the square is whole, the pixel
    receives the blur of its neighbourhood in the square. *)
Lemma spotFix_whole (canvas : Bitmap) (x y : Q) (radius px py : Z) :
  let startX := Math.max 0 (Number.sub x (inject_Z radius)) in
  let startY := Math.max 0 (Number.sub y (inject_Z radius)) in
  let region := fun col row =>
    pixelAt canvas (Qfloor startX + col) (Qfloor startY + row) in
  0 < radius ->
  width canvas <= 2 ^ 53 -> height canvas <= 2 ^ 53 ->
  Number.isInteger startX = true -> Number.isInteger startY = true ->
  inBounds canvas px py = true ->
  wholeInArc x y radius px py = true ->
  pixelAt (spotFix host canvas x y radius).1 px py
  = sourceOver host
      (blurPixel (buildData (radius * 2) (radius * 2) region)
         (radius * 2) (radius * 2) (py - Qfloor startY) (px - Qfloor startX)
         (pixelAt canvas px py))
      (pixelAt canvas px py).
Proof.
  intros startX startY region Hr Hw Hh Hix Hiy Hin Hd.
  rewrite spotFix_runs by assumption.
  simpl fst. rewrite pixelAt_mapPixels by assumption.
  fold startX startY region.
  apply inBounds_true in Hin as Hb.
  destruct (wholeInArc_in_square x y radius px py Hd) as [Hsx Hsy];
    [lia|lia|]. fold startX in Hsx. fold startY in Hsy.
  rewrite paintInArc_whole; try assumption;
    try apply max0_nonneg.
  - rewrite pixelAt_buildBitmap by lia. unfold region at 2.
    replace (Qfloor startX + (px - Qfloor startX)) with px by lia.
    replace (Qfloor startY + (py - Qfloor startY)) with py by lia.
    reflexivity.
  - apply inBounds_true. simpl. lia.
Qed.

End SpotFix.

(** ** History entries and the canvas *)

Lemma at_index_Some_lt {A} (l : list A) (i : Z) (a : A) :
  at_index l i = Some a -> 0 <= i < Z.of_nat (length l).
Proof.
  unfold at_index. destruct (Z.ltb_spec i 0); [discriminate|].
  intros Hl. apply lookup_lt_Some in Hl. lia.
Qed.

Lemma handleUndo_effect (s s' : EditorState) :
  handleUndo s = Some s' -> HistoryEffect s s'.
Proof.
  unfold handleUndo. intros H.
  destruct (Z.gtb_spec (historyIndex s) 0).
  - destruct (at_index (history s) (historyIndex s - 1)) as [st|] eqn:E;
      [|discriminate].
    simplify_eq. apply (Moved _ _ st); destruct s; simpl in *; auto; lia.
  - simplify_eq. apply Kept; reflexivity.
Qed.

Lemma handleRedo_effect (s s' : EditorState) :
  handleRedo s = Some s' -> HistoryEffect s s'.
Proof.
  unfold handleRedo. intros H.
  destruct (Z.ltb_spec (historyIndex s) (Z.of_nat (length (history s)) - 1)).
  - destruct (at_index (history s) (historyIndex s + 1)) as [st|] eqn:E;
      [|discriminate].
    apply at_index_Some_lt in E as Hlt.
    simplify_eq. apply (Moved _ _ st); destruct s; simpl in *; auto; lia.
  - simplify_eq. apply Kept; reflexivity.
Qed.

(** Setters that touch neither the history nor the image keep an effect. *)
Lemma HistoryEffect_ext (s s1 s2 : EditorState) :
  history s2 = history s1 -> historyIndex s2 = historyIndex s1 ->
  imageSrc s2 = imageSrc s1 ->
  HistoryEffect s s1 -> HistoryEffect s s2.
Proof.
  intros Hh Hi Hs [Ha Hb Hc | st Ha Hb Hc Hd He | src Ha Hb Hc].
  - apply Kept; congruence.
  - apply (Moved _ _ st); congruence.
  - apply (Committed _ _ src); congruence.
Qed.

(** The index keeps pointing into the history, at the image shown. *)
Lemma HistoryEffect_sync (s s' : EditorState) :
  wfHistory s ->
  HistoryState.src <$> at_index (history s) (historyIndex s)
  = Some (imageSrc s) ->
  HistoryEffect s s' ->
  wfHistory s'
  /\ HistoryState.src <$> at_index (history s') (historyIndex s')
     = Some (imageSrc s').
Proof.
  intros [Hlo Hhi] Hsrc [Ha Hb Hc | st Ha Hb Hc Hd He | src Ha Hb Hc];
    unfold wfHistory.
  - rewrite Ha, Hb, Hc. auto.
  - rewrite Ha, Hd, He. apply at_index_Some_lt in Hd. auto.
  - rewrite Hb, Ha. split; [rewrite length_app; simpl; lia|].
    rewrite at_index_last. simpl. congruence.
Qed.

(** No handler alters an entry at or below the current index. *)
Lemma HistoryEffect_keeps_entries (s s' : EditorState) (k : Z) :
  wfHistory s -> HistoryEffect s s' -> 0 <= k <= historyIndex s ->
  at_index (history s') k = at_index (history s) k.
Proof.
  intros [Hlo Hhi] [Ha Hb Hc | st Ha Hb Hc Hd He | src Ha Hb Hc] Hk.
  - rewrite Ha. reflexivity.
  - rewrite Ha. reflexivity.
  - rewrite Ha, slice0_take by lia.
    rewrite !at_index_lookup by lia.
    rewrite lookup_app_l by (rewrite length_take; lia).
    apply lookup_take_lt. lia.
Qed.

Section Traces.
Context (host : Host).

Lemma render_fields (prev next : EditorState) :
  history (render prev next) = history next
  /\ historyIndex (render prev next) = historyIndex next
  /\ imageSrc (render prev next) = imageSrc next
  /\ filters (render prev next) = filters next
  /\ lastAppliedFilters (render prev next) = lastAppliedFilters next
  /\ mode (render prev next) = mode next
  /\ isDrawing (render prev next) = isDrawing next.
Proof.
  unfold render. repeat case_decide; destruct next; simpl; repeat split.
Qed.

Lemma render_drawSize (prev next : EditorState) :
  drawSize (render prev next) = drawSize next.
Proof. unfold render. repeat case_decide; destruct next; reflexivity. Qed.

Lemma startInteraction_fields (pos : Z * Z) (s s' : EditorState) :
  startInteraction host pos s = Some s' ->
  history s' = history s /\ historyIndex s' = historyIndex s
  /\ imageSrc s' = imageSrc s /\ filters s' = filters s
  /\ mode s' = mode s.
Proof.
  unfold startInteraction. intros H.
  repeat case_match; simplify_eq; crush_state; repeat split; congruence.
Qed.

Lemma moveInteraction_fields (pos : Z * Z) (s : EditorState) :
  history (moveInteraction host pos s) = history s
  /\ historyIndex (moveInteraction host pos s) = historyIndex s
  /\ imageSrc (moveInteraction host pos s) = imageSrc s
  /\ filters (moveInteraction host pos s) = filters s
  /\ mode (moveInteraction host pos s) = mode s
  /\ isDrawing (moveInteraction host pos s) = isDrawing s.
Proof.
  unfold moveInteraction.
  repeat case_match; crush_state; repeat split; congruence.
Qed.

Lemma handle_effect (e : Event) (s s' : EditorState) :
  handle host e s = Some s' -> HistoryEffect s s'.
Proof.
  intros H. destruct e; unfold handle in H;
    repeat case_match; simplify_eq;
    try (apply Kept; reflexivity);
    try (apply Kept; crush_state; reflexivity);
    try (apply handleUndo_effect; assumption);
    try (apply handleRedo_effect; assumption).
  - apply startInteraction_fields in H. apply Kept; apply H.
  - apply Kept; apply moveInteraction_fields.
  - unfold endInteraction. repeat case_match;
      try (apply Kept; crush_state; reflexivity).
    crush_state. eapply Committed; reflexivity.
  - unfold applyFilters. crush_state. eapply Committed; reflexivity.
  - unfold performCrop. repeat case_match;
      try (apply Kept; reflexivity).
    crush_state. eapply Committed; reflexivity.
  - unfold handleRemoveBg. repeat case_match;
      try (apply Kept; reflexivity).
    crush_state. eapply Committed; reflexivity.
Qed.

Lemma step_effect (e : Event) (s s' : EditorState) :
  step host s e = Some s' -> HistoryEffect s s'.
Proof.
  unfold step. intros H.
  destruct (handle host e s) as [s1|] eqn:E; [|discriminate].
  simpl in H. simplify_eq.
  eapply HistoryEffect_ext; [..|eapply handle_effect; exact E];
    apply render_fields.
Qed.

(** Only the brush slider changes the brush size, within its range. *)
Lemma handle_drawSize (e : Event) (s s' : EditorState) :
  handle host e s = Some s' -> 0 < drawSize s -> 0 < drawSize s'.
Proof.
  intros H Hpos.
  destruct e; unfold handle in H;
    try (unfold handleUndo, handleRedo in H);
    try (unfold startInteraction in H);
    try (unfold moveInteraction, endInteraction, applyFilters, performCrop,
           handleRemoveBg, filterPreviewOnClick, filterSliderOnChange in H);
    repeat case_match; simplify_eq;
    try (crush_state; assumption).
  match goal with
  | Hb : bool_decide _ = true |- _ => apply bool_decide_eq_true_1 in Hb
  end.
  crush_state. lia.
Qed.

Lemma step_wfState (e : Event) (s s' : EditorState) :
  wfState s -> step host s e = Some s' -> wfState s'.
Proof.
  intros (Hwf & Hsync & Hsize) H.
  destruct (HistoryEffect_sync s s' Hwf Hsync (step_effect e s s' H))
    as [Hwf' Hsync'].
  split; [exact Hwf'|]. split; [exact Hsync'|].
  unfold step in H.
  destruct (handle host e s) as [s1|] eqn:E; [|discriminate].
  simpl in H. simplify_eq. rewrite render_drawSize.
  eapply handle_drawSize; eassumption.
Qed.

(** Every state the editor reaches is well formed. *)
Lemma run_wfState (es : list Event) (s s' : EditorState) :
  wfState s -> run host s es = Some s' -> wfState s'.
Proof.
  revert s. induction es as [|e es IH]; intros s Hwf H; simpl in H.
  - congruence.
  - destruct (step host s e) as [s1|] eqn:E; [|discriminate].
    simpl in H. eapply IH; [|exact H].
    eapply step_wfState; eassumption.
Qed.

Lemma wfState_initial (initialImage : Src) :
  wfState (initialState initialImage).
Proof.
  split; [unfold wfHistory; simpl; lia|]. split; [reflexivity|simpl; lia].
Qed.

(** With a positive radius both operators return. *)
Lemma spotFix_returns (canvas : Bitmap) (x y : Q) (radius : Z) :
  0 < radius -> (spotFix host canvas x y radius).2 = Returned.
Proof.
  intros Hr. unfold spotFix.
  rewrite getImageData_positive by lia. cbv beta iota zeta.
  unfold drawImageInArc. destruct (Z.ltb_spec radius 0); [lia|reflexivity].
Qed.

Lemma removeRedEye_returns (canvas : Bitmap) (x y : Q) (radius : Z) :
  0 < radius -> (removeRedEye host canvas x y radius).2 = Returned.
Proof.
  intros Hr. unfold removeRedEye.
  destruct (_ || _); [reflexivity|].
  rewrite getImageData_positive by lia. cbv beta iota zeta.
  unfold drawImageInArc. destruct (Z.ltb_spec radius 0); [lia|reflexivity].
Qed.

Lemma startInteraction_total (pos : Z * Z) (s : EditorState) :
  0 < drawSize s -> is_Some (startInteraction host pos s).
Proof.
  intros Hpos. unfold startInteraction.
  destruct (mode s) as [m|]; [|eauto].
  destruct m; eauto; simpl.
  destruct (canvasRef s) as [canvas|]; [|eauto].
  destruct (repairType s).
  - pose proof (spotFix_returns canvas (inject_Z pos.1) (inject_Z pos.2)
                  (drawSize s * 2) ltac:(lia)) as Hret.
    destruct (spotFix host canvas (inject_Z pos.1) (inject_Z pos.2)
                (drawSize s * 2)) as [c o].
    simpl in Hret. subst o. eauto.
  - pose proof (removeRedEye_returns canvas (inject_Z pos.1) (inject_Z pos.2)
                  (drawSize s) Hpos) as Hret.
    destruct (removeRedEye host canvas (inject_Z pos.1) (inject_Z pos.2)
                (drawSize s)) as [c o].
    simpl in Hret. subst o. eauto.
Qed.

(** In a well-formed state every event is handled to the end: no handler
    raises an exception. *)
Lemma step_total (e : Event) (s : EditorState) :
  wfState s -> is_Some (step host s e).
Proof.
  intros ([Hlo Hhi] & _ & Hsize). unfold step.
  assert (H : is_Some (handle host e s));
    [|destruct H as [s' ->]; simpl; eauto].
  destruct e; unfold handle; repeat case_match; eauto.
  - unfold handleUndo.
    destruct (Z.gtb_spec (historyIndex s) 0); [|eauto].
    destruct (at_index_is_Some (history s) (historyIndex s - 1)) as [st ->];
      [lia|eauto].
  - unfold handleRedo.
    destruct (Z.ltb_spec (historyIndex s) (Z.of_nat (length (history s)) - 1));
      [|eauto].
    destruct (at_index_is_Some (history s) (historyIndex s + 1)) as [st ->];
      [lia|eauto].
  - apply startInteraction_total. exact Hsize.
Qed.

Lemma run_total (es : list Event) (s : EditorState) :
  wfState s -> is_Some (run host s es).
Proof.
  revert s. induction es as [|e es IH]; intros s Hwf; simpl; [eauto|].
  destruct (step_total e s Hwf) as [s1 Hs1]. rewrite Hs1. simpl.
  apply IH. eapply step_wfState; eassumption.
Qed.

(** From a freshly loaded image every sequence of events runs to its end,
    and ends in a well-formed state. *)
Lemma session_runs (initialImage : Src) (es : list Event) :
  exists s, run host (initialState initialImage) es = Some s /\ wfState s.
Proof.
  destruct (run_total es (initialState initialImage)
              (wfState_initial initialImage)) as [s Hs].
  exists s. split; [exact Hs|].
  eapply run_wfState; [apply wfState_initial|exact Hs].
Qed.

End Traces.

Section Strokes.
Context (host : Host).

Lemma canvasShown_drawOrRepair (s : EditorState) :
  drawOrRepair s ->
  bool_decide (mode s <> Some Mode.crop /\ mode s <> Some Mode.compress)
  = true.
Proof.
  intros [H|H]; apply bool_decide_eq_true_2; rewrite H; split; discriminate.
Qed.

(** The canvas after a render, when the handler left the mode alone: what
    the handler left on it, or the image when the image changed. *)
Lemma render_canvas_cases (prev next : EditorState) (c0 : Bitmap) :
  drawOrRepair next -> mode next = mode prev ->
  canvasRef next = Some c0 ->
  canvasRef (render prev next)
  = Some (if decide (imageSrc next = imageSrc prev) then c0
          else decode (imageSrc next)).
Proof.
  intros Hm Hmode Hc. unfold render.
  destruct (decide (mode next = Some Mode.crop)) as [Hcrop|_].
  { destruct Hm as [Hm|Hm]; congruence. }
  destruct (decide (imageSrc next = imageSrc prev)) as [Hs|Hs].
  - rewrite decide_True by (split; assumption). exact Hc.
  - rewrite decide_False by (intros [? ?]; contradiction).
    destruct next; reflexivity.
Qed.

Lemma render_canvas_kept (prev next : EditorState) (c : Bitmap) :
  drawOrRepair next -> mode next = mode prev ->
  canvasRef next = Some c ->
  (imageSrc next <> imageSrc prev -> decode (imageSrc next) = c) ->
  canvasRef (render prev next) = Some c.
Proof.
  intros Hm Hmode Hc Hdec.
  rewrite (render_canvas_cases prev next c) by assumption.
  case_decide; [reflexivity|]. f_equal. apply Hdec. assumption.
Qed.

(** Lifting the pen commits the canvas as it is. *)
Lemma step_PointerUp_commits (s : EditorState) (c : Bitmap) :
  drawOrRepair s -> isDrawing s = true -> canvasRef s = Some c ->
  exists s1,
    step host s PointerUp = Some s1
    /\ history s1
       = slice0 (historyIndex s + 1) (history s)
         ++ [HistoryState.mk (toDataURL c) (filters s)]
    /\ historyIndex s1 = Z.of_nat (length (history s1)) - 1
    /\ imageSrc s1 = toDataURL c
    /\ filters s1 = filters s
    /\ mode s1 = mode s
    /\ isDrawing s1 = false
    /\ canvasRef s1 = Some c.
Proof.
  intros Hm Hd Hc. unfold step, handle.
  rewrite canvasShown_drawOrRepair by assumption.
  eexists. split; [reflexivity|].
  pose proof (render_fields s (endInteraction s))
    as (Hh & Hi & Hs & Hf & _ & Hmo & Hdr).
  rewrite Hh, Hi, Hs, Hf, Hmo, Hdr.
  assert (Hend : endInteraction s
                 = setLastPos None
                     (setIsDrawing false
                        (addToHistory (toDataURL c) (filters s) s))).
  { unfold endInteraction. rewrite Hd, Hc. reflexivity. }
  rewrite Hend.
  split; [destruct s; reflexivity|]. split; [destruct s; reflexivity|].
  split; [destruct s; reflexivity|]. split; [destruct s; reflexivity|].
  split; [destruct s; reflexivity|]. split; [destruct s; reflexivity|].
  rewrite <- Hend. apply render_canvas_kept.
  - unfold drawOrRepair. rewrite Hend.
    replace (mode _) with (mode s) by (destruct s; reflexivity). exact Hm.
  - rewrite Hend. destruct s; reflexivity.
  - rewrite Hend. destruct s; simpl in *. exact Hc.
  - intros _. rewrite Hend. destruct s; reflexivity.
Qed.

(** Pressing the pen or the repair tool starts a stroke; it may repaint
    the canvas and it commits nothing. *)
Lemma step_PointerDown_starts (s s' : EditorState) (pos : Z * Z) :
  drawOrRepair s -> is_Some (canvasRef s) ->
  step host s (PointerDown pos) = Some s' ->
  strokeInProgress s s'.
Proof.
  intros Hm [c Hc] H. unfold step, handle in H.
  rewrite canvasShown_drawOrRepair in H by assumption.
  destruct (startInteraction host pos s) as [s1|] eqn:E; [|discriminate].
  simpl in H. simplify_eq.
  pose proof (startInteraction_fields host pos s s1 E)
    as (Hh & Hi & Hs & Hf & Hmo).
  pose proof (render_fields s s1)
    as (Hh' & Hi' & Hs' & Hf' & _ & Hmo' & Hdr').
  assert (Hdraw : isDrawing s1 = true /\ is_Some (canvasRef s1)).
  { unfold startInteraction in E. destruct Hm as [Hm|Hm]; rewrite Hm in E;
      simpl in E.
    - simplify_eq. destruct s; simpl in *. eauto.
    - rewrite Hc in E. repeat case_match; simplify_eq;
        destruct s; simpl in *; eauto. }
  destruct Hdraw as [Hdr [c1 Hc1]].
  unfold strokeInProgress.
  rewrite Hh', Hi', Hs', Hf', Hmo', Hdr'.
  repeat (split; [congruence|]).
  exists c1. apply render_canvas_kept; try congruence.
  unfold drawOrRepair. rewrite Hmo. exact Hm.
Qed.

(** Moving it goes on with the stroke. *)
Lemma step_PointerMove_continues (s1 s s' : EditorState) (pos : Z * Z) :
  drawOrRepair s1 -> strokeInProgress s1 s ->
  step host s (PointerMove pos) = Some s' ->
  strokeInProgress s1 s'.
Proof.
  intros Hm (Hh & Hi & Hs & Hf & Hmo & Hdr & [c Hc]) H.
  assert (Hm' : drawOrRepair s) by (unfold drawOrRepair; rewrite Hmo; exact Hm).
  unfold step, handle in H.
  rewrite canvasShown_drawOrRepair in H by assumption.
  simpl in H. simplify_eq.
  pose proof (moveInteraction_fields host pos s)
    as (Hh1 & Hi1 & Hs1 & Hf1 & Hmo1 & Hdr1).
  pose proof (render_fields s (moveInteraction host pos s))
    as (Hh' & Hi' & Hs' & Hf' & _ & Hmo' & Hdr').
  unfold strokeInProgress.
  rewrite Hh', Hi', Hs', Hf', Hmo', Hdr'.
  repeat (split; [congruence|]).
  assert (Hcm : is_Some (canvasRef (moveInteraction host pos s))).
  { unfold moveInteraction. rewrite Hdr, Hc.
    repeat case_match; destruct s; simpl in *; eauto. }
  destruct Hcm as [c1 Hc1].
  exists c1. apply render_canvas_kept; try congruence.
  unfold drawOrRepair. rewrite Hmo1. exact Hm'.
Qed.

Lemma run_PointerMoves (s1 s s' : EditorState) (ps : list (Z * Z)) :
  drawOrRepair s1 -> strokeInProgress s1 s ->
  run host s (PointerMove <$> ps) = Some s' ->
  strokeInProgress s1 s'.
Proof.
  intros Hm. revert s. induction ps as [|q ps IH]; intros s Hs H; simpl in H.
  - congruence.
  - destruct (step host s (PointerMove q)) as [sq|] eqn:E; [|discriminate].
    simpl in H. eapply IH; [|exact H].
    eapply step_PointerMove_continues; eauto.
Qed.

Lemma step_drawSize (e : Event) (s s' : EditorState) :
  step host s e = Some s' -> 0 < drawSize s -> 0 < drawSize s'.
Proof.
  unfold step. intros H Hpos.
  destruct (handle host e s) as [s1|] eqn:E; [|discriminate].
  simpl in H. simplify_eq. rewrite render_drawSize.
  eapply handle_drawSize; eassumption.
Qed.

(** With a brush that has a size, pressing and moving always go through. *)
Lemma step_PointerDown_total (s : EditorState) (pos : Z * Z) :
  0 < drawSize s -> is_Some (step host s (PointerDown pos)).
Proof.
  intros Hpos. unfold step, handle.
  destruct (bool_decide _); [|simpl; eauto].
  destruct (startInteraction_total host pos s Hpos) as [s' ->]. simpl. eauto.
Qed.

Lemma run_PointerMoves_total (s : EditorState) (ps : list (Z * Z)) :
  is_Some (run host s (PointerMove <$> ps)).
Proof.
  revert s. induction ps as [|q ps IH]; intros s; simpl; [eauto|].
  unfold step at 1, handle. destruct (bool_decide _); simpl; apply IH.
Qed.

End Strokes.

Section Undo.
Context (host : Host).

(** Undo right after a committed stroke shows the entry before it and
    redraws the canvas from it. *)
Lemma step_Undo_restores (s3 : EditorState) (pre : list HistoryState.t)
    (e1 e2 : HistoryState.t) (c2 : Bitmap) :
  drawOrRepair s3 ->
  history s3 = pre ++ [e1; e2] ->
  historyIndex s3 = Z.of_nat (length pre) + 1 ->
  imageSrc s3 = toDataURL c2 ->
  canvasRef s3 = Some c2 ->
  exists s4,
    step host s3 Undo = Some s4
    /\ history s4 = history s3
    /\ imageSrc s4 = HistoryState.src e1
    /\ filters s4 = HistoryState.filters e1
    /\ lastAppliedFilters s4 = HistoryState.filters e1
    /\ canvasRef s4 = Some (decode (HistoryState.src e1)).
Proof.
  intros Hm Hh Hi Hs Hc. unfold step, handle.
  destruct (Z.eqb_spec (historyIndex s3) 0); [lia|].
  unfold handleUndo.
  destruct (Z.gtb_spec (historyIndex s3) 0); [|lia].
  assert (He : at_index (history s3) (historyIndex s3 - 1) = Some e1).
  { rewrite at_index_lookup by lia. rewrite Hh, Hi.
    replace (Z.to_nat (Z.of_nat (length pre) + 1 - 1))
      with (length pre + 0)%nat by lia.
    rewrite lookup_app_r by lia.
    replace (_ + 0 - _)%nat with 0%nat by lia. reflexivity. }
  rewrite He. eexists. split; [reflexivity|].
  set (next := setLastAppliedFilters _ _).
  pose proof (render_fields s3 next) as (Hh' & Hi' & Hs' & Hf' & Hl' & _).
  rewrite Hh', Hs', Hf', Hl'.
  split; [destruct s3; reflexivity|]. split; [destruct s3; reflexivity|].
  split; [destruct s3; reflexivity|]. split; [destruct s3; reflexivity|].
  rewrite (render_canvas_cases s3 next c2).
  - replace (imageSrc next) with (HistoryState.src e1)
      by (destruct s3; reflexivity).
    rewrite Hs. case_decide as Heq; [|reflexivity].
    rewrite Heq. reflexivity.
  - unfold drawOrRepair.
    replace (mode next) with (mode s3) by (destruct s3; reflexivity).
    exact Hm.
  - destruct s3; reflexivity.
  - replace (canvasRef next) with (canvasRef s3)
      by (destruct s3; reflexivity).
    exact Hc.
Qed.

End Undo.

(** * The claims *)

(** C1. A commit keeps the entries up to the current index, drops the ones
    after it, appends the new entry holding the raster and the adjustments
    it is given, and moves the index to that last entry; whenever an event
    of the editor commits, the adjustments in the new entry are the live
    ones.  Undo steps the index back only when it is above 0, redo steps it
    forward only when it is below length - 1, and otherwise each leaves the
    state as it is.  From the initial single entry, commit A, commit B,
    undo, commit C ends with the three entries initial, A, C and index 2,
    where redo changes nothing. *)
Theorem history_commit_undo_redo (s : EditorState) (newSrc : Src)
    (newFilters : FilterValues) :
  wfHistory s ->
  (history (addToHistory newSrc newFilters s)
   = take (Z.to_nat (historyIndex s + 1)) (history s)
     ++ [HistoryState.mk newSrc newFilters]
   /\ historyIndex (addToHistory newSrc newFilters s) = historyIndex s + 1
   /\ historyIndex (addToHistory newSrc newFilters s)
      = Z.of_nat (length (history (addToHistory newSrc newFilters s))) - 1)
  /\ (forall (host : Host) (e : Event) (s' : EditorState),
        step host s e = Some s' ->
        history s' = history s
        \/ exists committed : Src,
             history s'
             = take (Z.to_nat (historyIndex s + 1)) (history s)
               ++ [HistoryState.mk committed (filters s)]
             /\ historyIndex s' = historyIndex s + 1
             /\ imageSrc s' = committed)
  /\ (if historyIndex s >? 0
      then exists s', handleUndo s = Some s'
                      /\ historyIndex s' = historyIndex s - 1
                      /\ history s' = history s
      else handleUndo s = Some s)
  /\ (if historyIndex s <? Z.of_nat (length (history s)) - 1
      then exists s', handleRedo s = Some s'
                      /\ historyIndex s' = historyIndex s + 1
                      /\ history s' = history s
      else handleRedo s = Some s)
  /\ (forall (initialImage A B C : Src) (fA fB fC : FilterValues),
        exists s3 : EditorState,
          handleUndo
            (addToHistory B fB (addToHistory A fA (initialState initialImage)))
          = Some s3
          /\ history (addToHistory C fC s3)
             = [ HistoryState.mk initialImage DEFAULT_FILTERS;
                 HistoryState.mk A fA; HistoryState.mk C fC ]
          /\ length (history (addToHistory C fC s3)) = 3%nat
          /\ historyIndex (addToHistory C fC s3) = 2
          /\ handleRedo (addToHistory C fC s3) = Some (addToHistory C fC s3)).
Proof.
  intros [Hlo Hhi]. split; [|split; [|split; [|split]]].
  - split; [|split].
    + rewrite addToHistory_history, slice0_take by lia. reflexivity.
    + rewrite addToHistory_index, addToHistory_history, slice0_take by lia.
      rewrite length_app, length_take. simpl. lia.
    + apply addToHistory_index.
  - intros host e s' Hstep.
    destruct (step_effect host e s s' Hstep)
      as [Ha _ _ | st Ha _ _ _ _ | committed Ha Hb Hc]; [left; exact Ha..|].
    right. exists committed. rewrite slice0_take in Ha by lia.
    split; [exact Ha|]. split; [|exact Hc].
    rewrite Hb, Ha, length_app, length_take. simpl. lia.
  - unfold handleUndo. destruct (historyIndex s >? 0) eqn:E; [|reflexivity].
    destruct (at_index_is_Some (history s) (historyIndex s - 1)) as [st Hst];
      [lia|].
    rewrite Hst. eexists. split; [reflexivity|]. destruct s; split; reflexivity.
  - unfold handleRedo.
    destruct (historyIndex s <? Z.of_nat (length (history s)) - 1) eqn:E;
      [|reflexivity].
    destruct (at_index_is_Some (history s) (historyIndex s + 1)) as [st Hst];
      [lia|].
    rewrite Hst. eexists. split; [reflexivity|]. destruct s; split; reflexivity.
  - intros initialImage A B C fA fB fC. eexists. split; [reflexivity|].
    split; [reflexivity|]. split; [reflexivity|]. split; reflexivity.
Qed.

Lemma history_commit_undo_redo_witness :
  wfHistory (initialState upload)
  /\ historyIndex (addToHistory rasterA DEFAULT_FILTERS (initialState upload))
     = 1.
Proof.
  assert (H : wfHistory (initialState upload)) by (unfold wfHistory; simpl; lia).
  split; [exact H|].
  exact (proj1 (proj2 (proj1
           (history_commit_undo_redo (initialState upload) rasterA
              DEFAULT_FILTERS H)))).
Defined.

(** C2 (amended). Clicking a preset in the filter panel sets the live
    adjustments to the last-applied adjustments with the preset's entries
    written over them: each of brightness, contrast, sepia, grayscale, blur
    and hueRotate takes the preset's value when the preset names it and the
    last-applied value otherwise; nothing but the live adjustments changes.
    With defaults last applied and a live brightness of 120, Clarendon gives
    brightness 110 and contrast 120, and leaves sepia, grayscale, blur and
    hueRotate at their last-applied values. *)
Theorem preset_merges_onto_last_applied :
  Forall
    (fun f : Filter.t =>
       forall s : EditorState,
         Forall
           (fun k =>
              getProp k (filters (filterPreviewOnClick f s))
              = match getProp k (Filter.filter f) with
                | Some v => Some v
                | None => getProp k (lastAppliedFilters s)
                end)
           shared_keys
         /\ lastAppliedFilters (filterPreviewOnClick f s) = lastAppliedFilters s
         /\ history (filterPreviewOnClick f s) = history s
         /\ historyIndex (filterPreviewOnClick f s) = historyIndex s
         /\ imageSrc (filterPreviewOnClick f s) = imageSrc s)
    INSTAGRAM_FILTERS
  /\ getProp "brightness" (filters brightened) = Some 120
  /\ lastAppliedFilters brightened = DEFAULT_FILTERS
  /\ In Clarendon INSTAGRAM_FILTERS
  /\ getProp "brightness" (filters (filterPreviewOnClick Clarendon brightened))
     = Some 110
  /\ getProp "contrast" (filters (filterPreviewOnClick Clarendon brightened))
     = Some 120
  /\ Forall
       (fun k =>
          getProp k (filters (filterPreviewOnClick Clarendon brightened))
          = getProp k (lastAppliedFilters brightened))
       [ "sepia"; "grayscale"; "blur"; "hueRotate" ]%string.
Proof.
  split.
  - repeat apply Forall_cons; try apply Forall_nil; intros s;
      (split; [|destruct s; repeat split]);
      repeat apply Forall_cons; try apply Forall_nil;
      rewrite filters_filterPreviewOnClick, getProp_spread; reflexivity.
  - split; [reflexivity|]. split; [reflexivity|].
    split; [right; left; reflexivity|].
    split; [reflexivity|]. split; [reflexivity|].
    repeat apply Forall_cons; try apply Forall_nil; reflexivity.
Qed.

(** C2, as stated, fails: a field the preset does not name takes the
    last-applied value, not the live one.  With defaults last applied, the
    live sepia at 30 and Clarendon (which names no sepia), the result has
    sepia 0. *)
Lemma preset_drops_live_value_cex :
  getProp "sepia" (Filter.filter Clarendon) = None
  /\ getProp "sepia" (filters brightenedSepia) = Some 30
  /\ getProp "sepia" (lastAppliedFilters brightenedSepia) = Some 0
  /\ getProp "sepia" (filters (filterPreviewOnClick Clarendon brightenedSepia))
     = Some 0.
Proof. repeat split. Qed.

(** The presets name the saturation [saturate], the adjustments name it
    [saturation]: the merge adds a property and leaves [saturation], the one
    [getFilterString] reads, where it was. *)
Lemma clarendon_saturate_key_mismatch :
  filters (filterPreviewOnClick Clarendon brightened)
  = [ ("brightness", 110); ("contrast", 120); ("saturation", 100);
      ("sepia", 0); ("grayscale", 0); ("blur", 0); ("hueRotate", 0);
      ("saturate", 125) ]%string.
Proof. reflexivity. Qed.

(** C3 (amended). Pressing the Crop tool only switches the mode (and takes
    the canvas off the page): nothing is baked, so the base image, the live
    and last-applied adjustments and the history are what they were.  Apply
    Crop then crops that unfiltered base image, and what it commits is the
    cropped image paired with the adjustments that are still live. *)
Theorem entering_crop_bakes_nothing (host : Host) (s : EditorState) :
  exists s',
    step host s (ToolButton Mode.crop) = Some s'
    /\ mode s' = Some Mode.crop
    /\ imageSrc s' = imageSrc s
    /\ filters s' = filters s
    /\ lastAppliedFilters s' = lastAppliedFilters s
    /\ history s' = history s
    /\ historyIndex s' = historyIndex s
    /\ forall (ctx2d : bool) (finalCrop : option PixelCrop.t),
         match getCroppedImg host ctx2d (imageSrc s) finalCrop (rotation s)
                 (flip s) with
         | Resolved (Some cropped) =>
             imageSrc (performCrop host ctx2d finalCrop s') = cropped
             /\ filters (performCrop host ctx2d finalCrop s') = filters s
             /\ at_index (history (performCrop host ctx2d finalCrop s'))
                         (historyIndex (performCrop host ctx2d finalCrop s'))
                = Some (HistoryState.mk cropped (filters s))
         | _ => performCrop host ctx2d finalCrop s' = s'
         end.
Proof.
  eexists. split; [reflexivity|].
  destruct s as [src0 m f lf h i dc ds dr rt rot fl cv lp]; simpl.
  repeat (split; [reflexivity|]).
  intros ctx2d finalCrop. unfold performCrop. simpl.
  destruct (getCroppedImg host ctx2d src0 finalCrop rot fl) as [[cropped|]|];
    try reflexivity.
  split; [reflexivity|]. split; [reflexivity|].
  pose proof (addToHistory_current cropped f
                (mkState src0 (Some Mode.crop) f lf h i dc ds dr rt rot fl
                   None lp)) as Hc.
  exact Hc.
Qed.

(** C3, as stated, fails: entering the crop view from a session whose
    brightness is at 120 leaves the adjustments live (a bake would have
    reset them), the base image the one it was and the history untouched. *)
Lemma entering_crop_no_bake_cex :
  filters brightened <> DEFAULT_FILTERS
  /\ exists s',
       step plainHost brightened (ToolButton Mode.crop) = Some s'
       /\ filters s' = filters brightened
       /\ filters s' <> DEFAULT_FILTERS
       /\ imageSrc s' = imageSrc brightened
       /\ history s' = history brightened.
Proof.
  split; [discriminate|]. eexists. split; [reflexivity|].
  split; [reflexivity|]. split; [discriminate|]. split; reflexivity.
Qed.

(** C4 (amended). Without a crop rectangle getCroppedImg returns the whole
    rotated and flipped working raster.  With a rectangle of positive width
    and height it always returns a raster of that width and height, whether
    or not the rectangle lies inside the working raster: each pixel is the
    working raster's pixel at that offset, transparent black where the
    rectangle reaches outside.  The empty result is given only when no
    drawing context is to be had, and the call fails only on a rectangle of
    zero width or height. *)
Theorem getCroppedImg_pads_out_of_bounds (host : Host) (imageSrc : Src)
    (rotation : Z) (flip : Flip.t) (pc : PixelCrop.t) :
  0 < PixelCrop.width pc -> 0 < PixelCrop.height pc ->
  let working := drawTransformed host (decode imageSrc) rotation flip in
  getCroppedImg host true imageSrc None rotation flip
  = Resolved (Some (toDataURL working))
  /\ (exists out : Bitmap,
        getCroppedImg host true imageSrc (Some pc) rotation flip
        = Resolved (Some (toDataURL out))
        /\ width out = PixelCrop.width pc
        /\ height out = PixelCrop.height pc
        /\ forall i j : Z,
             0 <= i < PixelCrop.width pc -> 0 <= j < PixelCrop.height pc ->
             pixelAt out i j
             = (if inBounds working (PixelCrop.x pc + i) (PixelCrop.y pc + j)
                then pixelAt working (PixelCrop.x pc + i) (PixelCrop.y pc + j)
                else transparentBlack))
  /\ (forall pixelCrop : option PixelCrop.t,
        getCroppedImg host false imageSrc pixelCrop rotation flip
        = Resolved None)
  /\ (forall x y w h : Z,
        w = 0 \/ h = 0 ->
        getCroppedImg host true imageSrc (Some (PixelCrop.mk x y w h)) rotation
          flip
        = Rejected IndexSizeError).
Proof.
  intros Hw Hh working. split; [reflexivity|]. split; [|split].
  - unfold getCroppedImg. simpl negb. cbv iota.
    rewrite getImageData_positive by assumption.
    eexists. split; [reflexivity|].
    split; [apply canvasDim_nonneg; lia|].
    split; [apply canvasDim_nonneg; lia|].
    intros i j Hi Hj. rewrite pixelAt_putImageData_fresh by assumption.
    fold working. unfold pixelAt.
    destruct (inBounds working _ _); reflexivity.
  - reflexivity.
  - intros x y w h Hz. unfold getCroppedImg, getImageData. simpl.
    destruct Hz as [-> | ->]; [reflexivity|].
    rewrite orb_true_r. reflexivity.
Qed.

(** C4, as stated, fails: on a 2 x 2 image, upright, the rectangle at (1, 1)
    of size 2 x 2 reaches outside the working raster, and the result is no
    error and no empty result but a 2 x 2 raster: the one pixel inside the
    image followed by three transparent ones. *)
Lemma getCroppedImg_out_of_bounds_cex :
  decode upload = solid 2 2 greyPixel
  /\ getCroppedImg plainHost true upload (Some (PixelCrop.mk 1 1 2 2)) 0
       (Flip.mk false false)
     = Resolved
         (Some (DataURL (mkBitmap 2 2
                           [100; 100; 100; 255; 0; 0; 0; 0;
                            0; 0; 0; 0; 0; 0; 0; 0]))).
Proof. split; reflexivity. Qed.

Lemma getCroppedImg_pads_out_of_bounds_witness :
  0 < PixelCrop.width (PixelCrop.mk 1 1 2 2)
  /\ 0 < PixelCrop.height (PixelCrop.mk 1 1 2 2)
  /\ getCroppedImg plainHost true upload None 0 (Flip.mk false false)
     = Resolved (Some (toDataURL (decode upload))).
Proof.
  assert (Hw : 0 < PixelCrop.width (PixelCrop.mk 1 1 2 2)) by (simpl; lia).
  assert (Hh : 0 < PixelCrop.height (PixelCrop.mk 1 1 2 2)) by (simpl; lia).
  split; [exact Hw|]. split; [exact Hh|].
  exact (proj1 (getCroppedImg_pads_out_of_bounds plainHost upload 0
                  (Flip.mk false false) (PixelCrop.mk 1 1 2 2) Hw Hh)).
Defined.

(** C5 (amended). removeRedEye is given a centre (x, y), any finite numbers,
    and a positive whole radius r.  Let the 2r x 2r square with corner
    (max(0, x - r), max(0, y - r)) lie inside the raster, which is less than
    2^53 pixels wide and high.  Then the operator returns, and every pixel
    well outside the disc (its square at least r + 1 from the centre) is
    unchanged.  When moreover the corner is whole (x and y are whole, or
    within r of the left and the top edge), then for every opaque pixel well
    inside the disc (its square within r - 1 of the centre): if its red
    exceeds green + blue and exceeds 50, its red, green and blue become the
    average of green and blue (rounded to an integer, half to even),
    otherwise it is unchanged.  On all these pixels the alpha is untouched.
    So such an opaque (200, 10, 10) becomes (10, 10, 10) and an opaque
    (10, 200, 10) stays as it is.  Nothing is said of the pixels within one
    pixel of the circle, nor of the inside of the disc when the corner is
    not whole: these are the browser's (anti-aliasing, resampling). *)
Theorem removeRedEye_desaturates_disc (host : Host) (canvas : Bitmap)
    (x y : Q) (radius px py : Z) :
  let startX := Math.max 0 (Number.sub x (inject_Z radius)) in
  let startY := Math.max 0 (Number.sub y (inject_Z radius)) in
  0 < radius ->
  width canvas <= 2 ^ 53 -> height canvas <= 2 ^ 53 ->
  (startX + inject_Z (radius * 2) <= inject_Z (width canvas))%Q ->
  (startY + inject_Z (radius * 2) <= inject_Z (height canvas))%Q ->
  inBounds canvas px py = true ->
  let p := pixelAt canvas px py in
  let p' := pixelAt (removeRedEye host canvas x y radius).1 px py in
  let avg := toUint8Clamp (green p + blue p) 2 in
  let treated :=
    wholeInArc x y radius px py = true
    /\ Number.isInteger startX = true /\ Number.isInteger startY = true
    /\ alpha p = 255 in
  (removeRedEye host canvas x y radius).2 = Returned
  /\ (treated ->
      p' = (if (red p >? green p + blue p) && (red p >? 50)
            then RGBA avg avg avg (alpha p) else p))
  /\ (clearOfArc x y radius px py = true -> p' = p)
  /\ (clearOfArc x y radius px py = true \/ treated -> alpha p' = alpha p)
  /\ (0 <= green p <= 255 -> 0 <= blue p <= 255 ->
      (green p + blue p) / 2 <= avg <= (green p + blue p + 1) / 2
      /\ (Z.even (green p + blue p) = true -> 2 * avg = green p + blue p))
  /\ (treated -> p = RGBA 200 10 10 255 -> p' = RGBA 10 10 10 255)
  /\ (treated -> p = RGBA 10 200 10 255 -> p' = RGBA 10 200 10 255).
Proof.
  intros startX startY Hr Hw Hh Hx Hy Hin p p' avg treated.
  assert (Hdisc : treated -> p' = redEyePixel p).
  { intros (Hd & Hix & Hiy & Ha). unfold p'.
    rewrite removeRedEye_whole by assumption. fold p.
    apply sourceOver_opaque. rewrite redEyePixel_alpha. exact Ha. }
  assert (Hout : clearOfArc x y radius px py = true -> p' = p).
  { intros Hc. apply removeRedEye_clear; assumption. }
  split; [rewrite removeRedEye_runs by assumption; reflexivity|].
  split; [exact Hdisc|]. split; [exact Hout|].
  split.
  { intros [Hc|Ht].
    - rewrite Hout by assumption. reflexivity.
    - rewrite Hdisc by assumption. apply redEyePixel_alpha. }
  split; [apply toUint8Clamp_average|].
  split; intros Ht Hp.
  - rewrite Hdisc by assumption. rewrite Hp. reflexivity.
  - rewrite Hdisc by assumption. rewrite Hp. reflexivity.
Qed.

Lemma removeRedEye_desaturates_disc_witness :
  (0 < 5
   /\ width eyes <= 2 ^ 53 /\ height eyes <= 2 ^ 53
   /\ (Math.max 0 (Number.sub 6 (inject_Z 5)) + inject_Z (5 * 2)
       <= inject_Z (width eyes))%Q
   /\ (Math.max 0 (Number.sub 6 (inject_Z 5)) + inject_Z (5 * 2)
       <= inject_Z (height eyes))%Q
   /\ inBounds eyes 5 5 = true
   /\ (wholeInArc 6 6 5 5 5 = true
       /\ Number.isInteger (Math.max 0 (Number.sub 6 (inject_Z 5))) = true
       /\ Number.isInteger (Math.max 0 (Number.sub 6 (inject_Z 5))) = true
       /\ alpha (pixelAt eyes 5 5) = 255)
   /\ pixelAt eyes 5 5 = RGBA 200 10 10 255)
  /\ pixelAt (removeRedEye plainHost eyes 6 6 5).1 5 5 = RGBA 10 10 10 255.
Proof.
  assert (Hr : 0 < 5) by lia.
  assert (Hw : width eyes <= 2 ^ 53) by (vm_compute; discriminate).
  assert (Hh : height eyes <= 2 ^ 53) by (vm_compute; discriminate).
  assert (Hx : (Math.max 0 (Number.sub 6 (inject_Z 5)) + inject_Z (5 * 2)
                <= inject_Z (width eyes))%Q) by (vm_compute; discriminate).
  assert (Hy : (Math.max 0 (Number.sub 6 (inject_Z 5)) + inject_Z (5 * 2)
                <= inject_Z (height eyes))%Q) by (vm_compute; discriminate).
  assert (Hin : inBounds eyes 5 5 = true) by reflexivity.
  assert (Ht : wholeInArc 6 6 5 5 5 = true
               /\ Number.isInteger (Math.max 0 (Number.sub 6 (inject_Z 5)))
                  = true
               /\ Number.isInteger (Math.max 0 (Number.sub 6 (inject_Z 5)))
                  = true
               /\ alpha (pixelAt eyes 5 5) = 255)
    by (repeat split; reflexivity).
  assert (Hp : pixelAt eyes 5 5 = RGBA 200 10 10 255) by reflexivity.
  split; [repeat split; solve [assumption | apply Ht]|].
  exact (proj1 (proj2 (proj2 (proj2 (proj2 (proj2
           (removeRedEye_desaturates_disc plainHost eyes 6 6 5 5 5
              Hr Hw Hh Hx Hy Hin)))))) Ht Hp).
Defined.

(** C5, as stated, fails: on an 8 x 8 raster of red-eye pixels, correcting
    at (6, 6) with radius 5 changes nothing, because the square the
    operator would read does not fit; the pixel at the centre of the disc
    keeps its (200, 10, 10). *)
Lemma removeRedEye_skips_disc_cex :
  inBounds (solid 8 8 redPixel) 6 6 = true
  /\ wholeInArc 6 6 5 6 6 = true
  /\ pixelAt (solid 8 8 redPixel) 6 6 = RGBA 200 10 10 255
  /\ pixelAt (removeRedEye plainHost (solid 8 8 redPixel) 6 6 5).1 6 6
     = RGBA 200 10 10 255.
Proof. repeat split. Qed.

(** The test is on the numbers as they are: on an 11 x 11 raster the square
    of (6, 6) with radius 5 fits and the operator runs, while at
    (6.5, 6.5) the corner is (1.5, 1.5), the square ends at 11.5, and the
    operator returns with the raster as it was; so it does at the double
    6.4. *)
Lemma removeRedEye_fractional_centre_skips :
  pixelAt (removeRedEye plainHost (solid 11 11 redPixel) 6 6 5).1 6 6
  = RGBA 10 10 10 255
  /\ removeRedEye plainHost (solid 11 11 redPixel) (13 # 2) (13 # 2) 5
     = (solid 11 11 redPixel, Returned)
  /\ removeRedEye plainHost (solid 11 11 redPixel)
       (Number.ofFloat 0x1.999999999999ap+2)
       (Number.ofFloat 0x1.999999999999ap+2) 5
     = (solid 11 11 redPixel, Returned).
Proof. repeat split. Qed.




(** What spotFix reads past the edge.  The square it takes from the canvas
    is not clipped, the part outside the raster reads as transparent black
    and enters the averages: on a uniform grey 8 x 8 raster healed at (4, 4)
    with radius 6, the pixel (7, 4), well inside the disc, has two of the
    five columns of its neighbourhood outside the raster and comes out
    darker, at 15/25 of its grey. *)
Lemma spotFix_averages_outside_pixels :
  inBounds (solid 8 8 greyPixel) 7 4 = true
  /\ wholeInArc 4 4 6 7 4 = true
  /\ pixelAt (spotFix plainHost (solid 8 8 greyPixel) 4 4 6).1 7 4
     = RGBA 60 60 60 255.
Proof. repeat split. Qed.

(** C7 (amended). rotateSize(w, h, θ) returns for every θ, and what it
    returns is (|cos r · w| + |sin r · h|, |sin r · w| + |cos r · h|) with
    r = θ · π / 180, every operation rounded to binary64.  At θ = 0 it
    returns exactly {|w|, |h|} for finite w and h, hence {w, h} for the
    sizes of a raster.  With sines and cosines rounded to nearest it returns
    exactly {100, 100} for a 100 x 100 raster at 90 degrees, and
    {141.4213562373095, 141.4213562373095}, within 0.5 of 141.4, at 45
    degrees.  At 180 and 360 degrees it does not return exactly {w, h},
    because the sine of the double next to π is 1.2246467991473532e-16
    and not 0: a 100 x 50 raster gives {100, 50.000000000000014} at 180
    degrees and {100.00000000000001, 50.00000000000002} at 360.  Nor is the
    90 degree case exact for every square: 120 x 120 gives
    120.00000000000001 twice. *)
Theorem rotateSize_bounding_box (engine : Math.Engine) :
  exactAtZero engine -> nearestAtSamples engine ->
  (forall w h rotation : PrimFloat.float,
     let r := ((rotation * Math.PI) / 180)%float in
     rotateSize engine w h rotation
     = Size.mk
         (Math.abs (Math.cos engine r * w)
          + Math.abs (Math.sin engine r * h))%float
         (Math.abs (Math.sin engine r * w)
          + Math.abs (Math.cos engine r * h))%float)
  /\ (forall w h : PrimFloat.float,
        PrimFloat.is_finite w = true -> PrimFloat.is_finite h = true ->
        rotateSize engine w h 0 = Size.mk (Math.abs w) (Math.abs h))
  /\ rotateSize engine 100 50 0 = Size.mk 100 50
  /\ rotateSize engine 100 100 90 = Size.mk 100 100
  /\ rotateSize engine 120 120 90
     = Size.mk 0x1.e000000000001p+6 0x1.e000000000001p+6
  /\ rotateSize engine 100 50 180 = Size.mk 100 0x1.9000000000002p+5
  /\ rotateSize engine 100 50 360
     = Size.mk 0x1.9000000000001p+6 0x1.9000000000003p+5
  /\ rotateSize engine 100 100 45
     = Size.mk 0x1.1ad7bc01366b8p+7 0x1.1ad7bc01366b8p+7
  /\ (1414 / 10 - 0x1p-1 <=? 0x1.1ad7bc01366b8p+7)%float = true
  /\ (0x1.1ad7bc01366b8p+7 <=? 1414 / 10 + 0x1p-1)%float = true.
Proof.
  intros [Hs0 Hc0] (Hs45 & Hc45 & Hs90 & Hc90 & Hs180 & Hc180 & Hs360 & Hc360).
  assert (Hat : forall (w h rotation a : PrimFloat.float),
            getRadianAngle rotation = a ->
            rotateSize engine w h rotation
            = Size.mk
                (Math.abs (Math.cos engine a * w)
                 + Math.abs (Math.sin engine a * h))%float
                (Math.abs (Math.sin engine a * w)
                 + Math.abs (Math.cos engine a * h))%float).
  { intros w h rotation a <-. reflexivity. }
  split; [intros w h rotation; reflexivity|].
  split; [intros w h Hw Hh; apply rotateSize_zero; assumption|].
  split; [rewrite rotateSize_zero by (assumption || reflexivity);
          reflexivity|].
  split; [rewrite (Hat _ _ _ 0x1.921fb54442d18p+0%float) by reflexivity;
          rewrite Hs90, Hc90; reflexivity|].
  split; [rewrite (Hat _ _ _ 0x1.921fb54442d18p+0%float) by reflexivity;
          rewrite Hs90, Hc90; reflexivity|].
  split; [rewrite (Hat _ _ _ 0x1.921fb54442d18p+1%float) by reflexivity;
          rewrite Hs180, Hc180; reflexivity|].
  split; [rewrite (Hat _ _ _ 0x1.921fb54442d18p+2%float) by reflexivity;
          rewrite Hs360, Hc360; reflexivity|].
  split; [rewrite (Hat _ _ _ 0x1.921fb54442d18p-1%float) by reflexivity;
          rewrite Hs45, Hc45; reflexivity|].
  split; reflexivity.
Qed.

Lemma rotateSize_bounding_box_witness :
  (exactAtZero sampleEngine /\ nearestAtSamples sampleEngine)
  /\ rotateSize sampleEngine 100 100 90 = Size.mk 100 100.
Proof.
  assert (H0 : exactAtZero sampleEngine) by (split; reflexivity).
  assert (Hn : nearestAtSamples sampleEngine) by (repeat split; reflexivity).
  split; [split; assumption|].
  exact (proj1 (proj2 (proj2 (proj2
           (rotateSize_bounding_box sampleEngine H0 Hn))))).
Defined.

(** C7, as stated, fails: at 180 degrees a 100 x 50 raster does not come
    back as {100, 50}: its height is 50.000000000000014; at 360 degrees
    neither side is exact. *)
Lemma rotateSize_half_turn_cex :
  rotateSize sampleEngine 100 50 180 = Size.mk 100 0x1.9000000000002p+5
  /\ (Size.height (rotateSize sampleEngine 100 50 180) =? 50)%float = false
  /\ (Size.width (rotateSize sampleEngine 100 50 360) =? 100)%float = false
  /\ (Size.height (rotateSize sampleEngine 100 50 360) =? 50)%float = false.
Proof. repeat split. Qed.

(** C8 (amended). Apply commits a new history entry that pairs the
    unchanged base image with the live adjustments, records the live
    adjustments as last applied, and leaves both the base image and the live
    adjustments as they were: nothing is flattened and nothing is reset. *)
Theorem apply_commits_live_filters_unflattened (s : EditorState) :
  imageSrc (applyFilters s) = imageSrc s
  /\ filters (applyFilters s) = filters s
  /\ lastAppliedFilters (applyFilters s) = filters s
  /\ hasChanges (applyFilters s) = false
  /\ history (applyFilters s)
     = slice0 (historyIndex s + 1) (history s)
       ++ [HistoryState.mk (imageSrc s) (filters s)]
  /\ at_index (history (applyFilters s)) (historyIndex (applyFilters s))
     = Some (HistoryState.mk (imageSrc s) (filters s)).
Proof.
  split; [destruct s; reflexivity|].
  split; [destruct s; reflexivity|].
  split; [destruct s; reflexivity|].
  split.
  { unfold hasChanges. apply bool_decide_eq_false. intros H. apply H.
    destruct s; reflexivity. }
  split; [destruct s; reflexivity|].
  unfold applyFilters. rewrite addToHistory_current. destruct s; reflexivity.
Qed.

(** C8, as stated, fails: after Apply on a session with brightness 120 the
    live adjustments are still those (not the defaults) and the committed
    entry holds the very image that was the base before. *)
Lemma apply_resets_nothing_cex :
  filters (applyFilters brightened) <> DEFAULT_FILTERS
  /\ getProp "brightness" (filters (applyFilters brightened)) = Some 120
  /\ HistoryState.src <$> at_index (history (applyFilters brightened))
                            (historyIndex (applyFilters brightened))
     = Some (imageSrc brightened).
Proof. split; [discriminate|]. split; reflexivity. Qed.

(** C9. A commit stores the PNG text of the canvas, an immutable value
    that is the snapshot of the pixels at that moment, so no entry of the
    history shares the canvas.  Whatever is then painted on the canvas in
    place (pen strokes, spot fixes, red-eye fixes) leaves every entry of the
    history as it was; so does any later event for the entries up to the
    current one; and after the stroke is committed in its turn, undo shows
    exactly the pixels of the first commit, on the canvas too. *)
Theorem history_snapshots_survive_mutation (host : Host) (s : EditorState)
    (c : Bitmap) (p : Z * Z) (ps : list (Z * Z)) :
  mode s = Some Mode.draw \/ mode s = Some Mode.repair ->
  isDrawing s = true ->
  canvasRef s = Some c ->
  0 < drawSize s ->
  exists s1 s2 : EditorState,
    step host s PointerUp = Some s1
    /\ run host s1 (PointerDown p :: (PointerMove <$> ps)) = Some s2
    /\ at_index (history s1) (historyIndex s1)
       = Some (HistoryState.mk (toDataURL c) (filters s))
    /\ decode (toDataURL c) = c
    /\ history s2 = history s1
    /\ (forall (e : Event) (s' : EditorState) (k : Z),
          step host s1 e = Some s' -> 0 <= k <= historyIndex s1 ->
          at_index (history s') k = at_index (history s1) k)
    /\ exists (c2 : Bitmap) (s4 : EditorState),
         canvasRef s2 = Some c2
         /\ run host s2 [PointerUp; Undo] = Some s4
         /\ history s4
            = history s1 ++ [HistoryState.mk (toDataURL c2) (filters s)]
         /\ imageSrc s4 = toDataURL c
         /\ canvasRef s4 = Some c.
Proof.
  intros Hm Hd Hc Hsize.
  destruct (step_PointerUp_commits host s c Hm Hd Hc)
    as (s1 & Hstep1 & Hh1 & Hi1 & Hs1 & Hf1 & Hmo1 & Hdr1 & Hc1).
  assert (Hm1 : drawOrRepair s1) by (unfold drawOrRepair; rewrite Hmo1; exact Hm).
  assert (Hsize1 : 0 < drawSize s1) by (eapply step_drawSize; eassumption).
  destruct (step_PointerDown_total host s1 p Hsize1) as [s1a Edown].
  destruct (run_PointerMoves_total host s1a ps) as [s2 Hrun].
  exists s1, s2. split; [exact Hstep1|].
  split; [simpl; rewrite Edown; exact Hrun|].
  assert (Hlen : Z.of_nat (length (history s1))
                 = Z.of_nat (length (slice0 (historyIndex s + 1) (history s))) + 1).
  { rewrite Hh1, length_app. simpl. lia. }
  assert (Hcur : at_index (history s1) (historyIndex s1)
                 = Some (HistoryState.mk (toDataURL c) (filters s))).
  { rewrite Hi1, Hh1. apply at_index_last. }
  split; [exact Hcur|]. split; [reflexivity|].
  (* the stroke *)
  assert (Hstroke : strokeInProgress s1 s2).
  { eapply run_PointerMoves; [exact Hm1| |exact Hrun].
    eapply step_PointerDown_starts; [exact Hm1|eauto|exact Edown]. }
  destruct Hstroke as (Hh2 & Hi2 & Hs2 & Hf2 & Hmo2 & Hdr2 & [c2 Hc2]).
  split; [exact Hh2|].
  split.
  { intros e s' k Hstep Hk.
    eapply HistoryEffect_keeps_entries; [|eapply step_effect; exact Hstep|exact Hk].
    unfold wfHistory. lia. }
  (* the second commit and the undo *)
  assert (Hm2 : drawOrRepair s2) by (unfold drawOrRepair; rewrite Hmo2; exact Hm1).
  destruct (step_PointerUp_commits host s2 c2 Hm2 Hdr2 Hc2)
    as (s3 & Hstep3 & Hh3 & Hi3 & Hs3 & Hf3 & Hmo3 & Hdr3 & Hc3).
  assert (Hh3' : history s3
                 = slice0 (historyIndex s + 1) (history s)
                   ++ [ HistoryState.mk (toDataURL c) (filters s);
                        HistoryState.mk (toDataURL c2) (filters s) ]).
  { rewrite Hh3, Hh2, Hi2, Hf2, Hf1.
    rewrite slice0_take by lia.
    rewrite take_ge by lia.
    rewrite Hh1, <- app_assoc. reflexivity. }
  destruct (step_Undo_restores host s3
              (slice0 (historyIndex s + 1) (history s))
              (HistoryState.mk (toDataURL c) (filters s))
              (HistoryState.mk (toDataURL c2) (filters s)) c2)
    as (s4 & Hstep4 & Hh4 & Hs4 & Hf4 & Hl4 & Hc4).
  { unfold drawOrRepair. rewrite Hmo3. exact Hm2. }
  { exact Hh3'. }
  { rewrite Hi3, Hh3', length_app. simpl. lia. }
  { exact Hs3. }
  { exact Hc3. }
  exists c2, s4. split; [exact Hc2|].
  split; [simpl; rewrite Hstep3; simpl; rewrite Hstep4; reflexivity|].
  split.
  { rewrite Hh4, Hh3', Hh1, <- app_assoc. reflexivity. }
  split; [exact Hs4|exact Hc4].
Qed.

Lemma history_snapshots_survive_mutation_witness :
  (mode penDown = Some Mode.draw \/ mode penDown = Some Mode.repair)
  /\ isDrawing penDown = true
  /\ canvasRef penDown = Some (solid 2 2 greyPixel)
  /\ 0 < drawSize penDown
  /\ (canvasRef <$>
       run plainHost penDown
         (PointerUp :: PointerDown (0, 0)
          :: (PointerMove <$> [(1, 0); (1, 1)]))
      = Some (Some (mkBitmap 2 2 [100; 100; 100; 255; 255; 255; 255; 255;
                                  100; 100; 100; 255; 255; 255; 255; 255])))
  /\ exists s1 s2 s4 : EditorState,
       step plainHost penDown PointerUp = Some s1
       /\ run plainHost s1
            (PointerDown (0, 0) :: (PointerMove <$> [(1, 0); (1, 1)]))
          = Some s2
       /\ run plainHost s2 [PointerUp; Undo] = Some s4
       /\ canvasRef s4 = Some (solid 2 2 greyPixel).
Proof.
  assert (Hm : mode penDown = Some Mode.draw \/ mode penDown = Some Mode.repair)
    by (left; reflexivity).
  assert (Hd : isDrawing penDown = true) by reflexivity.
  assert (Hc : canvasRef penDown = Some (solid 2 2 greyPixel)) by reflexivity.
  assert (Hsize : 0 < drawSize penDown) by (simpl; lia).
  split; [exact Hm|]. split; [exact Hd|]. split; [exact Hc|].
  split; [exact Hsize|]. split; [reflexivity|].
  destruct (history_snapshots_survive_mutation plainHost penDown
              (solid 2 2 greyPixel) (0, 0) [(1, 0); (1, 1)] Hm Hd Hc Hsize)
    as (s1 & s2 & Hstep & Hrun & _ & _ & _ & _ & c2 & s4 & _ & Hrun4 & _ & _
        & Hc4).
  exists s1, s2, s4. repeat split; assumption.
Defined.

(** C10. After an undo that has an entry to go back to (index above 0), and
    after a redo that has one to go forward to (index below length - 1), the
    live and the last-applied adjustments both are the restored entry's
    adjustments, so nothing is pending, and a preset clicked next merges onto
    the restored entry's adjustments. *)
Theorem undo_redo_restore_filters (s : EditorState) :
  wfHistory s ->
  (historyIndex s > 0 ->
   exists st s',
     at_index (history s) (historyIndex s - 1) = Some st
     /\ handleUndo s = Some s'
     /\ filters s' = HistoryState.filters st
     /\ lastAppliedFilters s' = HistoryState.filters st
     /\ hasChanges s' = false
     /\ forall f : Filter.t,
          filters (filterPreviewOnClick f s')
          = spread (HistoryState.filters st) (Filter.filter f))
  /\ (historyIndex s < Z.of_nat (length (history s)) - 1 ->
      exists st s',
        at_index (history s) (historyIndex s + 1) = Some st
        /\ handleRedo s = Some s'
        /\ filters s' = HistoryState.filters st
        /\ lastAppliedFilters s' = HistoryState.filters st
        /\ hasChanges s' = false
        /\ forall f : Filter.t,
             filters (filterPreviewOnClick f s')
             = spread (HistoryState.filters st) (Filter.filter f)).
Proof.
  intros [Hlo Hhi]. split; intros Hidx.
  - destruct (at_index_is_Some (history s) (historyIndex s - 1)) as [st Hst];
      [lia|].
    exists st. unfold handleUndo. rewrite Hst.
    destruct (historyIndex s >? 0) eqn:E; [|lia].
    eexists. split; [reflexivity|]. split; [reflexivity|].
    destruct s; simpl.
    split; [reflexivity|]. split; [reflexivity|].
    split; [|reflexivity].
    unfold hasChanges. apply bool_decide_eq_false. simpl. tauto.
  - destruct (at_index_is_Some (history s) (historyIndex s + 1)) as [st Hst];
      [lia|].
    exists st. unfold handleRedo. rewrite Hst.
    destruct (historyIndex s <? Z.of_nat (length (history s)) - 1) eqn:E;
      [|lia].
    eexists. split; [reflexivity|]. split; [reflexivity|].
    destruct s; simpl.
    split; [reflexivity|]. split; [reflexivity|].
    split; [|reflexivity].
    unfold hasChanges. apply bool_decide_eq_false. simpl. tauto.
Qed.

Lemma undo_redo_restore_filters_witness :
  wfHistory pendingAfterCommit
  /\ historyIndex pendingAfterCommit > 0
  /\ hasChanges pendingAfterCommit = true
  /\ exists st s',
       at_index (history pendingAfterCommit)
                (historyIndex pendingAfterCommit - 1) = Some st
       /\ handleUndo pendingAfterCommit = Some s'
       /\ filters s' = HistoryState.filters st
       /\ lastAppliedFilters s' = HistoryState.filters st
       /\ hasChanges s' = false
       /\ forall f : Filter.t,
            filters (filterPreviewOnClick f s')
            = spread (HistoryState.filters st) (Filter.filter f).
Proof.
  assert (Hwf : wfHistory pendingAfterCommit)
    by (unfold wfHistory; simpl; lia).
  assert (Hidx : historyIndex pendingAfterCommit > 0) by (simpl; lia).
  split; [exact Hwf|]. split; [exact Hidx|]. split; [reflexivity|].
  exact (proj1 (undo_redo_restore_filters pendingAfterCommit Hwf) Hidx).
Defined.

(** * Further properties of the code *)

(** ** removeColorRange *)

Lemma removeColorStep_pixel (targetColor : TargetColor.t) (tolerance : Z)
    (pre rest : list Z) (p : Pixel) :
  removeColorStep targetColor tolerance (pre ++ bytes p ++ rest)
    (Z.of_nat (length pre))
  = pre ++ bytes (removeColorPixel targetColor tolerance p) ++ rest.
Proof.
  unfold removeColorStep.
  rewrite byteAt_app_r0, !byteAt_app_r by lia.
  destruct p as [r g b a]. unfold removeColorPixel. simpl.
  change (byteAt (r :: g :: b :: a :: rest) 0) with r.
  change (byteAt (r :: g :: b :: a :: rest) 1) with g.
  change (byteAt (r :: g :: b :: a :: rest) 2) with b.
  destruct (_ <? tolerance); [|reflexivity].
  rewrite writeByte_app_r by lia. reflexivity.
Qed.

Lemma removeColor_fold (targetColor : TargetColor.t) (tolerance : Z)
    (ps : list Pixel) (pre : list Z) (m : Z) :
  Z.of_nat (length pre) = 4 * m ->
  fold_left (removeColorStep targetColor tolerance)
    ((fun k => 4 * k) <$> seqZ m (Z.of_nat (length ps)))
    (pre ++ (ps ≫= bytes))
  = pre ++ ((removeColorPixel targetColor tolerance <$> ps) ≫= bytes).
Proof.
  revert pre m. induction ps as [|p ps IH]; intros pre m Hpre.
  - reflexivity.
  - rewrite seqZ_cons by (simpl; lia).
    rewrite fmap_cons, bind_cons.
    change (fold_left ?f (?a :: ?l) ?d) with (fold_left f l (f d a)).
    rewrite <- Hpre, removeColorStep_pixel.
    replace (Z.pred (Z.of_nat (length (p :: ps)))) with (Z.of_nat (length ps))
      by (simpl; lia).
    rewrite fmap_cons, bind_cons.
    rewrite (app_assoc pre), (app_assoc pre).
    apply IH. rewrite length_app, Nat2Z.inj_add, Hpre. simpl. lia.
Qed.

Lemma removeColorLoop_buildData (targetColor : TargetColor.t) (tolerance : Z)
    (w h : Z) (f : Z -> Z -> Pixel) :
  removeColorLoop targetColor tolerance (buildData w h f)
  = buildData w h (fun x y => removeColorPixel targetColor tolerance (f x y)).
Proof.
  unfold buildData, removeColorLoop.
  rewrite (length_bind_chunks bytes 4) by apply bytes_length.
  replace ((Z.of_nat (length (pixelGrid w h f) * 4) + 3) / 4)
    with (Z.of_nat (length (pixelGrid w h f))).
  - rewrite <- pixelGrid_fmap.
    apply (removeColor_fold targetColor tolerance (pixelGrid w h f) [] 0).
    reflexivity.
  - rewrite Nat2Z.inj_mul. symmetry.
    rewrite Z.add_comm, Z.div_add by lia. reflexivity.
Qed.

Lemma distance2_nonneg (targetColor : TargetColor.t) (p : Pixel) :
  0 <= distance2 targetColor p.
Proof. unfold distance2. nia. Qed.

(** The test of the loop, without the root. *)
Lemma removeColorPixel_cases (targetColor : TargetColor.t) (tolerance : Z)
    (p : Pixel) :
  removeColorPixel targetColor tolerance p
  = if bool_decide (0 < tolerance
                    /\ distance2 targetColor p < tolerance * tolerance)
    then RGBA (red p) (green p) (blue p) 0 else p.
Proof.
  unfold removeColorPixel. fold (distance2 targetColor p).
  pose proof (distance2_nonneg targetColor p) as Hn.
  pose proof (Z.sqrt_nonneg (distance2 targetColor p)) as Hs.
  destruct (Z.ltb_spec (Z.sqrt (distance2 targetColor p)) tolerance) as [H|H].
  - rewrite bool_decide_eq_true_2; [reflexivity|].
    split; [lia|]. apply Z.sqrt_lt_square; lia.
  - rewrite bool_decide_eq_false_2; [reflexivity|].
    intros [Ht Hd]. apply Z.sqrt_lt_square in Hd; lia.
Qed.

(** A cleared pixel keeps its colour bytes, so the test gives the same
    answer on it. *)
Lemma removeColorPixel_idempotent (targetColor : TargetColor.t)
    (tolerance : Z) (p : Pixel) :
  removeColorPixel targetColor tolerance
    (removeColorPixel targetColor tolerance p)
  = removeColorPixel targetColor tolerance p.
Proof.
  unfold removeColorPixel at 2 3.
  destruct (_ <? tolerance) eqn:E.
  - unfold removeColorPixel. simpl. rewrite E. reflexivity.
  - unfold removeColorPixel. rewrite E. reflexivity.
Qed.

Lemma removeColorRange_runs (canvas : Bitmap) (targetColor : TargetColor.t)
    (tolerance : Z) :
  0 < width canvas -> 0 < height canvas ->
  removeColorRange canvas targetColor tolerance
  = (buildBitmap (width canvas) (height canvas)
       (fun x y => removeColorPixel targetColor tolerance (pixelAt canvas x y)),
     Returned).
Proof.
  intros Hw Hh. unfold removeColorRange.
  rewrite getImageData_positive by assumption. cbv beta iota zeta.
  simpl width. simpl height. simpl data.
  rewrite removeColorLoop_buildData.
  unfold putImageData, mapPixels. f_equal.
  apply buildBitmap_ext. intros x y Hx Hy.
  change (mkBitmap (width canvas) (height canvas) (buildData ?a ?b ?f))
    with (buildBitmap a b f).
  replace (inBounds (buildBitmap _ _ _) x y) with true
    by (symmetry; apply inBounds_true; simpl; lia).
  rewrite pixelAt_buildBitmap by assumption. reflexivity.
Qed.

(** ** The canvas follows the image *)

Section Sync.
Context (host : Host).

Lemma render_canvasInSync (prev next : EditorState) :
  mode prev <> Some Mode.crop -> mode next = mode prev ->
  match canvasRef next with
  | Some c =>
      isDrawing next = false -> imageSrc next = imageSrc prev ->
      c = decode (imageSrc next)
  | None => False
  end ->
  canvasInSync (render prev next).
Proof.
  intros Hm Hmode Hc. unfold render, canvasInSync.
  rewrite decide_False by congruence.
  destruct (decide (imageSrc next = imageSrc prev /\ mode next = mode prev))
    as [[Hs _]|Hn].
  - destruct (canvasRef next) as [c|]; [|contradiction].
    split; [congruence|]. intros Hd. apply Hc; assumption.
  - destruct next; simpl in *. split; [congruence|]. reflexivity.
Qed.

Lemma render_canvasInSync_fresh (prev next : EditorState) :
  mode next <> mode prev -> canvasInSync (render prev next).
Proof.
  intros Hm. unfold render, canvasInSync.
  destruct (decide (mode next = Some Mode.crop)) as [Hc|Hc].
  - destruct next; simpl in *. exact Hc.
  - rewrite decide_False by (intros [_ ?]; contradiction).
    destruct next; simpl in *. split; [exact Hc|reflexivity].
Qed.

Lemma render_canvasInSync_crop (prev next : EditorState) :
  mode next = Some Mode.crop -> canvasInSync (render prev next).
Proof.
  intros Hm. unfold render, canvasInSync.
  rewrite decide_True by exact Hm. destruct next; simpl in *. exact Hm.
Qed.

Lemma step_canvasInSync (e : Event) (s s' : EditorState) :
  canvasInSync s -> step host s e = Some s' -> canvasInSync s'.
Proof.
  intros Hsync H. unfold step in H.
  destruct (handle host e s) as [s1|] eqn:E; [|discriminate].
  simpl in H. simplify_eq.
  destruct (decide (mode s1 = mode s)) as [Hmode|Hmode];
    [|apply render_canvasInSync_fresh; exact Hmode].
  destruct (decide (mode s = Some Mode.crop)) as [Hcrop|Hcrop];
    [apply render_canvasInSync_crop; congruence|].
  apply render_canvasInSync; [assumption..|].
  unfold canvasInSync in Hsync.
  destruct (canvasRef s) as [c|] eqn:Hc; [|contradiction].
  destruct Hsync as [_ Hsync].
  destruct e; unfold handle in E;
    try (unfold handleUndo, handleRedo in E);
    try (unfold startInteraction in E);
    try (unfold moveInteraction, endInteraction, applyFilters, performCrop,
           handleRemoveBg, filterPreviewOnClick, filterSliderOnChange in E);
    repeat case_match; simplify_eq;
    try (crush_state; simplify_eq; intros; auto; congruence).
  all: crush_state; simplify_eq; intros Hd Hs; rewrite Hs; auto.
Qed.

End Sync.

Lemma canvasInSync_determined (s s' : EditorState) :
  canvasInSync s -> canvasInSync s' ->
  mode s' = mode s -> imageSrc s' = imageSrc s ->
  isDrawing s = false -> isDrawing s' = false ->
  canvasRef s' = canvasRef s.
Proof.
  unfold canvasInSync. intros H H' Hm Hs Hd Hd'.
  destruct (canvasRef s) as [c|], (canvasRef s') as [c'|].
  - destruct H as [_ H], H' as [_ H']. rewrite H, H' by assumption.
    rewrite Hs. reflexivity.
  - destruct H as [H _]. congruence.
  - destruct H' as [H' _]. congruence.
  - reflexivity.
Qed.

Lemma canvasInSync_initial (initialImage : Src) :
  canvasInSync (initialState initialImage).
Proof. unfold canvasInSync. simpl. split; [discriminate|reflexivity]. Qed.

Section Sessions.
Context (host : Host).

Lemma run_canvasInSync (es : list Event) (s s' : EditorState) :
  canvasInSync s -> run host s es = Some s' -> canvasInSync s'.
Proof.
  revert s. induction es as [|e es IH]; intros s Hs H; simpl in H.
  - congruence.
  - destruct (step host s e) as [s1|] eqn:E; [|discriminate].
    simpl in H. eapply IH; [|exact H].
    eapply step_canvasInSync; eassumption.
Qed.

(** Undo with an entry to go back to. *)
Lemma step_Undo_fields (s : EditorState) :
  wfHistory s -> 0 < historyIndex s ->
  exists (e : HistoryState.t) (s1 : EditorState),
    at_index (history s) (historyIndex s - 1) = Some e
    /\ step host s Undo = Some s1
    /\ history s1 = history s
    /\ historyIndex s1 = historyIndex s - 1
    /\ imageSrc s1 = HistoryState.src e
    /\ filters s1 = HistoryState.filters e
    /\ lastAppliedFilters s1 = HistoryState.filters e
    /\ mode s1 = mode s
    /\ isDrawing s1 = isDrawing s
    /\ drawSize s1 = drawSize s.
Proof.
  intros [Hlo Hhi] Hpos.
  destruct (at_index_is_Some (history s) (historyIndex s - 1)) as [e He];
    [lia|].
  exists e. unfold step, handle, handleUndo.
  destruct (Z.eqb_spec (historyIndex s) 0); [lia|].
  destruct (Z.gtb_spec (historyIndex s) 0); [|lia].
  rewrite He. eexists. split; [reflexivity|]. split; [reflexivity|].
  set (next := setLastAppliedFilters _ _).
  pose proof (render_fields s next) as (Hh & Hi & Hs & Hf & Hl & Hm & Hd).
  rewrite Hh, Hi, Hs, Hf, Hl, Hm, Hd, render_drawSize.
  destruct s; repeat split.
Qed.

(** Redo with an entry to go forward to. *)
Lemma step_Redo_fields (s : EditorState) :
  wfHistory s -> historyIndex s < Z.of_nat (length (history s)) - 1 ->
  exists (e : HistoryState.t) (s1 : EditorState),
    at_index (history s) (historyIndex s + 1) = Some e
    /\ step host s Redo = Some s1
    /\ history s1 = history s
    /\ historyIndex s1 = historyIndex s + 1
    /\ imageSrc s1 = HistoryState.src e
    /\ filters s1 = HistoryState.filters e
    /\ lastAppliedFilters s1 = HistoryState.filters e
    /\ mode s1 = mode s
    /\ isDrawing s1 = isDrawing s
    /\ drawSize s1 = drawSize s.
Proof.
  intros [Hlo Hhi] Hlt.
  destruct (at_index_is_Some (history s) (historyIndex s + 1)) as [e He];
    [lia|].
  exists e. unfold step, handle, handleRedo.
  destruct (Z.eqb_spec (historyIndex s) (Z.of_nat (length (history s)) - 1));
    [lia|].
  destruct (Z.ltb_spec (historyIndex s) (Z.of_nat (length (history s)) - 1));
    [|lia].
  rewrite He. eexists. split; [reflexivity|]. split; [reflexivity|].
  set (next := setLastAppliedFilters _ _).
  pose proof (render_fields s next) as (Hh & Hi & Hs & Hf & Hl & Hm & Hd).
  rewrite Hh, Hi, Hs, Hf, Hl, Hm, Hd, render_drawSize.
  destruct s; repeat split.
Qed.

End Sessions.

Section Brush.
Context (host : Host).

(** The brush size stays in the range of its sliders. *)
Lemma step_drawSize_range (e : Event) (s s' : EditorState) :
  step host s e = Some s' -> 1 <= drawSize s <= 50 -> 1 <= drawSize s' <= 50.
Proof.
  unfold step. intros H Hr.
  destruct (handle host e s) as [s1|] eqn:E; [|discriminate].
  simpl in H. simplify_eq. rewrite render_drawSize.
  destruct e; unfold handle in E;
    try (unfold handleUndo, handleRedo in E);
    try (unfold startInteraction in E);
    try (unfold moveInteraction, endInteraction, applyFilters, performCrop,
           handleRemoveBg, filterPreviewOnClick, filterSliderOnChange in E);
    repeat case_match; simplify_eq;
    try (crush_state; assumption).
  match goal with
  | Hb : bool_decide _ = true |- _ => apply bool_decide_eq_true_1 in Hb
  end.
  crush_state. lia.
Qed.

Lemma run_drawSize_range (es : list Event) (s s' : EditorState) :
  run host s es = Some s' -> 1 <= drawSize s <= 50 -> 1 <= drawSize s' <= 50.
Proof.
  revert s. induction es as [|e es IH]; intros s H Hr; simpl in H.
  - congruence.
  - destruct (step host s e) as [s1|] eqn:E; [|discriminate].
    simpl in H. eapply IH; [exact H|].
    eapply step_drawSize_range; eassumption.
Qed.

End Brush.

Section Clicks.
Context (host : Host).

(** Pressing on the canvas outside the repair tool: the stroke starts and
    the canvas is left alone. *)
Lemma step_PointerDown_plain (s : EditorState) (pos : Z * Z) (c : Bitmap) :
  mode s = Some Mode.draw \/ mode s = Some Mode.remove_bg ->
  canvasRef s = Some c ->
  step host s (PointerDown pos)
  = Some (setLastPos (Some pos) (setIsDrawing true s)).
Proof.
  intros Hm Hc.
  assert (Hshown : bool_decide (mode s <> Some Mode.crop
                                /\ mode s <> Some Mode.compress) = true).
  { apply bool_decide_eq_true_2.
    destruct Hm as [Hm|Hm]; rewrite Hm; split; discriminate. }
  unfold step, handle. rewrite Hshown. unfold startInteraction.
  destruct Hm as [Hm|Hm]; rewrite Hm; simpl;
    unfold render; destruct s; simpl in *; subst;
    rewrite decide_False by discriminate;
    rewrite decide_True by (split; reflexivity); reflexivity.
Qed.

Lemma canvasInSync_shown (s : EditorState) :
  canvasInSync s -> isDrawing s = false -> mode s <> Some Mode.crop ->
  canvasRef s = Some (decode (imageSrc s)).
Proof.
  unfold canvasInSync. intros Hsync Hd Hm.
  destruct (canvasRef s) as [c|]; [|contradiction].
  destruct Hsync as [_ Hsync]. rewrite Hsync by exact Hd. reflexivity.
Qed.

Lemma step_PointerUp_drawing (s : EditorState) (c : Bitmap) :
  mode s <> Some Mode.crop -> mode s <> Some Mode.compress ->
  isDrawing s = true -> canvasRef s = Some c ->
  exists s1,
    step host s PointerUp = Some s1
    /\ history s1
       = slice0 (historyIndex s + 1) (history s)
         ++ [HistoryState.mk (toDataURL c) (filters s)]
    /\ historyIndex s1 = Z.of_nat (length (history s1)) - 1
    /\ imageSrc s1 = toDataURL c
    /\ filters s1 = filters s
    /\ lastAppliedFilters s1 = lastAppliedFilters s
    /\ mode s1 = mode s
    /\ isDrawing s1 = false.
Proof.
  intros Hm1 Hm2 Hd Hc. unfold step, handle.
  rewrite bool_decide_eq_true_2 by (split; assumption).
  eexists. split; [reflexivity|].
  pose proof (render_fields s (endInteraction s))
    as (Hh & Hi & Hs & Hf & Hl & Hmo & Hdr).
  rewrite Hh, Hi, Hs, Hf, Hl, Hmo, Hdr.
  unfold endInteraction. rewrite Hd, Hc.
  destruct s; repeat split.
Qed.

End Clicks.

Section ApplyUndo.
Context (host : Host).

Lemma step_Apply_fields (s : EditorState) :
  mode s = Some Mode.adjust \/ mode s = Some Mode.filter ->
  hasChanges s = true ->
  exists s1 : EditorState,
    step host s Apply = Some s1
    /\ history s1
       = slice0 (historyIndex s + 1) (history s)
         ++ [HistoryState.mk (imageSrc s) (filters s)]
    /\ historyIndex s1 = Z.of_nat (length (history s1)) - 1
    /\ imageSrc s1 = imageSrc s
    /\ filters s1 = filters s
    /\ lastAppliedFilters s1 = filters s
    /\ mode s1 = mode s
    /\ isDrawing s1 = isDrawing s
    /\ drawSize s1 = drawSize s.
Proof.
  intros Hm Hch. unfold step, handle.
  rewrite bool_decide_eq_true_2 by exact Hm. rewrite Hch. simpl andb.
  cbv iota. eexists. split; [reflexivity|].
  pose proof (render_fields s (applyFilters s))
    as (Hh & Hi & Hs & Hf & Hl & Hmo & Hdr).
  rewrite Hh, Hi, Hs, Hf, Hl, Hmo, Hdr, render_drawSize.
  unfold applyFilters. destruct s; repeat split.
Qed.

End ApplyUndo.

(** ** Strokes *)

Section Pen.
Context (host : Host).

Lemma step_PointerMove_draw (s : EditorState) (last pos : Z * Z)
    (c : Bitmap) :
  mode s = Some Mode.draw -> isDrawing s = true ->
  lastPos s = Some last -> canvasRef s = Some c ->
  step host s (PointerMove pos)
  = Some (setLastPos (Some pos)
            (setCanvasRef
               (Some (strokeLine host c last pos (drawColor s) (drawSize s)))
               s)).
Proof.
  intros Hm Hd Hl Hc. unfold step, handle.
  rewrite bool_decide_eq_true_2 by (rewrite Hm; split; discriminate).
  unfold moveInteraction. rewrite Hd, Hl, Hc.
  rewrite decide_True by exact Hm. simpl. unfold render.
  destruct s; simpl in *. subst.
  rewrite decide_False by discriminate.
  rewrite decide_True by (split; reflexivity). reflexivity.
Qed.

Lemma step_PointerMove_idle (s : EditorState) (pos : Z * Z) (c : Bitmap) :
  mode s <> Some Mode.draw -> mode s <> Some Mode.crop ->
  canvasRef s = Some c ->
  step host s (PointerMove pos) = Some s.
Proof.
  intros Hm Hcrop Hc. unfold step, handle.
  assert (Hmove : moveInteraction host pos s = s).
  { unfold moveInteraction. repeat case_match; try reflexivity.
    contradiction. }
  rewrite Hmove. destruct (bool_decide _); simpl; unfold render;
    rewrite decide_False by exact Hcrop;
    rewrite decide_True by (split; reflexivity); reflexivity.
Qed.

Lemma run_PointerMoves_draw (ps : list (Z * Z)) :
  forall (s : EditorState) (last : Z * Z) (c : Bitmap),
    mode s = Some Mode.draw -> isDrawing s = true ->
    lastPos s = Some last -> canvasRef s = Some c ->
    run host s (PointerMove <$> ps)
    = Some (setLastPos (Some (fold_left (fun _ p => p) ps last))
              (setCanvasRef
                 (Some (polyline host (drawColor s) (drawSize s) c last ps))
                 s)).
Proof.
  induction ps as [|p ps IH]; intros s last c Hm Hd Hl Hc.
  - simpl. destruct s; simpl in *. subst. reflexivity.
  - rewrite fmap_cons. simpl run.
    rewrite (step_PointerMove_draw s last p c) by assumption. simpl.
    rewrite (IH _ p (strokeLine host c last p (drawColor s) (drawSize s)));
      destruct s; simpl in *; assumption || reflexivity.
Qed.

Lemma run_PointerMoves_idle (ps : list (Z * Z)) (s : EditorState)
    (c : Bitmap) :
  mode s <> Some Mode.draw -> mode s <> Some Mode.crop ->
  canvasRef s = Some c ->
  run host s (PointerMove <$> ps) = Some s.
Proof.
  intros Hm Hcrop Hc. induction ps as [|p ps IH]; [reflexivity|].
  rewrite fmap_cons. simpl run.
  rewrite (step_PointerMove_idle s p c) by assumption. simpl. exact IH.
Qed.

Lemma step_PointerDown_repair (s : EditorState) (pos : Z * Z) (c : Bitmap) :
  mode s = Some Mode.repair -> 0 < drawSize s -> canvasRef s = Some c ->
  step host s (PointerDown pos)
  = Some (setCanvasRef (Some (repaired host s pos c))
            (setLastPos (Some pos) (setIsDrawing true s))).
Proof.
  intros Hm Hsize Hc. unfold step, handle.
  rewrite bool_decide_eq_true_2 by (rewrite Hm; split; discriminate).
  unfold startInteraction, repaired. rewrite Hm, Hc. simpl.
  destruct (repairType s).
  - pose proof (spotFix_returns host c (inject_Z pos.1) (inject_Z pos.2)
                  (drawSize s * 2) ltac:(lia)) as Hret.
    destruct (spotFix host c (inject_Z pos.1) (inject_Z pos.2)
                (drawSize s * 2)) as [c' o].
    simpl in Hret. subst o. simpl. unfold render.
    destruct s; simpl in *. subst.
    rewrite decide_False by discriminate.
    rewrite decide_True by (split; reflexivity). reflexivity.
  - pose proof (removeRedEye_returns host c (inject_Z pos.1) (inject_Z pos.2)
                  (drawSize s) Hsize) as Hret.
    destruct (removeRedEye host c (inject_Z pos.1) (inject_Z pos.2)
                (drawSize s)) as [c' o].
    simpl in Hret. subst o. simpl. unfold render.
    destruct s; simpl in *. subst.
    rewrite decide_False by discriminate.
    rewrite decide_True by (split; reflexivity). reflexivity.
Qed.

End Pen.

Lemma run_app (host : Host) (es1 es2 : list Event) (s : EditorState) :
  run host s (es1 ++ es2) = run host s es1 ≫= fun s' => run host s' es2.
Proof.
  revert s. induction es1 as [|e es1 IH]; intros s; [reflexivity|].
  simpl. destruct (step host s e) as [s1|]; [|reflexivity]. simpl. apply IH.
Qed.

Section StrokeRuns.
Context (host : Host).

(** A stroke from press to release, given what the press and the moves leave
    on the canvas. *)
Lemma run_stroke (s s1 : EditorState) (pos : Z * Z) (ps : list (Z * Z))
    (c' : Bitmap) :
  wfState s -> canvasInSync s ->
  mode s <> Some Mode.crop -> mode s <> Some Mode.compress ->
  run host s (PointerDown pos :: (PointerMove <$> ps)) = Some s1 ->
  isDrawing s1 = true -> canvasRef s1 = Some c' ->
  history s1 = history s -> historyIndex s1 = historyIndex s ->
  filters s1 = filters s -> mode s1 = mode s ->
  exists s2 : EditorState,
    run host s (PointerDown pos :: (PointerMove <$> ps) ++ [PointerUp])
    = Some s2
    /\ imageSrc s2 = toDataURL c'
    /\ canvasRef s2 = Some c'
    /\ history s2
       = take (Z.to_nat (historyIndex s + 1)) (history s)
         ++ [HistoryState.mk (toDataURL c') (filters s)]
    /\ historyIndex s2 = historyIndex s + 1
    /\ filters s2 = filters s
    /\ mode s2 = mode s
    /\ isDrawing s2 = false.
Proof.
  intros ([Hlo Hhi] & _ & _) Hsync Hm1 Hm2 Hrun Hd Hc Hh Hi Hf Hm.
  destruct (step_PointerUp_drawing host s1 c')
    as (s2 & H2 & Hh2 & Hi2 & Hs2 & Hf2 & Hl2 & Hmo2 & Hd2);
    try assumption; try congruence.
  rewrite Hh, Hi, Hf in Hh2. rewrite slice0_take in Hh2 by lia.
  exists s2.
  assert (Hall : run host s (PointerDown pos :: (PointerMove <$> ps)
                             ++ [PointerUp]) = Some s2).
  { rewrite app_comm_cons, run_app, Hrun. simpl. rewrite H2. reflexivity. }
  split; [exact Hall|]. split; [exact Hs2|].
  split.
  { replace c' with (decode (imageSrc s2)) by (rewrite Hs2; reflexivity).
    apply canvasInSync_shown; [|exact Hd2|congruence].
    eapply run_canvasInSync; [exact Hsync|exact Hall]. }
  split; [exact Hh2|].
  split; [rewrite Hi2, Hh2, length_app, length_take; simpl; lia|].
  split; [congruence|]. split; [congruence|exact Hd2].
Qed.

End StrokeRuns.

(** ** Objects *)

(** Writing a property back to the value it had gives the object back. *)
Lemma setProp_back (k : string) (v v0 : Z) (o : Obj) :
  getProp k o = Some v0 -> setProp k v0 (setProp k v o) = o.
Proof.
  induction o as [|[k' v'] o IH]; simpl; [discriminate|].
  destruct (decide (k' = k)) as [->|Hne]; simpl.
  - intros [= ->]. rewrite decide_True by reflexivity. reflexivity.
  - intros H. rewrite decide_False by exact Hne. rewrite IH by exact H.
    reflexivity.
Qed.

Lemma setProp_changes (k : string) (v v0 : Z) (o : Obj) :
  getProp k o = Some v0 -> v <> v0 -> setProp k v o <> o.
Proof.
  intros H Hne Heq.
  pose proof (getProp_setProp k k v o) as Hg.
  rewrite Heq, H, decide_True in Hg by reflexivity. congruence.
Qed.

Lemma getProp_deleteProp (k k0 : string) (o : Obj) :
  k <> k0 -> getProp k (deleteProp k0 o) = getProp k o.
Proof.
  intros Hne. induction o as [|[k' v'] o IH]; [reflexivity|]. simpl.
  destruct (decide (k' = k0)) as [->|Hk]; simpl.
  - rewrite IH, decide_False by congruence. reflexivity.
  - rewrite IH. reflexivity.
Qed.

Lemma deleteProp_app (k0 : string) (o1 o2 : Obj) :
  deleteProp k0 (o1 ++ o2) = deleteProp k0 o1 ++ deleteProp k0 o2.
Proof.
  induction o1 as [|[k' v'] o1 IH]; [reflexivity|]. simpl.
  destruct (decide (k' = k0)); rewrite IH; reflexivity.
Qed.

Lemma deleteProp_reverse (k0 : string) (o : Obj) :
  reverse (deleteProp k0 o) = deleteProp k0 (reverse o).
Proof.
  induction o as [|[k' v'] o IH]; [reflexivity|]. simpl.
  rewrite reverse_cons, deleteProp_app, <- IH. simpl.
  destruct (decide (k' = k0)).
  - rewrite app_nil_r. reflexivity.
  - rewrite reverse_cons. reflexivity.
Qed.

(** A property other than [k0] of a spread does not depend on the [k0]
    entries of the object spread over the base. *)
Lemma getProp_spread_deleteProp (k k0 : string) (base over : Obj) :
  k <> k0 ->
  getProp k (spread base (deleteProp k0 over)) = getProp k (spread base over).
Proof.
  intros Hne. rewrite !getProp_spread, deleteProp_reverse.
  rewrite getProp_deleteProp by exact Hne. reflexivity.
Qed.

(** ** The adjustments stay complete *)




Lemma complete_slice0 (h : list HistoryState.t) (n : Z) (e : HistoryState.t) :
  Forall (fun e => complete (HistoryState.filters e)) h ->
  complete (HistoryState.filters e) ->
  Forall (fun e => complete (HistoryState.filters e)) (slice0 n h ++ [e]).
Proof.
  intros H He. apply Forall_app. split.
  - unfold slice0. apply Forall_take. exact H.
  - apply Forall_singleton. exact He.
Qed.

Lemma filtersComplete_addToHistory (newSrc : Src) (s : EditorState) :
  filtersComplete s -> filtersComplete (addToHistory newSrc (filters s) s).
Proof.
  intros (Hf & Hl & Hh). unfold filtersComplete, addToHistory.
  destruct s; simpl in *. split; [exact Hf|]. split; [exact Hl|].
  apply complete_slice0; assumption.
Qed.

Section Complete.
Context (host : Host).



End Complete.


(** ** Apply Crop *)

Section Crop.
Context (host : Host).

(** Apply Crop that fails leaves the crop view as it is. *)
Lemma step_ApplyCrop_unchanged (s : EditorState) (ctx2d : bool)
    (finalCrop : option PixelCrop.t) :
  mode s = Some Mode.crop -> canvasRef s = None ->
  performCrop host ctx2d finalCrop s = s ->
  step host s (ApplyCrop ctx2d finalCrop) = Some s.
Proof.
  intros Hm Hc Hp. unfold step, handle. rewrite Hp. simpl. unfold render.
  rewrite decide_True by exact Hm. destruct s; simpl in *. subst. reflexivity.
Qed.

End Crop.

(** ** The Editor component *)

Section EditorHistory.
Context {Line : Type}.

Lemma editor_addToHistory_wf (newImageSrc : Src) (s : Editor.State Line) :
  Editor.wf s -> Editor.wf (Editor.addToHistory newImageSrc s).
Proof.
  unfold Editor.wf, Editor.addToHistory. intros H. destruct s; simpl in *.
  rewrite length_app. simpl. lia.
Qed.

End EditorHistory.

(** * Further theorems *)

(** X1. From a freshly loaded image every sequence of events is handled to
    its end, no handler raising an exception, and in the state reached the
    index points into the history, the entry it points to is the image
    shown, the brush size is within 1..50, the canvas is off the page exactly
    in the crop view, and outside the crop view, when no stroke is in
    progress, the canvas holds the pixels of the image shown. *)
Theorem session_keeps_invariants (host : Host) (initialImage : Src)
    (es : list Event) :
  exists s : EditorState,
    run host (initialState initialImage) es = Some s
    /\ 0 <= historyIndex s < Z.of_nat (length (history s))
    /\ HistoryState.src <$> at_index (history s) (historyIndex s)
       = Some (imageSrc s)
    /\ 1 <= drawSize s <= 50
    /\ (mode s = Some Mode.crop <-> canvasRef s = None)
    /\ (isDrawing s = false -> mode s <> Some Mode.crop ->
        canvasRef s = Some (decode (imageSrc s))).
Proof.
  destruct (run_total host es (initialState initialImage)
              (wfState_initial initialImage)) as [s Hs].
  exists s. split; [exact Hs|].
  pose proof (run_wfState host es _ s (wfState_initial initialImage) Hs)
    as (Hwf & Hsrc & _).
  pose proof (run_canvasInSync host es _ s (canvasInSync_initial initialImage)
                Hs) as Hsync.
  pose proof (run_drawSize_range host es _ s Hs ltac:(simpl; lia)) as Hsize.
  split; [exact Hwf|]. split; [exact Hsrc|]. split; [exact Hsize|].
  unfold canvasInSync in Hsync. destruct (canvasRef s) as [c|].
  - destruct Hsync as [Hm Hc]. split.
    + split; [contradiction|discriminate].
    + intros Hd _. rewrite Hc by exact Hd. reflexivity.
  - split; [split; auto|]. intros _ Hm. contradiction.
Qed.

(** X2. In a state of the editor with no stroke in progress, undo followed
    by redo (when there is an entry to go back to) and redo followed by undo
    (when there is one to go forward to) leave the history, the index, the
    image and the canvas as they were; the live and the last-applied
    adjustments end as those of the current entry, so slider changes that
    were not applied are gone. *)
Theorem undo_redo_round_trip (host : Host) (s : EditorState) :
  wfState s -> canvasInSync s -> isDrawing s = false ->
  (0 < historyIndex s ->
   exists (e : HistoryState.t) (s2 : EditorState),
     at_index (history s) (historyIndex s) = Some e
     /\ run host s [Undo; Redo] = Some s2
     /\ history s2 = history s
     /\ historyIndex s2 = historyIndex s
     /\ imageSrc s2 = imageSrc s
     /\ canvasRef s2 = canvasRef s
     /\ filters s2 = HistoryState.filters e
     /\ lastAppliedFilters s2 = HistoryState.filters e)
  /\ (historyIndex s < Z.of_nat (length (history s)) - 1 ->
      exists (e : HistoryState.t) (s2 : EditorState),
        at_index (history s) (historyIndex s) = Some e
        /\ run host s [Redo; Undo] = Some s2
        /\ history s2 = history s
        /\ historyIndex s2 = historyIndex s
        /\ imageSrc s2 = imageSrc s
        /\ canvasRef s2 = canvasRef s
        /\ filters s2 = HistoryState.filters e
        /\ lastAppliedFilters s2 = HistoryState.filters e).
Proof.
  intros Hwf Hsync Hd. pose proof Hwf as (Hh & Hsrc & Hsize). split.
  - intros Hpos.
    destruct (step_Undo_fields host s Hh Hpos)
      as (e1 & s1 & He1 & Hs1 & Hh1 & Hi1 & Hsrc1 & Hf1 & Hl1 & Hm1 & Hd1 & _).
    assert (Hwf1 : wfHistory s1).
    { unfold wfHistory in *. rewrite Hh1, Hi1. lia. }
    destruct (step_Redo_fields host s1 Hwf1)
      as (e & s2 & He & Hs2 & Hh2 & Hi2 & Hsrc2 & Hf2 & Hl2 & Hm2 & Hd2 & _).
    { unfold wfHistory in Hh. rewrite Hh1, Hi1. lia. }
    rewrite Hh1, Hi1 in He.
    replace (historyIndex s - 1 + 1) with (historyIndex s) in He by lia.
    exists e, s2. split; [exact He|].
    rewrite He in Hsrc. simpl in Hsrc. simplify_eq.
    split; [simpl; rewrite Hs1; simpl; rewrite Hs2; reflexivity|].
    split; [congruence|]. split; [lia|]. split; [congruence|].
    split; [|split; assumption].
    apply canvasInSync_determined; try congruence.
    eapply step_canvasInSync; [|exact Hs2].
    eapply step_canvasInSync; [|exact Hs1]. exact Hsync.
  - intros Hlt.
    destruct (step_Redo_fields host s Hh Hlt)
      as (e1 & s1 & He1 & Hs1 & Hh1 & Hi1 & Hsrc1 & Hf1 & Hl1 & Hm1 & Hd1 & _).
    assert (Hwf1 : wfHistory s1).
    { unfold wfHistory in *. rewrite Hh1, Hi1. lia. }
    destruct (step_Undo_fields host s1 Hwf1)
      as (e & s2 & He & Hs2 & Hh2 & Hi2 & Hsrc2 & Hf2 & Hl2 & Hm2 & Hd2 & _).
    { unfold wfHistory in Hh. rewrite Hi1. lia. }
    rewrite Hh1, Hi1 in He.
    replace (historyIndex s + 1 - 1) with (historyIndex s) in He by lia.
    exists e, s2. split; [exact He|].
    rewrite He in Hsrc. simpl in Hsrc. simplify_eq.
    split; [simpl; rewrite Hs1; simpl; rewrite Hs2; reflexivity|].
    split; [congruence|]. split; [lia|]. split; [congruence|].
    split; [|split; assumption].
    apply canvasInSync_determined; try congruence.
    eapply step_canvasInSync; [|exact Hs2].
    eapply step_canvasInSync; [|exact Hs1]. exact Hsync.
Qed.

Lemma undo_redo_round_trip_witness :
  exists (e : HistoryState.t) (s2 : EditorState),
    at_index (history pendingSynced) (historyIndex pendingSynced) = Some e
    /\ run plainHost pendingSynced [Undo; Redo] = Some s2
    /\ history s2 = history pendingSynced
    /\ historyIndex s2 = historyIndex pendingSynced
    /\ imageSrc s2 = imageSrc pendingSynced
    /\ canvasRef s2 = canvasRef pendingSynced
    /\ filters s2 = HistoryState.filters e
    /\ lastAppliedFilters s2 = HistoryState.filters e.
Proof.
  apply (undo_redo_round_trip plainHost pendingSynced).
  - split; [unfold wfHistory; simpl; lia|]. split; [reflexivity|simpl; lia].
  - unfold canvasInSync. simpl. split; [discriminate|reflexivity].
  - reflexivity.
  - simpl. lia.
Defined.

(** X3. Apply, pressed in the adjust or the filter panel with changes
    pending, is one step of the history: undo right after it shows the same
    image with the adjustments of the entry that was current before, live
    and last applied, redo after that brings the applied adjustments back,
    and after each of the three nothing is pending. *)
Theorem apply_undo_redo (host : Host) (s : EditorState) :
  wfState s ->
  mode s = Some Mode.adjust \/ mode s = Some Mode.filter ->
  hasChanges s = true ->
  exists (e : HistoryState.t) (s1 s2 s3 : EditorState),
    at_index (history s) (historyIndex s) = Some e
    /\ step host s Apply = Some s1
    /\ step host s1 Undo = Some s2
    /\ step host s2 Redo = Some s3
    /\ historyIndex s1 = historyIndex s + 1
    /\ historyIndex s2 = historyIndex s
    /\ historyIndex s3 = historyIndex s + 1
    /\ imageSrc s1 = imageSrc s /\ imageSrc s2 = imageSrc s
    /\ imageSrc s3 = imageSrc s
    /\ filters s2 = HistoryState.filters e
    /\ lastAppliedFilters s2 = HistoryState.filters e
    /\ filters s3 = filters s
    /\ lastAppliedFilters s3 = filters s
    /\ hasChanges s1 = false /\ hasChanges s2 = false
    /\ hasChanges s3 = false.
Proof.
  intros ([Hlo Hhi] & Hsrc & Hsize) Hm Hch.
  destruct (at_index (history s) (historyIndex s)) as [e|] eqn:He;
    [|discriminate].
  simpl in Hsrc. simplify_eq.
  destruct (step_Apply_fields host s Hm Hch)
    as (s1 & H1 & Hh1 & Hi1 & Hs1 & Hf1 & Hl1 & Hm1 & _).
  rewrite slice0_take in Hh1 by lia.
  assert (Hlen1 : Z.of_nat (length (history s1)) = historyIndex s + 2).
  { rewrite Hh1, length_app, length_take. simpl. lia. }
  assert (Hwf1 : wfHistory s1) by (unfold wfHistory; lia).
  destruct (step_Undo_fields host s1 Hwf1 ltac:(lia))
    as (e1 & s2 & He1 & H2 & Hh2 & Hi2 & Hs2 & Hf2 & Hl2 & _).
  assert (Hee : e1 = e).
  { rewrite at_index_lookup in He1, He by lia.
    rewrite Hh1, lookup_app_l in He1 by (rewrite length_take; lia).
    rewrite lookup_take_lt in He1 by lia.
    replace (Z.to_nat (historyIndex s1 - 1)) with (Z.to_nat (historyIndex s))
      in He1 by lia.
    congruence. }
  subst e1.
  assert (Hwf2 : wfHistory s2) by (unfold wfHistory; rewrite Hh2, Hi2; lia).
  destruct (step_Redo_fields host s2 Hwf2 ltac:(rewrite Hh2, Hi2; lia))
    as (e3 & s3 & He3 & H3 & Hh3 & Hi3 & Hs3 & Hf3 & Hl3 & _).
  assert (He3' : e3 = HistoryState.mk (imageSrc s) (filters s)).
  { rewrite Hh2, Hi2 in He3.
    replace (historyIndex s1 - 1 + 1) with (Z.of_nat (length (history s1)) - 1)
      in He3 by lia.
    rewrite Hh1 in He3. rewrite at_index_last in He3. congruence. }
  subst e3. simpl in *.
  exists e, s1, s2, s3.
  split; [reflexivity|]. split; [exact H1|]. split; [exact H2|].
  split; [exact H3|].
  split; [lia|]. split; [lia|]. split; [lia|].
  split; [exact Hs1|]. split; [congruence|]. split; [congruence|].
  split; [exact Hf2|]. split; [exact Hl2|].
  split; [exact Hf3|]. split; [exact Hl3|].
  unfold hasChanges.
  split; [apply bool_decide_eq_false_2; rewrite Hf1, Hl1; auto|].
  split; [apply bool_decide_eq_false_2; rewrite Hf2, Hl2; auto|].
  apply bool_decide_eq_false_2; rewrite Hf3, Hl3; auto.
Qed.

Lemma apply_undo_redo_witness :
  exists (e : HistoryState.t) (s1 s2 s3 : EditorState),
    at_index (history (setMode (Some Mode.adjust) brightened))
      (historyIndex (setMode (Some Mode.adjust) brightened)) = Some e
    /\ step plainHost (setMode (Some Mode.adjust) brightened) Apply = Some s1
    /\ step plainHost s1 Undo = Some s2
    /\ step plainHost s2 Redo = Some s3
    /\ filters s2 = DEFAULT_FILTERS
    /\ filters s3 = filters brightened.
Proof.
  destruct (apply_undo_redo plainHost (setMode (Some Mode.adjust) brightened))
    as (e & s1 & s2 & s3 & He & H1 & H2 & H3 & _ & _ & _ & _ & _ & _ & Hf2 & _
        & Hf3 & _).
  - split; [unfold wfHistory; simpl; lia|]. split; [reflexivity|simpl; lia].
  - left. reflexivity.
  - reflexivity.
  - exists e, s1, s2, s3. split; [exact He|]. split; [exact H1|].
    split; [exact H2|]. split; [exact H3|].
    split; [|exact Hf3]. rewrite Hf2.
    simpl in He. injection He as <-. reflexivity.
Defined.

(** X4. What an event can touch.  Only lifting the pointer, Apply, Apply
    Crop and Remove Background can change the history; apart from these and
    from undo and redo no event changes the index or the image; apart from
    undo and redo only Apply changes the last-applied adjustments; and the
    live adjustments change only by undo, redo, a preset or a slider: a
    commit leaves them as they are. *)
Theorem history_changes_only_on_commit (host : Host) (e : Event)
    (s s' : EditorState) :
  step host s e = Some s' ->
  (commits e = false -> history s' = history s)
  /\ (commits e = false -> navigates e = false ->
      historyIndex s' = historyIndex s /\ imageSrc s' = imageSrc s)
  /\ (navigates e = false -> lastAppliedFilters s' <> lastAppliedFilters s ->
      e = Apply)
  /\ (filters s' <> filters s ->
      navigates e = true
      \/ (exists f, e = FilterPreview f) \/ exists k v, e = FilterSlider k v).
Proof.
  unfold step. intros H.
  destruct (handle host e s) as [s1|] eqn:E; [|discriminate].
  simpl in H. simplify_eq.
  pose proof (render_fields s s1) as (Hh & Hi & Hs & Hf & Hl & _).
  rewrite Hh, Hi, Hs, Hf, Hl.
  destruct e; simpl;
    (split; [|split; [|split]]); try discriminate; try (intros; reflexivity);
    try (intros; left; reflexivity);
    try (intros; right; left; eexists; reflexivity);
    try (intros; right; right; do 2 eexists; reflexivity);
    unfold handle in E;
    try (unfold handleUndo, handleRedo in E);
    try (unfold startInteraction in E);
    try (unfold moveInteraction, endInteraction, applyFilters, performCrop,
           handleRemoveBg, filterPreviewOnClick, filterSliderOnChange in E);
    repeat case_match; simplify_eq;
    try (crush_state; intros; simplify_eq; try split; congruence).
Qed.

Lemma history_changes_only_on_commit_witness :
  history (setMode (Some Mode.draw) (initialState upload))
  = history (initialState upload).
Proof.
  apply (history_changes_only_on_commit plainHost (ToolButton Mode.draw)
           (initialState upload)
           (setMode (Some Mode.draw) (initialState upload))).
  - reflexivity.
  - reflexivity.
Defined.

(** X5. With the background-removal panel open, a press on the canvas,
    any moves and the release commit: the entries after the current one are
    dropped (redo has nothing left) and one entry is added whose image is the
    PNG of the canvas, pixel for pixel the image that was shown, paired with
    the live adjustments. *)
Theorem canvas_press_commits_unchanged_image (host : Host) (s : EditorState)
    (pos : Z * Z) (ps : list (Z * Z)) :
  wfState s -> canvasInSync s -> isDrawing s = false ->
  mode s = Some Mode.remove_bg ->
  exists s2 : EditorState,
    run host s (PointerDown pos :: (PointerMove <$> ps) ++ [PointerUp])
    = Some s2
    /\ history s2
       = take (Z.to_nat (historyIndex s + 1)) (history s)
         ++ [HistoryState.mk (toDataURL (decode (imageSrc s))) (filters s)]
    /\ historyIndex s2 = historyIndex s + 1
    /\ Z.of_nat (length (history s2)) = historyIndex s + 2
    /\ imageSrc s2 = toDataURL (decode (imageSrc s))
    /\ decode (imageSrc s2) = decode (imageSrc s)
    /\ canvasRef s2 = canvasRef s
    /\ filters s2 = filters s
    /\ handleRedo s2 = Some s2.
Proof.
  intros Hwf Hsync Hd Hm. pose proof Hwf as ([Hlo Hhi] & _ & _).
  assert (Hc : canvasRef s = Some (decode (imageSrc s))).
  { apply canvasInSync_shown; try assumption. rewrite Hm. discriminate. }
  set (s0 := setLastPos (Some pos) (setIsDrawing true s)).
  assert (H0 : step host s (PointerDown pos) = Some s0)
    by (eapply step_PointerDown_plain; eauto).
  assert (H1 : run host s0 (PointerMove <$> ps) = Some s0).
  { apply (run_PointerMoves_idle host ps s0 (decode (imageSrc s)));
      unfold s0; destruct s; simpl in *; subst; try discriminate.
    reflexivity. }
  destruct (run_stroke host s s0 pos ps (decode (imageSrc s)))
    as (s2 & Hrun & Hs2 & Hc2 & Hh2 & Hi2 & Hf2 & _); try assumption;
    try (rewrite Hm; discriminate);
    try (unfold s0; destruct s; reflexivity).
  { simpl. rewrite H0. simpl. exact H1. }
  { unfold s0. destruct s; simpl in *. exact Hc. }
  assert (Hlen : Z.of_nat (length (history s2)) = historyIndex s + 2).
  { rewrite Hh2, length_app, length_take. simpl. lia. }
  exists s2. split; [exact Hrun|]. split; [exact Hh2|]. split; [exact Hi2|].
  split; [exact Hlen|]. split; [exact Hs2|].
  split; [rewrite Hs2; reflexivity|].
  split; [congruence|]. split; [exact Hf2|].
  unfold handleRedo.
  destruct (Z.ltb_spec (historyIndex s2) (Z.of_nat (length (history s2)) - 1));
    [lia|reflexivity].
Qed.

Lemma canvas_press_commits_unchanged_image_witness :
  exists s2 : EditorState,
    run plainHost (setMode (Some Mode.remove_bg) (initialState upload))
      (PointerDown (0, 0) :: (PointerMove <$> [(1, 1)]) ++ [PointerUp])
    = Some s2
    /\ Z.of_nat (length (history s2)) = 2
    /\ decode (imageSrc s2) = decode upload.
Proof.
  destruct (canvas_press_commits_unchanged_image plainHost
              (setMode (Some Mode.remove_bg) (initialState upload)) (0, 0)
              [(1, 1)])
    as (s2 & Hrun & _ & _ & Hlen & _ & Hdec & _).
  - split; [unfold wfHistory; simpl; lia|]. split; [reflexivity|simpl; lia].
  - unfold canvasInSync. simpl. split; [discriminate|reflexivity].
  - reflexivity.
  - reflexivity.
  - exists s2. split; [exact Hrun|]. split; [exact Hlen|exact Hdec].
Defined.

(** X6. A pen stroke.  In the draw tool, a press, any number of moves and
    the release paint the polyline through the pointer positions, one
    stroked segment for each move from where the pen was to where it is, in
    the brush colour and size, onto the image that was shown (a press and
    release without a move paints nothing), and commit the result once: the
    image, the canvas and the one new history entry are the painted raster,
    the new entry holding the live adjustments. *)
Theorem pen_stroke_paints_polyline (host : Host) (s : EditorState)
    (pos : Z * Z) (ps : list (Z * Z)) :
  wfState s -> canvasInSync s -> isDrawing s = false ->
  mode s = Some Mode.draw ->
  let painted :=
    polyline host (drawColor s) (drawSize s) (decode (imageSrc s)) pos ps in
  exists s2 : EditorState,
    run host s (PointerDown pos :: (PointerMove <$> ps) ++ [PointerUp])
    = Some s2
    /\ imageSrc s2 = toDataURL painted
    /\ canvasRef s2 = Some painted
    /\ history s2
       = take (Z.to_nat (historyIndex s + 1)) (history s)
         ++ [HistoryState.mk (toDataURL painted) (filters s)]
    /\ historyIndex s2 = historyIndex s + 1
    /\ filters s2 = filters s
    /\ mode s2 = mode s
    /\ isDrawing s2 = false.
Proof.
  intros Hwf Hsync Hd Hm painted.
  assert (Hc : canvasRef s = Some (decode (imageSrc s))).
  { apply canvasInSync_shown; try assumption. rewrite Hm. discriminate. }
  set (s0 := setLastPos (Some pos) (setIsDrawing true s)).
  assert (H0 : step host s (PointerDown pos) = Some s0)
    by (eapply step_PointerDown_plain; eauto).
  assert (H1 : run host s0 (PointerMove <$> ps)
               = Some (setLastPos (Some (fold_left (fun _ p => p) ps pos))
                         (setCanvasRef (Some painted) s0))).
  { rewrite (run_PointerMoves_draw host ps s0 pos (decode (imageSrc s)));
      unfold painted, s0; destruct s; simpl in *; assumption || reflexivity. }
  eapply (run_stroke host s _ pos ps painted); try assumption;
    try (rewrite Hm; discriminate).
  - simpl. rewrite H0. simpl. exact H1.
  - unfold s0. destruct s; reflexivity.
  - unfold s0. destruct s; reflexivity.
  - unfold s0. destruct s; reflexivity.
  - unfold s0. destruct s; reflexivity.
  - unfold s0. destruct s; reflexivity.
  - unfold s0. destruct s; reflexivity.
Qed.

Lemma pen_stroke_paints_polyline_witness :
  exists s2 : EditorState,
    run plainHost (setMode (Some Mode.draw) (initialState upload))
      (PointerDown (0, 0) :: (PointerMove <$> [(1, 0); (1, 1)]) ++ [PointerUp])
    = Some s2
    /\ imageSrc s2
       = toDataURL (mkBitmap 2 2 [100; 100; 100; 255; 255; 255; 255; 255;
                                  100; 100; 100; 255; 255; 255; 255; 255]).
Proof.
  destruct (pen_stroke_paints_polyline plainHost
              (setMode (Some Mode.draw) (initialState upload)) (0, 0)
              [(1, 0); (1, 1)])
    as (s2 & Hrun & Hsrc & _).
  - split; [unfold wfHistory; simpl; lia|]. split; [reflexivity|simpl; lia].
  - unfold canvasInSync. simpl. split; [discriminate|reflexivity].
  - reflexivity.
  - reflexivity.
  - exists s2. split; [exact Hrun|]. rewrite Hsrc. reflexivity.
Defined.

(** X7. A repair stroke.  In the repair tool the press applies the
    operator once at the pointer position, removeRedEye with the brush size
    as radius or spotFix with twice the brush size, to the image that was
    shown; the moves that follow change nothing; and the release commits the
    result once, as the image, the canvas and the one new history entry. *)
Theorem repair_press_commits_operator (host : Host) (s : EditorState)
    (pos : Z * Z) (ps : list (Z * Z)) :
  wfState s -> canvasInSync s -> isDrawing s = false ->
  mode s = Some Mode.repair ->
  let fixed := repaired host s pos (decode (imageSrc s)) in
  exists s2 : EditorState,
    run host s (PointerDown pos :: (PointerMove <$> ps) ++ [PointerUp])
    = Some s2
    /\ imageSrc s2 = toDataURL fixed
    /\ canvasRef s2 = Some fixed
    /\ history s2
       = take (Z.to_nat (historyIndex s + 1)) (history s)
         ++ [HistoryState.mk (toDataURL fixed) (filters s)]
    /\ historyIndex s2 = historyIndex s + 1
    /\ filters s2 = filters s
    /\ mode s2 = mode s
    /\ isDrawing s2 = false.
Proof.
  intros Hwf Hsync Hd Hm fixed. pose proof Hwf as (_ & _ & Hsize).
  assert (Hc : canvasRef s = Some (decode (imageSrc s))).
  { apply canvasInSync_shown; try assumption. rewrite Hm. discriminate. }
  set (s0 := setCanvasRef (Some fixed)
               (setLastPos (Some pos) (setIsDrawing true s))).
  assert (H0 : step host s (PointerDown pos) = Some s0)
    by (apply step_PointerDown_repair; assumption).
  assert (H1 : run host s0 (PointerMove <$> ps) = Some s0).
  { apply (run_PointerMoves_idle host ps s0 fixed);
      unfold s0; destruct s; simpl in *; subst; try discriminate.
    reflexivity. }
  eapply (run_stroke host s s0 pos ps fixed); try assumption;
    try (rewrite Hm; discriminate).
  - simpl. rewrite H0. simpl. exact H1.
  - unfold s0. destruct s; reflexivity.
  - unfold s0. destruct s; reflexivity.
  - unfold s0. destruct s; reflexivity.
  - unfold s0. destruct s; reflexivity.
  - unfold s0. destruct s; reflexivity.
  - unfold s0. destruct s; reflexivity.
Qed.

Lemma repair_press_commits_operator_witness :
  exists s2 : EditorState,
    run plainHost
      (setRepairType redeye
         (setMode (Some Mode.repair) (initialState (DataURL eyes))))
      (PointerDown (6, 6) :: (PointerMove <$> [(7, 7)]) ++ [PointerUp])
    = Some s2
    /\ imageSrc s2 = toDataURL (removeRedEye plainHost eyes 6 6 5).1.
Proof.
  destruct (repair_press_commits_operator plainHost
              (setRepairType redeye
                 (setMode (Some Mode.repair) (initialState (DataURL eyes))))
              (6, 6) [(7, 7)])
    as (s2 & Hrun & Hsrc & _).
  - split; [unfold wfHistory; simpl; lia|]. split; [reflexivity|simpl; lia].
  - unfold canvasInSync. simpl. split; [discriminate|reflexivity].
  - reflexivity.
  - reflexivity.
  - exists s2. split; [exact Hrun|]. rewrite Hsrc. reflexivity.
Defined.

(** X8. Moving a slider writes its one property of the live adjustments and
    nothing else, and moving it back to the value it had gives the live
    adjustments back as the same object, so what was pending before is what
    is pending after; moving it away from its value when nothing was pending
    makes a change pending. *)
Theorem slider_back_clears_pending (key : string) (v v0 : Z)
    (s : EditorState) :
  getProp key (filters s) = Some v0 ->
  let moved := filterSliderOnChange key v s in
  let back := filterSliderOnChange key v0 moved in
  getProp key (filters moved) = Some v
  /\ (forall k, k <> key -> getProp k (filters moved) = getProp k (filters s))
  /\ filters back = filters s
  /\ hasChanges back = hasChanges s
  /\ (hasChanges s = false -> v <> v0 -> hasChanges moved = true)
  /\ lastAppliedFilters moved = lastAppliedFilters s
  /\ history moved = history s.
Proof.
  intros Hk moved back.
  assert (Hm : filters moved = setProp key v (filters s))
    by (destruct s; reflexivity).
  assert (Hb : filters back = setProp key v0 (setProp key v (filters s)))
    by (destruct s; reflexivity).
  assert (Hl : lastAppliedFilters moved = lastAppliedFilters s)
    by (destruct s; reflexivity).
  assert (Hlb : lastAppliedFilters back = lastAppliedFilters s)
    by (destruct s; reflexivity).
  rewrite setProp_back in Hb by exact Hk.
  split; [rewrite Hm, getProp_setProp, decide_True by reflexivity; reflexivity|].
  split.
  { intros k Hne. rewrite Hm, getProp_setProp.
    rewrite decide_False by congruence. reflexivity. }
  split; [exact Hb|].
  split; [unfold hasChanges; rewrite Hb, Hlb; reflexivity|].
  split; [|split; [exact Hl|destruct s; reflexivity]].
  unfold hasChanges. intros Hs Hne.
  apply bool_decide_eq_false_1 in Hs.
  apply bool_decide_eq_true_2. rewrite Hm, Hl.
  assert (Heq : filters s = lastAppliedFilters s).
  { destruct (decide (filters s = lastAppliedFilters s)); [assumption|].
    contradiction. }
  rewrite <- Heq. apply (setProp_changes key v v0); assumption.
Qed.

Lemma slider_back_clears_pending_witness :
  filters (filterSliderOnChange "contrast" 100
             (filterSliderOnChange "contrast" 80 (initialState upload)))
  = filters (initialState upload).
Proof.
  apply (slider_back_clears_pending "contrast" 80 100 (initialState upload)).
  reflexivity.
Defined.

(** X9. The CSS filter shown after a preset was clicked is the one the
    preset would give without its [saturate] entry: getFilterString reads
    [saturation], which the merge leaves at its last-applied value.  No
    preset of the table changes the saturation or the blur of the adjustments;
    after Clarendon on the defaults the filter reads saturate(100%). *)
Theorem preset_saturate_is_not_shown :
  (forall (f : Filter.t) (s : EditorState),
     getFilterString (filters (filterPreviewOnClick f s))
     = getFilterString
         (spread (lastAppliedFilters s)
            (deleteProp "saturate" (Filter.filter f))))
  /\ Forall
       (fun f : Filter.t =>
          forall s : EditorState,
            getProp "saturation" (filters (filterPreviewOnClick f s))
            = getProp "saturation" (lastAppliedFilters s)
            /\ getProp "blur" (filters (filterPreviewOnClick f s))
               = getProp "blur" (lastAppliedFilters s))
       INSTAGRAM_FILTERS
  /\ getFilterString (filters (filterPreviewOnClick Clarendon brightened))
     = ("brightness(110%) contrast(120%) saturate(100%) sepia(0%) "
        +:+ "grayscale(0%) blur(0px) hue-rotate(0deg)")%string.
Proof.
  split; [|split].
  - intros f s. rewrite filters_filterPreviewOnClick. unfold getFilterString.
    rewrite !(getProp_spread_deleteProp _ "saturate") by discriminate.
    reflexivity.
  - repeat apply Forall_cons_2; try apply Forall_nil_2; intros s;
      rewrite filters_filterPreviewOnClick, !getProp_spread; split; reflexivity.
  - vm_compute. reflexivity.
Qed.



(** X11. Apply Crop in the crop view.  Without a drawing context, or with a
    rectangle of width or height 0 (getImageData throws and the handler
    catches it), the state stays as it is, still in the crop view.  With a
    rectangle of positive size, or with none, the crop is committed: the
    image becomes the PNG of the rectangle cut from the rotated and flipped
    working raster (of the whole working raster when there is no rectangle),
    the canvas comes back showing it, the tool is closed, rotation and flips
    are reset, and the live adjustments stay live, paired with the new image
    in the new history entry. *)
Theorem apply_crop_outcomes (host : Host) (s : EditorState) :
  wfState s -> canvasInSync s -> mode s = Some Mode.crop ->
  (forall finalCrop, step host s (ApplyCrop false finalCrop) = Some s)
  /\ (forall x y w h : Z,
        w = 0 \/ h = 0 ->
        step host s (ApplyCrop true (Some (PixelCrop.mk x y w h))) = Some s)
  /\ (forall finalCrop : option PixelCrop.t,
        match finalCrop with
        | Some pc => 0 < PixelCrop.width pc /\ 0 < PixelCrop.height pc
        | None => True
        end ->
        exists (out : Bitmap) (s' : EditorState),
          step host s (ApplyCrop true finalCrop) = Some s'
          /\ out
             = match finalCrop with
               | Some pc =>
                   buildBitmap (PixelCrop.width pc) (PixelCrop.height pc)
                     (fun col row =>
                        pixelAt (drawTransformed host (decode (imageSrc s))
                                   (rotation s) (flip s))
                          (PixelCrop.x pc + col) (PixelCrop.y pc + row))
               | None =>
                   drawTransformed host (decode (imageSrc s)) (rotation s)
                     (flip s)
               end
          /\ imageSrc s' = toDataURL out
          /\ canvasRef s' = Some out
          /\ mode s' = None
          /\ rotation s' = 0
          /\ flip s' = Flip.mk false false
          /\ filters s' = filters s
          /\ lastAppliedFilters s' = lastAppliedFilters s
          /\ history s'
             = take (Z.to_nat (historyIndex s + 1)) (history s)
               ++ [HistoryState.mk (toDataURL out) (filters s)]
          /\ historyIndex s' = historyIndex s + 1).
Proof.
  intros ([Hlo Hhi] & _ & _) Hsync Hm.
  assert (Hc : canvasRef s = None).
  { unfold canvasInSync in Hsync. destruct (canvasRef s); [|reflexivity].
    destruct Hsync as [Hn _]. contradiction. }
  split; [|split].
  - intros finalCrop. apply step_ApplyCrop_unchanged; try assumption.
    unfold performCrop. rewrite decide_True by exact Hm. reflexivity.
  - intros x y w h Hz. apply step_ApplyCrop_unchanged; try assumption.
    unfold performCrop. rewrite decide_True by exact Hm.
    unfold getCroppedImg, getImageData. simpl.
    destruct Hz as [-> | ->]; [reflexivity|].
    rewrite orb_true_r. reflexivity.
  - intros finalCrop Hpos.
    set (out := match finalCrop with
                | Some pc =>
                    buildBitmap (PixelCrop.width pc) (PixelCrop.height pc)
                      (fun col row =>
                         pixelAt (drawTransformed host (decode (imageSrc s))
                                    (rotation s) (flip s))
                           (PixelCrop.x pc + col) (PixelCrop.y pc + row))
                | None =>
                    drawTransformed host (decode (imageSrc s)) (rotation s)
                      (flip s)
                end).
    assert (Hg : getCroppedImg host true (imageSrc s) finalCrop (rotation s)
                   (flip s)
                 = Resolved (Some (toDataURL out))).
    { destruct finalCrop as [pc|].
      - destruct Hpos as [Hw Hh]. apply getCroppedImg_rect; assumption.
      - reflexivity. }
    exists out. unfold step, handle, performCrop.
    rewrite decide_True by exact Hm. rewrite Hg.
    eexists. split; [reflexivity|]. split; [reflexivity|].
    unfold render. unfold addToHistory. rewrite slice0_take by lia.
    destruct s; simpl in *. subst. simpl.
    rewrite decide_False by (intros [_ ?]; discriminate). simpl.
    repeat (split; [reflexivity|]).
    rewrite length_app, length_take. simpl. lia.
Qed.

Lemma apply_crop_outcomes_witness :
  step plainHost cropping (ApplyCrop true (Some (PixelCrop.mk 0 0 0 2)))
  = Some cropping.
Proof.
  apply (apply_crop_outcomes plainHost cropping).
  - split; [unfold wfHistory; simpl; lia|]. split; [reflexivity|simpl; lia].
  - reflexivity.
  - reflexivity.
  - left. reflexivity.
Defined.

(** X12. Cropping an upright image to its whole rectangle gives the image
    back, the same data URL as cropping with no rectangle at all: for a
    host that draws an image at rotation 0 without flips as it is, and an
    image of positive size holding whole pixels. *)
Theorem getCroppedImg_whole_image (host : Host) (imageSrc : Src) :
  drawTransformed host (decode imageSrc) 0 (Flip.mk false false)
  = decode imageSrc ->
  wfBitmap (decode imageSrc) ->
  0 < width (decode imageSrc) -> 0 < height (decode imageSrc) ->
  getCroppedImg host true imageSrc
    (Some (PixelCrop.mk 0 0 (width (decode imageSrc))
             (height (decode imageSrc))))
    0 (Flip.mk false false)
  = Resolved (Some (toDataURL (decode imageSrc)))
  /\ getCroppedImg host true imageSrc None 0 (Flip.mk false false)
     = Resolved (Some (toDataURL (decode imageSrc))).
Proof.
  intros Hhost Hwf Hw Hh. split.
  - rewrite getCroppedImg_rect by (simpl; assumption). simpl.
    rewrite Hhost. do 3 f_equal.
    etrans; [|apply (buildBitmap_pixelAt (decode imageSrc) Hwf)].
    apply buildBitmap_ext. intros x y _ _. reflexivity.
  - unfold getCroppedImg. simpl. rewrite Hhost. reflexivity.
Qed.

Lemma getCroppedImg_whole_image_witness :
  getCroppedImg plainHost true upload (Some (PixelCrop.mk 0 0 2 2)) 0
    (Flip.mk false false)
  = Resolved (Some (toDataURL (solid 2 2 greyPixel))).
Proof.
  apply (getCroppedImg_whole_image plainHost upload).
  - reflexivity.
  - unfold wfBitmap. simpl. lia.
  - simpl. lia.
  - simpl. lia.
Defined.

(** X13. Crops compose.  Cropping the result of a crop, upright, to a
    rectangle of positive size that lies inside it gives the same data URL
    as cropping the original once, with the same rotation and flips as the
    first crop, to the second rectangle moved by the corner of the first;
    the first rectangle may reach outside the image. *)
Theorem getCroppedImg_composes (host : Host) (imageSrc : Src)
    (rotation : Z) (flip : Flip.t) (r1 r2 : PixelCrop.t) :
  (forall img, drawTransformed host img 0 (Flip.mk false false) = img) ->
  0 < PixelCrop.width r2 -> 0 < PixelCrop.height r2 ->
  0 <= PixelCrop.x r2 ->
  PixelCrop.x r2 + PixelCrop.width r2 <= PixelCrop.width r1 ->
  0 <= PixelCrop.y r2 ->
  PixelCrop.y r2 + PixelCrop.height r2 <= PixelCrop.height r1 ->
  exists first : Src,
    getCroppedImg host true imageSrc (Some r1) rotation flip
    = Resolved (Some first)
    /\ getCroppedImg host true first (Some r2) 0 (Flip.mk false false)
       = getCroppedImg host true imageSrc
           (Some (PixelCrop.mk (PixelCrop.x r1 + PixelCrop.x r2)
                    (PixelCrop.y r1 + PixelCrop.y r2)
                    (PixelCrop.width r2) (PixelCrop.height r2)))
           rotation flip.
Proof.
  intros Hhost Hw2 Hh2 Hx0 Hx1 Hy0 Hy1.
  rewrite getCroppedImg_rect by lia. eexists. split; [reflexivity|].
  rewrite !getCroppedImg_rect by (simpl; lia). simpl.
  rewrite Hhost. do 3 f_equal.
  apply buildBitmap_ext. intros col row Hc Hr.
  rewrite pixelAt_buildBitmap by lia.
  f_equal; lia.
Qed.

Lemma getCroppedImg_composes_witness :
  exists first : Src,
    getCroppedImg plainHost true (DataURL eyes) (Some (PixelCrop.mk 4 4 6 6)) 0
      (Flip.mk false false)
    = Resolved (Some first)
    /\ getCroppedImg plainHost true first (Some (PixelCrop.mk 1 1 2 2)) 0
         (Flip.mk false false)
       = getCroppedImg plainHost true (DataURL eyes)
           (Some (PixelCrop.mk 5 5 2 2)) 0 (Flip.mk false false).
Proof.
  apply (getCroppedImg_composes plainHost (DataURL eyes) 0
           (Flip.mk false false) (PixelCrop.mk 4 4 6 6)
           (PixelCrop.mk 1 1 2 2)).
  - intros img. reflexivity.
  - simpl. lia.
  - simpl. lia.
  - simpl. lia.
  - simpl. lia.
  - simpl. lia.
  - simpl. lia.
Defined.

(** X14. Red-eye correction applied a second time at the same place changes
    nothing where the operator itself decides the pixel: when its square
    fits and the corner of the square is whole, an opaque pixel that lies
    well inside the disc or well outside it is after two passes what it is
    after one.  After one pass such a pixel, its green and blue being
    bytes, is as it was or is an opaque grey whose value lies between its
    green and its blue and below its red; it is grey when it lies well
    inside the disc and its red exceeds green + blue and 50. *)
Theorem removeRedEye_idempotent (host : Host) (canvas : Bitmap)
    (x y : Q) (radius px py : Z) :
  let startX := Math.max 0 (Number.sub x (inject_Z radius)) in
  let startY := Math.max 0 (Number.sub y (inject_Z radius)) in
  0 < radius ->
  width canvas <= 2 ^ 53 -> height canvas <= 2 ^ 53 ->
  (startX + inject_Z (radius * 2) <= inject_Z (width canvas))%Q ->
  (startY + inject_Z (radius * 2) <= inject_Z (height canvas))%Q ->
  Number.isInteger startX = true -> Number.isInteger startY = true ->
  inBounds canvas px py = true ->
  alpha (pixelAt canvas px py) = 255 ->
  wholeInArc x y radius px py = true \/ clearOfArc x y radius px py = true ->
  let once := (removeRedEye host canvas x y radius).1 in
  let twice := (removeRedEye host once x y radius).1 in
  let p := pixelAt canvas px py in
  pixelAt twice px py = pixelAt once px py
  /\ (0 <= green p <= 255 -> 0 <= blue p <= 255 ->
      pixelAt once px py = p
      \/ exists v,
           pixelAt once px py = RGBA v v v 255
           /\ 2 * v <= green p + blue p + 1 /\ v < red p
           /\ Z.min (green p) (blue p) <= v <= Z.max (green p) (blue p))
  /\ (wholeInArc x y radius px py = true ->
      red p > green p + blue p -> red p > 50 ->
      pixelAt once px py
      = RGBA (toUint8Clamp (green p + blue p) 2)
             (toUint8Clamp (green p + blue p) 2)
             (toUint8Clamp (green p + blue p) 2) 255).
Proof.
  intros startX startY Hr Hw Hh Hx Hy Hix Hiy Hin Ha Hd once twice p.
  destruct (removeRedEye_dims host canvas x y radius) as [Ew Eh].
  fold once in Ew, Eh.
  assert (Hin' : inBounds once px py = true).
  { apply inBounds_true. apply inBounds_true in Hin. rewrite Ew, Eh.
    exact Hin. }
  assert (Hwhole : wholeInArc x y radius px py = true ->
                   pixelAt once px py = redEyePixel p).
  { intros Hd'. unfold once. rewrite removeRedEye_whole by assumption.
    apply sourceOver_opaque. rewrite redEyePixel_alpha. exact Ha. }
  assert (Hclear : clearOfArc x y radius px py = true ->
                   pixelAt once px py = p).
  { intros Hc. apply removeRedEye_clear; assumption. }
  split; [|split].
  - destruct Hd as [Hd|Hc].
    + unfold twice. rewrite removeRedEye_whole; try assumption;
        try (rewrite ?Ew, ?Eh; assumption).
      rewrite Hwhole by assumption.
      rewrite sourceOver_opaque by (rewrite !redEyePixel_alpha; exact Ha).
      apply redEyePixel_idempotent.
    + unfold twice. apply removeRedEye_clear; assumption.
  - intros Hg Hb. destruct Hd as [Hd|Hc]; [|left; apply Hclear, Hc].
    rewrite Hwhole by assumption. unfold redEyePixel.
    destruct (Z.gtb_spec (red p) (green p + blue p)); [|left; reflexivity].
    destruct (Z.gtb_spec (red p) 50); [|left; reflexivity].
    simpl andb. cbv iota. right.
    exists (toUint8Clamp (green p + blue p) 2).
    pose proof (toUint8Clamp_average (green p) (blue p) Hg Hb) as [Hav _].
    fold p in Ha. rewrite Ha. split; [reflexivity|].
    pose proof (Z.div_mod (green p + blue p) 2 ltac:(lia)).
    pose proof (Z.mod_pos_bound (green p + blue p) 2 ltac:(lia)).
    pose proof (Z.div_mod (green p + blue p + 1) 2 ltac:(lia)).
    pose proof (Z.mod_pos_bound (green p + blue p + 1) 2 ltac:(lia)).
    lia.
  - intros Hd' H1 H2. rewrite Hwhole by assumption. unfold redEyePixel.
    destruct (Z.gtb_spec (red p) (green p + blue p)); [|lia].
    destruct (Z.gtb_spec (red p) 50); [|lia].
    simpl andb. cbv iota. fold p in Ha. rewrite Ha. reflexivity.
Qed.

Lemma removeRedEye_idempotent_witness :
  pixelAt (removeRedEye plainHost (removeRedEye plainHost eyes 6 6 5).1 6 6 5).1
    5 5
  = pixelAt (removeRedEye plainHost eyes 6 6 5).1 5 5.
Proof.
  assert (Hr : 0 < 5) by lia.
  assert (Hw : width eyes <= 2 ^ 53) by (vm_compute; discriminate).
  assert (Hh : height eyes <= 2 ^ 53) by (vm_compute; discriminate).
  assert (Hx : (Math.max 0 (Number.sub 6 (inject_Z 5)) + inject_Z (5 * 2)
                <= inject_Z (width eyes))%Q) by (vm_compute; discriminate).
  assert (Hy : (Math.max 0 (Number.sub 6 (inject_Z 5)) + inject_Z (5 * 2)
                <= inject_Z (height eyes))%Q) by (vm_compute; discriminate).
  assert (Hi : Number.isInteger (Math.max 0 (Number.sub 6 (inject_Z 5)))
               = true) by reflexivity.
  assert (Hin : inBounds eyes 5 5 = true) by reflexivity.
  assert (Ha : alpha (pixelAt eyes 5 5) = 255) by reflexivity.
  assert (Hd : wholeInArc 6 6 5 5 5 = true \/ clearOfArc 6 6 5 5 5 = true)
    by (left; reflexivity).
  exact (proj1 (removeRedEye_idempotent plainHost eyes 6 6 5 5 5
                  Hr Hw Hh Hx Hy Hi Hi Hin Ha Hd)).
Defined.

(** X15. spotFix replaces by means: when the corner of the square it reads is
    whole, an opaque pixel well inside the disc comes out opaque, and each
    of its colour bytes is the mean of that byte, rounded half to even, over
    those pixels of the 5 x 5 window around it that lie in the 2r x 2r
    square (between 1 and 25 of them, the pixel itself among them; what the
    square takes from outside the raster counts as zeros).  Hence each
    byte lies between any bounds that hold for that byte throughout the
    square, and in a square of one colour the pixel keeps that colour. *)
Theorem spotFix_stays_within_region (host : Host) (canvas : Bitmap)
    (x y : Q) (radius px py : Z) :
  let startX := Math.max 0 (Number.sub x (inject_Z radius)) in
  let startY := Math.max 0 (Number.sub y (inject_Z radius)) in
  let size := radius * 2 in
  let region := fun col row =>
    pixelAt canvas (Qfloor startX + col) (Qfloor startY + row) in
  let col := px - Qfloor startX in
  let row := py - Qfloor startY in
  let nb := neighbours size size row col in
  let n := Z.of_nat (length nb) in
  let p' := pixelAt (spotFix host canvas x y radius).1 px py in
  0 < radius ->
  width canvas <= 2 ^ 53 -> height canvas <= 2 ^ 53 ->
  Number.isInteger startX = true -> Number.isInteger startY = true ->
  inBounds canvas px py = true ->
  wholeInArc x y radius px py = true ->
  alpha (pixelAt canvas px py) = 255 ->
  p' = RGBA (toUint8Clamp (channelSum red region nb) n)
            (toUint8Clamp (channelSum green region nb) n)
            (toUint8Clamp (channelSum blue region nb) n) 255
  /\ 1 <= n <= 25
  /\ (forall c r : Z,
        (c, r) ∈ nb
        <-> (col - 2 <= c <= col + 2 /\ row - 2 <= r <= row + 2
             /\ 0 <= c < size /\ 0 <= r < size))
  /\ (forall lo hi : Pixel,
        0 <= red lo -> 0 <= green lo -> 0 <= blue lo ->
        red hi <= 255 -> green hi <= 255 -> blue hi <= 255 ->
        (forall c r, 0 <= c < size -> 0 <= r < size ->
           within lo hi (region c r)) ->
        within lo hi p')
  /\ (forall k : Pixel,
        0 <= red k <= 255 -> 0 <= green k <= 255 -> 0 <= blue k <= 255 ->
        (forall c r, 0 <= c < size -> 0 <= r < size -> region c r = k) ->
        p' = k).
Proof.
  intros startX startY size region col row nb n p' Hr Hw Hh Hix Hiy Hin Hd Ha.
  apply inBounds_true in Hin as Hb.
  destruct (wholeInArc_in_square x y radius px py Hd) as [Hsx Hsy];
    [lia|lia|]. fold startX in Hsx. fold startY in Hsy.
  assert (Hrow : 0 <= row < size) by (unfold row, size; lia).
  assert (Hcol : 0 <= col < size) by (unfold col, size; lia).
  assert (Hp' : p' = blurPixel (buildData size size region) size size row col
                       (pixelAt canvas px py)).
  { unfold p'. rewrite spotFix_whole by assumption.
    fold startX startY size region row col.
    apply sourceOver_opaque. unfold blurPixel.
    destruct (neighbourSum _ _ _ _ _) as [[[r g] b] count].
    destruct (count >? 0); exact Ha. }
  assert (Hwithin : forall lo hi : Pixel,
            0 <= red lo -> 0 <= green lo -> 0 <= blue lo ->
            red hi <= 255 -> green hi <= 255 -> blue hi <= 255 ->
            (forall c r, 0 <= c < size -> 0 <= r < size ->
               within lo hi (region c r)) ->
            within lo hi p').
  { intros lo hi Hr0 Hg0 Hb0 Hr1 Hg1 Hb1 HF. rewrite Hp'.
    apply (blurPixel_within size size region row col lo hi); assumption. }
  split; [|split; [|split; [|split]]].
  - rewrite Hp', blurPixel_mean by assumption. fold nb n. rewrite Ha.
    reflexivity.
  - apply (neighbours_count size size region); assumption.
  - intros c r. unfold nb, neighbours, rowNeighbours.
    rewrite list_elem_of_bind. split.
    + intros (dy & H & Hdy). apply list_elem_of_bind in H as (dx & H & Hdx).
      apply elem_of_seqZ in Hdy, Hdx.
      destruct (_ && _) eqn:E; [|inversion H].
      apply list_elem_of_singleton in H. injection H as -> ->.
      rewrite !andb_true_iff, !Z.leb_le, !Z.ltb_lt in E. lia.
    + intros (Hc1 & Hr1 & Hc2 & Hr2). exists (r - row). split.
      * apply list_elem_of_bind. exists (c - col). split.
        -- replace (row + (r - row)) with r by lia.
           replace (col + (c - col)) with c by lia.
           destruct (Z.leb_spec 0 r); [|lia].
           destruct (Z.ltb_spec r size); [|lia].
           destruct (Z.leb_spec 0 c); [|lia].
           destruct (Z.ltb_spec c size); [|lia].
           simpl. apply list_elem_of_singleton. reflexivity.
        -- apply elem_of_seqZ. lia.
      * apply elem_of_seqZ. lia.
  - exact Hwithin.
  - intros k Hkr Hkg Hkb HF.
    destruct (Hwithin k k) as (Wr & Wg & Wb); try lia.
    { intros c r Hc Hrr. rewrite HF by assumption. unfold within. lia. }
    assert (Hpk : pixelAt canvas px py = k).
    { rewrite <- (HF col row) by assumption. unfold region, col, row.
      f_equal; lia. }
    assert (Hal : alpha p' = 255).
    { rewrite Hp'. unfold blurPixel.
      destruct (neighbourSum _ _ _ _ _) as [[[r g] b] count].
      destruct (count >? 0); exact Ha. }
    rewrite Hpk in Ha.
    destruct p' as [r g b a], k as [kr kg kb ka]. simpl in *. f_equal; lia.
Qed.

Lemma spotFix_stays_within_region_witness :
  pixelAt eyes 5 5 = RGBA 200 10 10 255
  /\ pixelAt (spotFix plainHost eyes 6 6 3).1 5 5 = RGBA 100 100 93 255.
Proof.
  split; [reflexivity|].
  assert (Hr : 0 < 3) by lia.
  assert (Hw : width eyes <= 2 ^ 53) by (vm_compute; discriminate).
  assert (Hh : height eyes <= 2 ^ 53) by (vm_compute; discriminate).
  assert (Hix : Number.isInteger (Math.max 0 (Number.sub 6 (inject_Z 3)))
                = true) by reflexivity.
  assert (Hin : inBounds eyes 5 5 = true) by reflexivity.
  assert (Hd : wholeInArc 6 6 3 5 5 = true) by reflexivity.
  assert (Ha : alpha (pixelAt eyes 5 5) = 255) by reflexivity.
  etrans;
    [exact (proj1 (spotFix_stays_within_region plainHost eyes 6 6 3 5 5
                     Hr Hw Hh Hix Hix Hin Hd Ha))|].
  vm_compute. reflexivity.
Defined.

(** X16. removeColorRange on a canvas of width or height 0 ends in an
    exception with the canvas untouched.  On any other canvas it returns,
    keeps the size, and makes transparent exactly what is close to the
    target colour: a pixel whose squared colour distance is below the square
    of a positive tolerance gets alpha 0; any other pixel, and every pixel
    when the tolerance is 0 or less, keeps its alpha, and keeps all four
    bytes when it is opaque; a second pass with the same colour and
    tolerance changes no alpha. *)
Theorem removeColorRange_clears_near_colours (canvas : Bitmap)
    (targetColor : TargetColor.t) (tolerance : Z) :
  let result := removeColorRange canvas targetColor tolerance in
  (width canvas = 0 \/ height canvas = 0 ->
   result = (canvas, Threw IndexSizeError))
  /\ (0 < width canvas -> 0 < height canvas ->
      result.2 = Returned
      /\ width result.1 = width canvas /\ height result.1 = height canvas
      /\ (forall px py : Z,
            inBounds canvas px py = true ->
            let p := pixelAt canvas px py in
            let p' := pixelAt result.1 px py in
            (0 < tolerance ->
             distance2 targetColor p < tolerance * tolerance ->
             alpha p' = 0)
            /\ (tolerance <= 0
                \/ tolerance * tolerance <= distance2 targetColor p ->
                alpha p' = alpha p /\ (alpha p = 255 -> p' = p))
            /\ alpha
                 (pixelAt (removeColorRange result.1 targetColor tolerance).1
                    px py)
               = alpha p')).
Proof.
  intros result. split.
  - intros Hz. unfold result, removeColorRange, getImageData.
    destruct Hz as [-> | ->]; [reflexivity|].
    rewrite orb_true_r. reflexivity.
  - intros Hw Hh. unfold result. rewrite removeColorRange_runs by assumption.
    simpl fst. simpl snd.
    split; [reflexivity|]. split; [reflexivity|]. split; [reflexivity|].
    intros px py Hin. cbv zeta. apply inBounds_true in Hin.
    rewrite removeColorRange_runs by (simpl; assumption). simpl fst.
    rewrite !pixelAt_buildBitmap by lia.
    rewrite removeColorPixel_idempotent.
    rewrite removeColorPixel_cases.
    split; [|split].
    + intros Ht Hd.
      rewrite bool_decide_eq_true_2 by (split; assumption). reflexivity.
    + intros Hfar. rewrite bool_decide_eq_false_2 by lia. split; reflexivity.
    + reflexivity.
Qed.

(** X17. The Editor component of utils/imageProcessing.ts: undo, redo and
    commitChanges keep the index inside the history, so the current image is
    always defined; undo and redo move the index and change nothing else, so
    each takes back the other exactly; at the first entry undo, and at the
    last entry redo, change nothing. *)
Theorem editor_undo_redo_inverse (Line : Type) (s : Editor.State Line) :
  Editor.wf s ->
  Editor.wf (Editor.handleUndo s) /\ Editor.wf (Editor.handleRedo s)
  /\ Editor.wf (Editor.commitChanges s)
  /\ is_Some (Editor.currentImageSrc s)
  /\ (0 < Editor.historyIndex s ->
      Editor.handleRedo (Editor.handleUndo s) = s)
  /\ (Editor.historyIndex s < Z.of_nat (length (Editor.history s)) - 1 ->
      Editor.handleUndo (Editor.handleRedo s) = s)
  /\ (Editor.historyIndex s = 0 -> Editor.handleUndo s = s)
  /\ (Editor.historyIndex s = Z.of_nat (length (Editor.history s)) - 1 ->
      Editor.handleRedo s = s).
Proof.
  intros Hwf. unfold Editor.wf in Hwf. destruct Hwf as [Hlo Hhi].
  unfold Editor.wf.
  split; [|split; [|split; [|split; [|split; [|split; [|split]]]]]].
  - unfold Editor.handleUndo. destruct (Z.gtb_spec (Editor.historyIndex s) 0);
      destruct s; simpl in *; lia.
  - unfold Editor.handleRedo.
    destruct (Z.ltb_spec (Editor.historyIndex s)
                (Z.of_nat (length (Editor.history s)) - 1));
      destruct s; simpl in *; lia.
  - unfold Editor.commitChanges. destruct (Editor.canvasRef s) as [c|];
      [|lia].
    pose proof (editor_addToHistory_wf (toDataURL c) s
                  (conj Hlo Hhi)) as Hwf.
    unfold Editor.wf in Hwf.
    destruct (Editor.addToHistory (toDataURL c) s); simpl in *. exact Hwf.
  - unfold Editor.currentImageSrc. apply at_index_is_Some. lia.
  - intros Hpos. unfold Editor.handleUndo.
    destruct (Z.gtb_spec (Editor.historyIndex s) 0); [|lia].
    unfold Editor.handleRedo.
    destruct s as [tab h i adj dr col wd ls cv]; simpl in *.
    destruct (Z.ltb_spec (i - 1) (Z.of_nat (length h) - 1)); [|lia].
    f_equal. lia.
  - intros Hlt. unfold Editor.handleRedo.
    destruct (Z.ltb_spec (Editor.historyIndex s)
                (Z.of_nat (length (Editor.history s)) - 1)); [|lia].
    unfold Editor.handleUndo.
    destruct s as [tab h i adj dr col wd ls cv]; simpl in *.
    destruct (Z.gtb_spec (i + 1) 0); [|lia].
    f_equal. lia.
  - intros H0. unfold Editor.handleUndo. rewrite H0. reflexivity.
  - intros Hlast. unfold Editor.handleRedo.
    destruct (Z.ltb_spec (Editor.historyIndex s)
                (Z.of_nat (length (Editor.history s)) - 1)); [lia|reflexivity].
Qed.

Lemma editor_undo_redo_inverse_witness :
  Editor.handleRedo
    (Editor.handleUndo
       (Editor.addToHistory rasterA
          (Editor.initialState (Line := Z * Z) upload None)))
  = Editor.addToHistory rasterA (Editor.initialState upload None).
Proof.
  assert (Hwf : Editor.wf (Editor.addToHistory rasterA
                             (Editor.initialState (Line := Z * Z) upload None)))
    by (unfold Editor.wf; simpl; lia).
  apply (proj1 (proj2 (proj2 (proj2 (proj2
           (editor_undo_redo_inverse _ _ Hwf)))))).
  simpl. lia.
Defined.

(** X18. commitChanges of the Editor component bakes: with a canvas
    mounted it drops the entries after the current one, appends the PNG of
    the canvas and makes it the current image, resets the adjustments to the
    defaults and clears the strokes, and redo then has nothing to do.  Undo
    right after it shows the image that was current before, with the
    adjustments still at the defaults: the adjustments that were baked are
    not brought back. *)
Theorem editor_commit_bakes (Line : Type) (s : Editor.State Line)
    (canvas : Bitmap) :
  Editor.wf s -> Editor.canvasRef s = Some canvas ->
  let s' := Editor.commitChanges s in
  Editor.history s'
  = take (Z.to_nat (Editor.historyIndex s + 1)) (Editor.history s)
    ++ [toDataURL canvas]
  /\ Editor.historyIndex s' = Editor.historyIndex s + 1
  /\ Editor.currentImageSrc s' = Some (toDataURL canvas)
  /\ Editor.adjustments s' = Editor.defaultAdjustments
  /\ Editor.lines s' = []
  /\ Editor.handleRedo s' = s'
  /\ Editor.currentImageSrc (Editor.handleUndo s') = Editor.currentImageSrc s
  /\ Editor.adjustments (Editor.handleUndo s') = Editor.defaultAdjustments.
Proof.
  intros Hwf Hc s'. unfold Editor.wf in Hwf. destruct Hwf as [Hlo Hhi].
  assert (Hs' : s' = Editor.setLines []
                       (Editor.setAdjustments Editor.defaultAdjustments
                          (Editor.addToHistory (toDataURL canvas) s))).
  { unfold s', Editor.commitChanges. rewrite Hc. reflexivity. }
  assert (Hh : Editor.history s'
               = take (Z.to_nat (Editor.historyIndex s + 1)) (Editor.history s)
                 ++ [toDataURL canvas]).
  { rewrite Hs'. unfold Editor.addToHistory.
    rewrite slice0_take by lia. destruct s; reflexivity. }
  assert (Hi : Editor.historyIndex s' = Editor.historyIndex s + 1).
  { rewrite Hs'. unfold Editor.addToHistory. rewrite slice0_take by lia.
    destruct s; simpl in *. rewrite length_app, length_take. simpl. lia. }
  assert (Hlen : Z.of_nat (length (Editor.history s'))
                 = Editor.historyIndex s + 2).
  { rewrite Hh, length_app, length_take. simpl. lia. }
  assert (Ha : Editor.adjustments s' = Editor.defaultAdjustments)
    by (rewrite Hs'; destruct s; reflexivity).
  split; [exact Hh|]. split; [exact Hi|].
  split.
  { unfold Editor.currentImageSrc. rewrite Hi.
    replace (Editor.historyIndex s + 1)
      with (Z.of_nat (length (Editor.history s')) - 1) by lia.
    rewrite Hh. apply at_index_last. }
  split; [exact Ha|].
  split; [rewrite Hs'; destruct s; reflexivity|].
  split.
  { unfold Editor.handleRedo.
    destruct (Z.ltb_spec (Editor.historyIndex s')
                (Z.of_nat (length (Editor.history s')) - 1));
      [lia|reflexivity]. }
  unfold Editor.handleUndo.
  destruct (Z.gtb_spec (Editor.historyIndex s') 0); [|lia].
  split.
  - unfold Editor.currentImageSrc.
    replace (Editor.history (Editor.setHistoryIndex _ s'))
      with (Editor.history s') by (destruct s'; reflexivity).
    replace (Editor.historyIndex (Editor.setHistoryIndex _ s'))
      with (Editor.historyIndex s' - 1) by (destruct s'; reflexivity).
    rewrite Hi, Hh, !at_index_lookup by lia.
    rewrite lookup_app_l by (rewrite length_take; lia).
    replace (Z.to_nat (Editor.historyIndex s + 1 - 1))
      with (Z.to_nat (Editor.historyIndex s)) by lia.
    apply lookup_take_lt. lia.
  - rewrite <- Ha. destruct s'; reflexivity.
Qed.

Lemma editor_commit_bakes_witness :
  Editor.currentImageSrc
    (Editor.commitChanges
       (Editor.initialState (Line := Z * Z) upload
          (Some (solid 2 2 redPixel))))
  = Some rasterA.
Proof.
  apply (editor_commit_bakes (Z * Z)
           (Editor.initialState upload (Some (solid 2 2 redPixel)))
           (solid 2 2 redPixel)).
  - unfold Editor.wf. simpl. lia.
  - reflexivity.
Defined.
